(** * Graphinator: the liquidation decision-and-submission pipeline

    A shallow embedding of [src/graphinator.ts] (class [Graphinator]):
    the per-flow gas price ceiling [_calculateMaxGasPrice], the
    filter / sort / chunk selection and the per-batch submission of
    [processAll] and [batchLiquidateFlows].

    Numbers.  A JavaScript [number] is modelled by an exact rational
    ([Q]); a [bigint] and every value produced by [Math.round] or
    [Math.floor] by an integer ([Z]).  The arithmetic is therefore the
    arithmetic of the formulas, without the rounding error of binary64
    and without [NaN] or infinities.  [Math.round x] is [floor (x + 1/2)]
    (ties go up), [Math.floor] is [floor].  Where a product or a quotient
    has no binary64 representation the number of the program can differ
    from the rational in the last place, and its [Math.round] or
    [Math.floor] by one: at a consumed deposit percentage of 760 the
    multiplier of the program is 2.0999999999999996 and the rational 2.1;
    for a gas estimate of 100000 and a gas multiplier of 1.15 the limit
    of the program is 114999 and the rational one 115000.

    Binary64.  The module [Binary64] has [_calculateMaxGasPrice] once
    more, on binary64 numbers (the primitive floats, with the
    specification of their operations in [SpecFloat]); the properties of
    the time-based multiplier are proved on it for every binary64 number.

    Sorting.  [Array.prototype.sort] is stable, and so is [Js.sort]: an
    insertion sort that keeps the order of the elements that compare
    equal.

    Effects.  The network client, the flow source and the signer are
    functions on an abstract world [W] that either return a value or
    throw; the program runs in a state-and-exception monad over the world
    and a trace of the calls it made.  The trace also records every entry
    into [batchLiquidateFlows] with its arguments.

    Loops.  The loop of [_chunkArray] takes fuel, and [_chunkArray] gives
    it more than any loop that ends can use: it returns [None] only for a
    loop that never ends, and a run with such a loop has the outcome
    [Diverges].  The index is a rational: it moves forward at every
    addition of a positive size, where a binary64 index stops moving once
    the size is too small a fraction of it.  For a size that is an
    integer the two are the same. *)

From Stdlib Require Import ZArith QArith Qround Qminmax Lia Lqa String Ascii List.
From Stdlib Require Qpower Floats.
From stdpp Require Import gmap strings list sorting.

Local Open Scope Z_scope.

(** ** JavaScript numbers *)

Module Js.

(** [Math.round]: nearest integer, a fraction of exactly one half goes up. *)
Definition Math_round (x : Q) : Z := Qfloor (x + (1 # 2))%Q.

Definition Math_floor (x : Q) : Z := Qfloor x.

Definition Math_max (x y : Q) : Q := Qmax x y.

Definition Math_min (x y : Q) : Q := Qmin x y.

(** [x > y], [x < y] and [x >= y] on numbers. *)
Definition gt (x y : Q) : bool := negb (Qle_bool x y).

Definition lt (x y : Q) : bool := negb (Qle_bool y x).

Definition ge (x y : Q) : bool := Qle_bool y x.

(** Truthiness of a number: every number but zero. *)
Definition truthy (x : Q) : bool := negb (Qeq_bool x 0).

(** Truthiness of a string that may be [undefined]: the empty string and
    [undefined] are falsy. *)
Definition truthy_str (x : option string) : bool :=
  match x with
  | Some s => negb (String.eqb s EmptyString)
  | None => false
  end.

(** [String.prototype.toLowerCase] on ASCII letters. *)
Definition lower_ascii (c : ascii) : ascii :=
  let n := nat_of_ascii c in
  if ((65 <=? n) && (n <=? 90))%nat then ascii_of_nat (n + 32) else c.

Fixpoint toLowerCase (s : string) : string :=
  match s with
  | EmptyString => EmptyString
  | String c r => String (lower_ascii c) (toLowerCase r)
  end.

(** [ToIntegerOrInfinity]: the fraction of a number is dropped. *)
Definition ToIntegerOrInfinity (x : Q) : Z :=
  if Qle_bool 0 x then Qfloor x else Qceiling x.

(** [Array.prototype.slice start end] with the relative indices of the
    language: an index is truncated to an integer, a negative one counts
    from the end, both are clamped to the length. *)
Definition rel_index (len k : Z) : Z :=
  if k <? 0 then Z.max (len + k) 0 else Z.min k len.

Definition slice {T} (a : list T) (from to : Q) : list T :=
  let len := Z.of_nat (length a) in
  let k := rel_index len (ToIntegerOrInfinity from) in
  let final := rel_index len (ToIntegerOrInfinity to) in
  take (Z.to_nat (final - k)) (drop (Z.to_nat k) a).

(** [Array.prototype.sort cmp], which is stable: an element goes before
    the elements that [cmp] puts after it or level with it, and behind the
    others, so elements that [cmp] puts level keep the order they had.
    [insert] puts one element into a sorted list, [sort] the elements of an
    array one by one, the last first. *)
Fixpoint insert {T} (cmp : T -> T -> Z) (x : T) (l : list T) : list T :=
  match l with
  | [] => [x]
  | y :: r => if cmp x y <=? 0 then x :: y :: r else y :: insert cmp x r
  end.

Definition sort {T} (cmp : T -> T -> Z) (a : list T) : list T :=
  List.fold_right (insert cmp) [] a.

End Js.

(** ** Data model *)

(** [Flow] of [types/types.ts]: the fields this class reads. *)
Record Flow := {
  agreementType : Z;
  sender : string;
  receiver : string;
  token : string;
  flowrate : Z;
  consumedDepositPercentage : Q
}.

(** The fields of the class that the pipeline reads. *)
Record Graphinator := {
  depositConsumedPctThreshold : Q;
  batchSize : Q;
  gasMultiplier : Q;
  referenceGasPriceLimit : Q;
  fallbackGasPriceLimit : Q;
  minGasPriceLimit : Q;
  isListed : bool;
  tokenPrices : gmap string Q;
  (** [this.wallet.address] *)
  walletAddress : string
}.

(** The check of the constructor on the three limits: it throws when the
    minimum exceeds the fallback or the reference limit. *)
Definition limits_accepted (this : Graphinator) : bool :=
  negb (Js.gt (minGasPriceLimit this) (fallbackGasPriceLimit this)
        || Js.gt (minGasPriceLimit this) (referenceGasPriceLimit this)).

(** ** Gas price policy *)

Section GasPricePolicy.

Variable this : Graphinator.

Definition refDailyNFR : Q := inject_Z (10 ^ 18).

(** [tokenPrice ? Math.round(flowrate * 86400 * tokenPrice) : undefined] *)
Definition dailyNFR (tokenPrice : option Q) (flowrate : Q) : option Z :=
  match tokenPrice with
  | Some p =>
      if Js.truthy p then Some (Js.Math_round (flowrate * 86400 * p)%Q)
      else None
  | None => None
  end.

(** [dailyNFR ? Math.max(min, Math.round(dailyNFR * ref / refDailyNFR)) : fallback] *)
Definition baseMaxGasPrice (flow : Flow) : Q :=
  let tokenPrice := tokenPrices this !! token flow in
  let flowrate := inject_Z (flowrate flow) in
  match dailyNFR tokenPrice flowrate with
  | Some d =>
      if Js.truthy (inject_Z d) then
        Js.Math_max (minGasPriceLimit this)
          (inject_Z (Js.Math_round
             (inject_Z d * referenceGasPriceLimit this / refDailyNFR)%Q))
      else fallbackGasPriceLimit this
  | None => fallbackGasPriceLimit this
  end.

(** The time-based multiplier of a consumed deposit percentage. *)
Definition timeMultiplier (flow : Flow) : Q :=
  let c := consumedDepositPercentage flow in
  if Js.truthy c && Js.gt c 100 then
    let hoursSinceInsolvent := ((c - 100) * 4 / 100)%Q in
    let daysSinceInsolvent := (hoursSinceInsolvent / 24)%Q in
    (1 + Js.Math_min daysSinceInsolvent 10)%Q
  else 1%Q.

Definition _calculateMaxGasPrice (flow : Flow) : Z :=
  Js.Math_round (baseMaxGasPrice flow * timeMultiplier flow)%Q.

End GasPricePolicy.

(** ** Batch selector *)

Section BatchSelector.

Variable this : Graphinator.

(** The loop of [_chunkArray]:
    [for (let i = 0; i < array.length; i += size) chunks.push(array.slice(i, i + size))].
    One unit of fuel per iteration; [None] when the fuel runs out. *)
Fixpoint chunk_loop {T} (fuel : nat) (array : list T) (size i : Q)
    (chunks : list (list T)) : option (list (list T)) :=
  match fuel with
  | O => None
  | S fuel' =>
      if Js.lt i (inject_Z (Z.of_nat (length array))) then
        chunk_loop fuel' array size (i + size)%Q
          (chunks ++ [Js.slice array i (i + size)%Q])
      else Some chunks
  end.

(** Fuel that the loop cannot exhaust when it ends.  With a positive size
    the index reaches the length after [ceiling (length / size)] additions,
    and one more test leaves the loop; with a size of zero or less the index
    never moves forward, and any fuel will do. *)
Definition chunk_fuel (len : nat) (size : Q) : nat :=
  if Js.gt size 0 then S (Z.to_nat (Qceiling (inject_Z (Z.of_nat len) / size)))
  else S len.

(** [_chunkArray]: [Some chunks] when the loop ends, [None] when it never
    does (see [chunkArray_loop]: the result is that of the loop at any fuel
    that lets it end). *)
Definition _chunkArray {T} (array : list T) (size : Q) : option (list (list T)) :=
  chunk_loop (chunk_fuel (length array) size) array size 0%Q [].

(** [flowsToLiquidate.filter(flow => this._calculateMaxGasPrice(flow) >= currentGasPrice)] *)
Definition flowsWorthLiquidating (flowsToLiquidate : list Flow)
    (currentGasPrice : Q) : list Flow :=
  List.filter
    (fun flow => Js.ge (inject_Z (_calculateMaxGasPrice this flow)) currentGasPrice)
    flowsToLiquidate.

(** The comparator [(a, b) => this._calculateMaxGasPrice(b) - this._calculateMaxGasPrice(a)]. *)
Definition byMaxGasPriceDesc (a b : Flow) : Z :=
  _calculateMaxGasPrice this b - _calculateMaxGasPrice this a.

(** Filter, sort and chunk, as [processAll] does for one token. *)
Definition selectBatches (flowsToLiquidate : list Flow) (currentGasPrice : Q)
    : option (list (list Flow)) :=
  let worth := flowsWorthLiquidating flowsToLiquidate currentGasPrice in
  let sorted := Js.sort byMaxGasPriceDesc worth in
  _chunkArray sorted (batchSize this).

End BatchSelector.

(** ** The world: network client, flow source, signer *)

(** A call either returns or throws an error with a message. *)
Inductive result (A : Type) : Type :=
  | Returns (a : A)
  | Throws (e : string).
Arguments Returns {A} a.
Arguments Throws {A} e.

(** [TransactionLike] as [_generateBatchLiquidationTxData] fills it. *)
Record TransactionLike := {
  to : string;
  data : string
}.

(** The transaction request that [batchLiquidateFlows] assembles. *)
Record Tx := {
  tx_to : string;
  tx_data : string;
  gasLimit : Z;
  gasPrice : Z;
  chainId : Z;
  nonce : Z
}.

(** One element of the [deleteFlows] argument. *)
Record FlowParams := {
  agreementOperation : Z;
  p_sender : string;
  p_receiver : string
}.

(** The collaborators of the class, as functions on a world [W]. *)
Record Network (W : Type) := {
  (** [ethers.resolveAddress(token, provider)] *)
  resolveAddress : string -> W -> result string * W;
  (** [dataFetcher.getSuperTokens(isListed)], the ids of the tokens *)
  getSuperTokens : bool -> W -> result (list string) * W;
  (** [dataFetcher.getFlowsToLiquidate(token, gdaForwarder, threshold, fn)] *)
  getFlowsToLiquidate : string -> Q -> (Flow -> Z) -> W -> result (list Flow) * W;
  (** [(await provider.getFeeData()).gasPrice], a bigint or null *)
  getFeeData : W -> result (option Z) * W;
  (** [batchLiquidator.interface.encodeFunctionData('deleteFlows', ...)] *)
  encodeFunctionData : string -> list FlowParams -> result string;
  (** [batchLiquidator.getAddress()] *)
  getAddress : W -> result string * W;
  (** [provider.estimateGas({to, data})] *)
  estimateGas : string -> string -> W -> result Z * W;
  (** [(await provider.getNetwork()).chainId] *)
  getNetwork : W -> result Z * W;
  (** [provider.getTransactionCount(address)] *)
  getTransactionCount : string -> W -> result Z * W;
  (** [wallet.signTransaction(tx)] *)
  signTransaction : Tx -> W -> result string * W;
  (** [provider.broadcastTransaction(signedTx)], the hash of the response *)
  broadcastTransaction : string -> W -> result string * W;
  (** [transactionResponse.wait()], the hash of the receipt or nothing *)
  wait : string -> W -> result (option string) * W
}.
Arguments resolveAddress {W}.
Arguments getSuperTokens {W}.
Arguments getFlowsToLiquidate {W}.
Arguments getFeeData {W}.
Arguments encodeFunctionData {W}.
Arguments getAddress {W}.
Arguments estimateGas {W}.
Arguments getNetwork {W}.
Arguments getTransactionCount {W}.
Arguments signTransaction {W}.
Arguments broadcastTransaction {W}.
Arguments wait {W}.

(** What [log] prints, by call site. *)
Inductive LogMsg :=
  | LogProcessing (tokens : nat) (listed : bool)
  | LogFound (flows : nat)
  | LogCurrentGasPrice (gwei : Q)
  | LogInRange (flows : nat)
  | LogSorted
  | LogNoCritical (tokenAddr : string)
  | LogDryRun (tx : Tx)
  | LogSuccess (hash : option string).

(** The calls the program makes, in order. *)
Inductive Event :=
  | EResolveAddress (tok : string)
  | EGetSuperTokens (listed : bool)
  | EGetFlowsToLiquidate (tokenAddr : string)
  | EGetFeeData
  | EBatchLiquidateFlows (tokenAddr : string) (flows : list Flow) (maxGasPrice : Z)
  | EGetAddress
  | EEstimateGas (to_ data_ : string)
  | EGetNetwork
  | EGetTransactionCount (address : string)
  | ESignTransaction (tx : Tx)
  | EBroadcastTransaction (signedTx : string)
  | EWait (hash : string)
  | ELog (m : LogMsg)
  | EConsoleError (e : string).

(** ** The monad of the program: world, trace, exceptions *)

(** How a computation ends: it returns, it throws, or it never ends. *)
Inductive outcome (A : Type) : Type :=
  | Done (a : A)
  | Raised (e : string)
  | Diverges.
Arguments Done {A} a.
Arguments Raised {A} e.
Arguments Diverges {A}.

Declare Scope prog_scope.
Delimit Scope prog_scope with prog.

Section Monad.

Context {W : Type}.

Definition M (A : Type) : Type :=
  W * list Event -> outcome A * (W * list Event).

Definition ret {A} (a : A) : M A := fun s => (Done a, s).

Definition bind {A B} (m : M A) (k : A -> M B) : M B :=
  fun s =>
    match m s with
    | (Done a, s') => k a s'
    | (Raised e, s') => (Raised e, s')
    | (Diverges, s') => (Diverges, s')
    end.

Definition throw {A} (e : string) : M A := fun s => (Raised e, s).

Definition hang {A} : M A := fun s => (Diverges, s).

(** Record a call that has no result. *)
Definition emit (ev : Event) : M unit :=
  fun s => (Done tt, (fst s, snd s ++ [ev])).

(** Record a call to a collaborator and take its result. *)
Definition call {A} (ev : Event) (f : W -> result A * W) : M A :=
  fun s =>
    match f (fst s) with
    | (Returns a, w') => (Done a, (w', snd s ++ [ev]))
    | (Throws e, w') => (Raised e, (w', snd s ++ [ev]))
    end.

(** A call that does not touch the world. *)
Definition pure_call {A} (r : result A) : M A :=
  fun s =>
    match r with
    | Returns a => (Done a, s)
    | Throws e => (Raised e, s)
    end.

(** [try { body } catch (error) { handler error }] *)
Definition try_catch (body : M unit) (handler : string -> M unit) : M unit :=
  fun s =>
    match body s with
    | (Raised e, s') => handler e s'
    | r => r
    end.

(** [for (const x of l) { await body x }] *)
Fixpoint for_of {A} (l : list A) (body : A -> M unit) : M unit :=
  match l with
  | [] => ret tt
  | x :: r => bind (body x) (fun _ => for_of r body)
  end.

End Monad.

Notation "x <- c1 ;; c2" := (bind c1 (fun x => c2))
  (at level 100, c1 at next level, right associativity) : prog_scope.
Notation "c1 ;; c2" := (bind c1 (fun _ => c2))
  (at level 100, right associativity) : prog_scope.

(** ** The program *)

Section Program.

Context {W : Type}.
Variable net : Network W.
Variable this : Graphinator.
(** [process.env.DRY_RUN] *)
Variable DRY_RUN : option string.

Local Open Scope prog_scope.

Definition log (m : LogMsg) : M (W:=W) unit := emit (ELog m).

Definition _getSuperTokens (listed : bool) : M (W:=W) (list string) :=
  tokens <- call (EGetSuperTokens listed) (getSuperTokens net listed) ;;
  ret (map Js.toLowerCase tokens).

Definition _generateBatchLiquidationTxData (tok : string) (flows : list Flow)
    : M (W:=W) TransactionLike :=
  if negb (forallb (fun flow => String.eqb (token flow) tok) flows) then
    throw "flow with wrong token"
  else
    let structParams :=
      map (fun flows => {| agreementOperation := agreementType flows;
                           p_sender := sender flows;
                           p_receiver := receiver flows |}) flows in
    transactionData <- pure_call (encodeFunctionData net tok structParams) ;;
    transactionTo <- call EGetAddress (getAddress net) ;;
    ret {| data := transactionData; to := transactionTo |}.

Definition _estimateGasLimit (transaction : TransactionLike) : M (W:=W) Z :=
  gasEstimate <- call (EEstimateGas (to transaction) (data transaction))
                   (estimateGas net (to transaction) (data transaction)) ;;
  ret (Js.Math_floor (inject_Z gasEstimate * gasMultiplier this)%Q).

(** The body of the [try] of [batchLiquidateFlows]. *)
Definition batchLiquidateFlows_body (tok : string) (flows : list Flow)
    (maxGasPrice : Z) : M (W:=W) unit :=
  txData <- _generateBatchLiquidationTxData tok flows ;;
  gasLimit_ <- _estimateGasLimit txData ;;
  chainId_ <- call EGetNetwork (getNetwork net) ;;
  nonce_ <- call (EGetTransactionCount (walletAddress this))
              (getTransactionCount net (walletAddress this)) ;;
  let tx := {| tx_to := to txData;
               tx_data := data txData;
               gasLimit := gasLimit_;
               gasPrice := maxGasPrice;
               chainId := chainId_;
               nonce := nonce_ |} in
  if Js.truthy_str DRY_RUN then
    log (LogDryRun tx)
  else
    signedTx <- call (ESignTransaction tx) (signTransaction net tx) ;;
    transactionResponse <- call (EBroadcastTransaction signedTx)
                             (broadcastTransaction net signedTx) ;;
    receipt <- call (EWait transactionResponse) (wait net transactionResponse) ;;
    log (LogSuccess receipt).

Definition batchLiquidateFlows (tok : string) (flows : list Flow)
    (maxGasPrice : Z) : M (W:=W) unit :=
  emit (EBatchLiquidateFlows tok flows maxGasPrice) ;;
  try_catch (batchLiquidateFlows_body tok flows maxGasPrice)
    (fun error => emit (EConsoleError error)).

(** [Number(gasPrice)]: the number of a bigint, [0] for [null]. *)
Definition Number_of_gasPrice (gasPrice_ : option Z) : Q :=
  match gasPrice_ with
  | Some g => inject_Z g
  | None => 0%Q
  end.

(** The submission loop of [processAll] over the chunks of one token. *)
Definition submitChunks (tokenAddr : string) (chunks : list (list Flow))
    (currentGasPrice : Q) : M (W:=W) unit :=
  for_of chunks (fun chunk =>
    batchLiquidateFlows tokenAddr chunk
      (Js.Math_floor (currentGasPrice * (12 # 10))%Q)).

(** The body of the loop of [processAll] over the tokens, from the check
    of the current gas price on. *)
Definition processFlowsAtGasPrice (tokenAddr : string)
    (flowsToLiquidate : list Flow) (currentGasPrice : Q) : M (W:=W) unit :=
  if negb (Js.truthy currentGasPrice) then
    throw "Current gas price not found"
  else
    log (LogCurrentGasPrice (currentGasPrice / inject_Z (10 ^ 9))%Q) ;;
    let worth := flowsWorthLiquidating this flowsToLiquidate currentGasPrice in
    log (LogInRange (length worth)) ;;
    let sorted := Js.sort (byMaxGasPriceDesc this) worth in
    log LogSorted ;;
    match _chunkArray sorted (batchSize this) with
    | Some chunks => submitChunks tokenAddr chunks currentGasPrice
    | None => hang
    end.

(** The body of the loop of [processAll] over the tokens. *)
Definition processToken (tokenAddr : string) : M (W:=W) unit :=
  flowsToLiquidate <-
    call (EGetFlowsToLiquidate tokenAddr)
      (getFlowsToLiquidate net tokenAddr (depositConsumedPctThreshold this)
         (_calculateMaxGasPrice this)) ;;
  if (0 <? length flowsToLiquidate)%nat then
    log (LogFound (length flowsToLiquidate)) ;;
    fee <- call EGetFeeData (getFeeData net) ;;
    let currentGasPrice := Number_of_gasPrice fee in
    processFlowsAtGasPrice tokenAddr flowsToLiquidate currentGasPrice
  else
    log (LogNoCritical tokenAddr).

Definition processAll (tok : option string) : M (W:=W) unit :=
  tokenAddrs <-
    match tok with
    | Some t =>
        if Js.truthy_str tok then
          resolved <- call (EResolveAddress t) (resolveAddress net t) ;;
          ret [Js.toLowerCase resolved]
        else _getSuperTokens (isListed this)
    | None => _getSuperTokens (isListed this)
    end ;;
  log (LogProcessing (length tokenAddrs) (isListed this)) ;;
  for_of tokenAddrs processToken.

End Program.

(** ** Auxiliary definitions for the statements *)

(** A flow with another flow rate, another consumed deposit percentage. *)
Definition with_flowrate (flow : Flow) (fr : Z) : Flow :=
  {| agreementType := agreementType flow;
     sender := sender flow;
     receiver := receiver flow;
     token := token flow;
     flowrate := fr;
     consumedDepositPercentage := consumedDepositPercentage flow |}.

Definition with_consumed (flow : Flow) (c : Q) : Flow :=
  {| agreementType := agreementType flow;
     sender := sender flow;
     receiver := receiver flow;
     token := token flow;
     flowrate := flowrate flow;
     consumedDepositPercentage := c |}.

(** An instance with another price table, another batch size. *)
Definition with_prices (this : Graphinator) (prices : gmap string Q) : Graphinator :=
  {| depositConsumedPctThreshold := depositConsumedPctThreshold this;
     batchSize := batchSize this;
     gasMultiplier := gasMultiplier this;
     referenceGasPriceLimit := referenceGasPriceLimit this;
     fallbackGasPriceLimit := fallbackGasPriceLimit this;
     minGasPriceLimit := minGasPriceLimit this;
     isListed := isListed this;
     tokenPrices := prices;
     walletAddress := walletAddress this |}.

Definition with_batchSize (this : Graphinator) (size : Q) : Graphinator :=
  {| depositConsumedPctThreshold := depositConsumedPctThreshold this;
     batchSize := size;
     gasMultiplier := gasMultiplier this;
     referenceGasPriceLimit := referenceGasPriceLimit this;
     fallbackGasPriceLimit := fallbackGasPriceLimit this;
     minGasPriceLimit := minGasPriceLimit this;
     isListed := isListed this;
     tokenPrices := tokenPrices this;
     walletAddress := walletAddress this |}.

(** The base ceiling of a flow of known price [p] in the words of the
    specification:
    max(minGasPriceLimit, round(flowrate * 86400 * price * referenceGasPriceLimit / 10^18)). *)
Definition documentedBaseCeiling (this : Graphinator) (flow : Flow) (p : Q) : Q :=
  Js.Math_max (minGasPriceLimit this)
    (inject_Z (Js.Math_round
       (inject_Z (flowrate flow) * 86400 * p * referenceGasPriceLimit this
        / inject_Z (10 ^ 18))%Q)).

(** Signing and broadcasting calls of a trace. *)
Definition is_submission (ev : Event) : bool :=
  match ev with
  | ESignTransaction _ | EBroadcastTransaction _ => true
  | _ => false
  end.

(** The transaction requests of a trace: signed, or logged by a dry run. *)
Definition tx_of (ev : Event) : option Tx :=
  match ev with
  | ESignTransaction tx => Some tx
  | ELog (LogDryRun tx) => Some tx
  | _ => None
  end.

Definition requests (tr : list Event) : list Tx := omap tx_of tr.

(** The batches that a trace attempted, in order. *)
Definition attempt_of (ev : Event) : option (string * list Flow * Z) :=
  match ev with
  | EBatchLiquidateFlows tok flows gp => Some (tok, flows, gp)
  | _ => None
  end.

Definition attempted (tr : list Event) : list (string * list Flow * Z) :=
  omap attempt_of tr.

(** The tokens whose flows a trace asked for. *)
Definition fetched_of (ev : Event) : option string :=
  match ev with
  | EGetFlowsToLiquidate tok => Some tok
  | _ => None
  end.

Definition fetched (tr : list Event) : list string := omap fetched_of tr.

(** The fee lookups of a trace. *)
Definition is_fee_lookup (ev : Event) : bool :=
  match ev with
  | EGetFeeData => true
  | _ => false
  end.

(** An event that is not a fee lookup and, where it carries a transaction
    request or the arguments of a batch, carries the gas price [gp]. *)
Definition at_price (gp : Z) (ev : Event) : Prop :=
  is_fee_lookup ev = false
  /\ (forall tx, tx_of ev = Some tx -> gasPrice tx = gp)
  /\ (forall a, attempt_of ev = Some a -> snd a = gp).

(** A computation that adds to the trace only events that satisfy [P]. *)
Definition adds_only {W A} (P : Event -> Prop) (m : M (W:=W) A) : Prop :=
  forall s, exists new, snd (snd (m s)) = snd s ++ new /\ Forall P new.

(** A computation that ends, by returning or by throwing. *)
Definition ends {W A} (m : M (W:=W) A) : Prop :=
  forall s, fst (m s) <> Diverges.

(** ** A concrete instance and a concrete world *)

Module Example.

Local Open Scope string_scope.

(** A price table: a token worth two dollars, one worth a millionth of a
    dollar and one listed with the price zero. *)
Definition prices : gmap string Q :=
  {[ "0xaa" := 2%Q; "0xbb" := (1 # 1000000)%Q; "0xzz" := 0%Q ]}.

(** The defaults of the command line (reference 1 gwei, fallback ten
    times and minimum a tenth of it), with batches of two. *)
Definition ghr : Graphinator :=
  {| depositConsumedPctThreshold := 20;
     batchSize := 2;
     gasMultiplier := 12 # 10;
     referenceGasPriceLimit := inject_Z (10 ^ 9);
     fallbackGasPriceLimit := inject_Z (10 ^ 10);
     minGasPriceLimit := inject_Z (10 ^ 8);
     isListed := true;
     tokenPrices := prices;
     walletAddress := "0xwallet" |}.

Definition mkFlow (tok snd_ : string) (fr : Z) (c : Q) : Flow :=
  {| agreementType := 0;
     sender := snd_;
     receiver := "0xreceiver";
     token := tok;
     flowrate := fr;
     consumedDepositPercentage := c |}.

(** A flow of one base unit per second of a token worth a millionth of
    a dollar: its daily value is 0.0864 base units of a dollar. *)
Definition dust : Flow := mkFlow "0xbb" "0xs0" 1 150.

(** Flows of the token ["0xaa"], worth two dollars. *)
Definition flowA1 : Flow := mkFlow "0xaa" "0xs1" 11574074074074 100.
Definition flowA2 : Flow := mkFlow "0xaa" "0xs2" 5787037037037 700.
Definition flowA3 : Flow := mkFlow "0xaa" "0xs3" 23148148148148 200.

(** A flow of a token without a price. *)
Definition flowU : Flow := mkFlow "0xuu" "0xs4" 1000 250.

(** A flow that has been insolvent for more than ten days. *)
Definition flowOld : Flow := mkFlow "0xaa" "0xs6" 11574074074074 7000.

(** A flow of a token listed with the price zero. *)
Definition flowZ : Flow := mkFlow "0xzz" "0xs5" 1000 250.

Definition flowsOf (tokenAddr : string) : list Flow :=
  if String.eqb tokenAddr "0xaa" then [flowA1; flowA2; flowA3]
  else if String.eqb tokenAddr "0xbb" then [dust]
  else [].

(** A world that counts the broadcast transactions; every call returns.
    The fee is [fee]. *)
Definition network (fee : option Z) : Network Z :=
  {| resolveAddress := fun t w => (Returns t, w);
     getSuperTokens := fun _ w => (Returns ["0xAA"; "0xBB"], w);
     getFlowsToLiquidate := fun t _ _ w => (Returns (flowsOf t), w);
     getFeeData := fun w => (Returns fee, w);
     encodeFunctionData := fun _ _ => Returns "0xcalldata";
     getAddress := fun w => (Returns "0xbatchliquidator", w);
     estimateGas := fun _ _ w => (Returns 100000, w);
     getNetwork := fun w => (Returns 8453, w);
     getTransactionCount := fun _ w => (Returns w, w);
     signTransaction := fun _ w => (Returns "0xsigned", w);
     broadcastTransaction := fun _ w => (Returns "0xhash", w + 1);
     wait := fun h w => (Returns (Some h), w) |}.

(** The same world, where every gas estimation fails. *)
Definition flaky (fee : option Z) : Network Z :=
  {| resolveAddress := resolveAddress (network fee);
     getSuperTokens := getSuperTokens (network fee);
     getFlowsToLiquidate := getFlowsToLiquidate (network fee);
     getFeeData := getFeeData (network fee);
     encodeFunctionData := encodeFunctionData (network fee);
     getAddress := getAddress (network fee);
     estimateGas := fun _ _ w => (Throws "execution reverted", w);
     getNetwork := getNetwork (network fee);
     getTransactionCount := getTransactionCount (network fee);
     signTransaction := signTransaction (network fee);
     broadcastTransaction := broadcastTransaction (network fee);
     wait := wait (network fee) |}.

Definition start : Z * list Event := (0, []).

End Example.

(** ** Further auxiliary definitions *)

(** A flow of another token. *)
Definition with_token (flow : Flow) (tok : string) : Flow :=
  {| agreementType := agreementType flow;
     sender := sender flow;
     receiver := receiver flow;
     token := tok;
     flowrate := flowrate flow;
     consumedDepositPercentage := consumedDepositPercentage flow |}.

(** Kinds of calls. *)
Definition is_sign (ev : Event) : bool :=
  match ev with
  | ESignTransaction _ => true
  | _ => false
  end.

Definition is_broadcast (ev : Event) : bool :=
  match ev with
  | EBroadcastTransaction _ => true
  | _ => false
  end.

Definition is_wait (ev : Event) : bool :=
  match ev with
  | EWait _ => true
  | _ => false
  end.

Definition is_token_listing (ev : Event) : bool :=
  match ev with
  | EGetSuperTokens _ => true
  | _ => false
  end.

(** How many events of a trace satisfy [p]. *)
Definition count_of (p : Event -> bool) (tr : list Event) : nat :=
  length (List.filter p tr).

(** A computation that adds to the trace a list of events that satisfies [R]. *)
Definition adds_such {W A} (R : list Event -> Prop) (m : M (W:=W) A) : Prop :=
  forall s, exists new, snd (snd (m s)) = snd s ++ new /\ R new.

(** No more broadcasts than signatures, no more signatures than batches. *)
Definition submissions_bounded (new : list Event) : Prop :=
  (count_of is_wait new <= count_of is_broadcast new)%nat
  /\ (count_of is_broadcast new <= count_of is_sign new)%nat
  /\ (count_of is_sign new <= length (attempted new))%nat.

(** An event that names a token names it in lower case. *)
Definition names_lower_case (ev : Event) : Prop :=
  (forall tok, fetched_of ev = Some tok -> Js.toLowerCase tok = tok)
  /\ (forall a, attempt_of ev = Some a -> Js.toLowerCase (fst (fst a)) = fst (fst a)).

(** ** Worlds with faults *)

Module Faults.

Local Open Scope string_scope.

(** The world of the example with a flow source that is down. *)
Definition noFlowSource : Network Z :=
  {| resolveAddress := resolveAddress (Example.network (Some 1000000001));
     getSuperTokens := getSuperTokens (Example.network (Some 1000000001));
     getFlowsToLiquidate := fun _ _ _ w => (Throws "subgraph unavailable", w);
     getFeeData := getFeeData (Example.network (Some 1000000001));
     encodeFunctionData := encodeFunctionData (Example.network (Some 1000000001));
     getAddress := getAddress (Example.network (Some 1000000001));
     estimateGas := estimateGas (Example.network (Some 1000000001));
     getNetwork := getNetwork (Example.network (Some 1000000001));
     getTransactionCount := getTransactionCount (Example.network (Some 1000000001));
     signTransaction := signTransaction (Example.network (Some 1000000001));
     broadcastTransaction := broadcastTransaction (Example.network (Some 1000000001));
     wait := wait (Example.network (Some 1000000001)) |}.

(** The world of the example with a fee lookup that fails. *)
Definition noFeeData : Network Z :=
  {| resolveAddress := resolveAddress (Example.network None);
     getSuperTokens := getSuperTokens (Example.network None);
     getFlowsToLiquidate := getFlowsToLiquidate (Example.network None);
     getFeeData := fun w => (Throws "rpc unavailable", w);
     encodeFunctionData := encodeFunctionData (Example.network None);
     getAddress := getAddress (Example.network None);
     estimateGas := estimateGas (Example.network None);
     getNetwork := getNetwork (Example.network None);
     getTransactionCount := getTransactionCount (Example.network None);
     signTransaction := signTransaction (Example.network None);
     broadcastTransaction := broadcastTransaction (Example.network None);
     wait := wait (Example.network None) |}.

(** The world of the example where no token has a flow to liquidate. *)
Definition quiet : Network Z :=
  {| resolveAddress := resolveAddress (Example.network None);
     getSuperTokens := getSuperTokens (Example.network None);
     getFlowsToLiquidate := fun _ _ _ w => (Returns [], w);
     getFeeData := getFeeData (Example.network None);
     encodeFunctionData := encodeFunctionData (Example.network None);
     getAddress := getAddress (Example.network None);
     estimateGas := estimateGas (Example.network None);
     getNetwork := getNetwork (Example.network None);
     getTransactionCount := getTransactionCount (Example.network None);
     signTransaction := signTransaction (Example.network None);
     broadcastTransaction := broadcastTransaction (Example.network None);
     wait := wait (Example.network None) |}.

End Faults.

(** ** Construction: the constructor of the class and the limits of the
    command line *)

(** [network.contractsV1] of the metadata, as far as the constructor reads it. *)
Record ContractsV1 := {
  gdaV1Forwarder : option string;
  batchLiquidator : option string
}.

(** What the constructor takes from outside its arguments. *)
Record Environment := {
  (** [sfMeta.getNetworkByName(networkName)], its [contractsV1] *)
  getNetworkByName : string -> option ContractsV1;
  (** [process.env.PRIVATE_KEY] *)
  PRIVATE_KEY : option string;
  (** [import.meta.env.DEPOSIT_CONSUMED_PCT_THRESHOLD] *)
  DEPOSIT_CONSUMED_PCT_THRESHOLD : option string;
  (** [Number(s)] of a string *)
  Number_of_string : string -> Q;
  (** the content of [data/token_prices.json] *)
  tokenPricesAllNetworks : gmap string (gmap string Q);
  (** [new ethers.Wallet(privateKey, provider)], the address of the wallet *)
  newWallet : string -> result string;
  (** [new ethers.Contract(address, abi, wallet)] *)
  newContract : option string -> result unit
}.

(** The constructor of [Graphinator]; the lines it logs are left out. *)
Definition constructor (env : Environment) (networkName : string)
    (batchSize_ gasMultiplier_ referenceGasPriceLimit_ fallbackGasPriceLimit_
       minGasPriceLimit_ : Q) (isListed_ : bool) : result Graphinator :=
  if Js.gt minGasPriceLimit_ fallbackGasPriceLimit_
     || Js.gt minGasPriceLimit_ referenceGasPriceLimit_ then
    Throws "minGasPriceLimit must be less than fallbackGasPriceLimit and less than referenceGasPriceLimit"
  else
    match getNetworkByName env networkName with
    | None =>
        Throws ("network " ++ networkName
                ++ " unknown - not in metadata. If the name is correct, you may need to update.")
    | Some contractsV1 =>
        match PRIVATE_KEY env with
        | None => Throws "No private key provided"
        | Some privateKey =>
            if negb (Js.truthy_str (Some privateKey)) then
              Throws "No private key provided"
            else
              match newWallet env privateKey with
              | Throws e => Throws e
              | Returns address =>
                  if negb (Js.truthy_str (gdaV1Forwarder contractsV1)) then
                    Throws "GDA Forwarder contract address not found in metadata"
                  else
                    match newContract env (gdaV1Forwarder contractsV1) with
                    | Throws e => Throws e
                    | Returns _ =>
                        if negb (Js.truthy_str (gdaV1Forwarder contractsV1)) then
                          Throws "Batch Liquidator contract address not found in metadata"
                        else
                          match newContract env (batchLiquidator contractsV1) with
                          | Throws e => Throws e
                          | Returns _ =>
                              Returns
                                {| depositConsumedPctThreshold :=
                                     match DEPOSIT_CONSUMED_PCT_THRESHOLD env with
                                     | Some t =>
                                         if Js.truthy_str (Some t) then
                                           Number_of_string env t
                                         else 20%Q
                                     | None => 20%Q
                                     end;
                                   batchSize := batchSize_;
                                   gasMultiplier := gasMultiplier_;
                                   referenceGasPriceLimit := referenceGasPriceLimit_;
                                   fallbackGasPriceLimit := fallbackGasPriceLimit_;
                                   minGasPriceLimit := minGasPriceLimit_;
                                   isListed := isListed_;
                                   tokenPrices :=
                                     default ∅ (tokenPricesAllNetworks env !! networkName);
                                   walletAddress := address |}
                          end
                    end
              end
        end
    end.

(** The three limits as the command line computes them from its options in
    mwei: [(reference, fallback, minimum)]; an option that is absent is
    [None]. *)
Definition limitsOfOptions (referenceGasPriceLimitMwei : Q)
    (fallbackGasPriceLimitMwei minGasPriceLimitMwei : option Q) : Q * Q * Q :=
  let referenceGasPriceLimit_ := (referenceGasPriceLimitMwei * 1000000)%Q in
  let fallbackGasPriceLimit_ :=
    match fallbackGasPriceLimitMwei with
    | Some f =>
        if Js.truthy f then (f * 1000000)%Q else (referenceGasPriceLimit_ * 10)%Q
    | None => (referenceGasPriceLimit_ * 10)%Q
    end in
  let minGasPriceLimit_ :=
    match minGasPriceLimitMwei with
    | Some m =>
        if Js.truthy m then (m * 1000000)%Q
        else (referenceGasPriceLimit_ * (1 # 10))%Q
    | None => (referenceGasPriceLimit_ * (1 # 10))%Q
    end in
  (referenceGasPriceLimit_, fallbackGasPriceLimit_, minGasPriceLimit_).

(** The message of the check of the limits. *)
Definition limitsMessage : string :=
  "minGasPriceLimit must be less than fallbackGasPriceLimit and less than referenceGasPriceLimit".

(** An environment with one network whose metadata lack the address of
    the batch liquidator, and constructors of ethers that accept anything. *)
Module Setup.

Local Open Scope string_scope.

Definition env : Environment :=
  {| getNetworkByName := fun name =>
       if String.eqb name "base-mainnet" then
         Some {| gdaV1Forwarder := Some "0xforwarder"; batchLiquidator := None |}
       else None;
     PRIVATE_KEY := Some "0xkey";
     DEPOSIT_CONSUMED_PCT_THRESHOLD := None;
     Number_of_string := fun _ => 0%Q;
     tokenPricesAllNetworks := {[ "base-mainnet" := Example.prices ]};
     newWallet := fun _ => Returns "0xwallet";
     newContract := fun _ => Returns tt |}.

End Setup.

(** ** The price table: [utils/update-token-prices.js]

    The script that writes [data/token_prices.json].  Its requests are
    functions on a world [U] that return or throw; it runs in the monad of
    the program with an empty trace (the lines it logs are left out).  The
    result of [run] is the table it writes, or nothing when it writes no
    file. *)

Module TokenPrices.

(** An entry of [networks.json], as far as the script reads it. *)
Record NetworkInfo := {
  name : string;
  isTestnet : bool;
  coinGeckoId : option string;
  nativeTokenWrapper : option string;
  nativeTokenSymbol : option string
}.

(** A token of the subgraph. *)
Record TokenInfo := {
  id : string;
  underlyingAddress : string;
  symbol : string
}.

(** A coin of the search of the price index. *)
Record Coin := {
  coin_id : string;
  coin_symbol : string;
  market_cap_rank : option Q
}.

(** The table: network name, token address, price. *)
Abbreviation Table := (gmap string (gmap string Q)).

(** The services the script asks. *)
Record Services (U : Type) := {
  (** the [networks.json] of the metadata *)
  networks_json : U -> result (list NetworkInfo) * U;
  (** [/coins/list]; the script does not use the answer *)
  coins_list : U -> result unit * U;
  (** the listed super tokens of the subgraph of a network *)
  subgraph_tokens : NetworkInfo -> U -> result (list TokenInfo) * U;
  (** [/search?query=symbol], [response.data.coins] *)
  search : string -> U -> result (list Coin) * U;
  (** [/simple/price] of a coin, [response.data[coinId]?.usd] *)
  simple_price : string -> U -> result (option Q) * U;
  (** [/simple/token_price/platform] of addresses, [response.data] with the
      [usd] of each entry *)
  simple_token_price : string -> list string -> U -> result (gmap string (option Q)) * U
}.
Arguments networks_json {U}.
Arguments coins_list {U}.
Arguments subgraph_tokens {U}.
Arguments search {U}.
Arguments simple_price {U}.
Arguments simple_token_price {U}.

Definition zeroAddress : string := "0x0000000000000000000000000000000000000000".

Section Script.

Context {U : Type}.
Variable cg : Services U.

Local Open Scope prog_scope.

(** A request: the answer of a service, without a trace. *)
Definition ask {A} (f : U -> result A * U) : M (W:=U) A :=
  fun s =>
    match f (fst s) with
    | (Returns a, u') => (Done a, (u', snd s))
    | (Throws e, u') => (Raised e, (u', snd s))
    end.

(** [try { body } catch (error) { handler error }] with a result. *)
Definition try_catch_val {A} (body : M (W:=U) A) (handler : string -> M A) : M A :=
  fun s =>
    match body s with
    | (Raised e, s') => handler e s'
    | r => r
    end.

(** [list.reduce(async (promise, x) => { await promise; ... }, Promise.resolve())]
    over a table that the callbacks update in turn. *)
Fixpoint reduce {A} (l : list A) (f : Table -> A -> M (W:=U) Table) (table : Table)
    : M (W:=U) Table :=
  match l with
  | [] => ret table
  | x :: r => table' <- f table x ;; reduce r f table'
  end.

Definition fetchListedSuperTokens (network : NetworkInfo) : M (W:=U) (list TokenInfo) :=
  try_catch_val (ask (subgraph_tokens cg network))
    (fun error =>
       throw ("Error fetching tokens for " ++ name network ++ ": " ++ error)).

Definition fetchCoingeckoPlatformTokenPrices (platform : string)
    (addresses : list string) : M (W:=U) (gmap string (option Q)) :=
  try_catch_val (ask (simple_token_price cg platform addresses))
    (fun _ => ret ∅).

Definition fetchNativeTokenId (symbol_ : string) : M (W:=U) (option string) :=
  let symbol_ :=
    if String.eqb symbol_ "xDAI" then "DAI"%string
    else if String.eqb symbol_ "MATIC" then "POL"%string
    else symbol_ in
  try_catch_val
    (coins <- ask (search cg symbol_) ;;
     let coin :=
       List.find
         (fun c =>
            String.eqb (Js.toLowerCase (coin_symbol c)) (Js.toLowerCase symbol_)
            && match market_cap_rank c with
               | Some rank => Js.truthy rank
               | None => false
               end)
         coins in
     ret (option_map coin_id coin))
    (fun _ => ret None).

Definition fetchNativeCoinPrice (coinId : string) : M (W:=U) (option Q) :=
  try_catch_val (ask (simple_price cg coinId)) (fun _ => ret None).

(** [tokenPrices[networkName][key] = price] *)
Definition setPrice (networkName key : string) (price : Q) (table : Table) : Table :=
  <[networkName := <[key := price]> (default ∅ (table !! networkName))]> table.

(** [if (price) tokenPrices[networkName][key] = price] for the [usd] of an
    answer that may lack it. *)
Definition setPriceIfAny (networkName key : string) (price : option Q)
    (table : Table) : Table :=
  match price with
  | Some p => if Js.truthy p then setPrice networkName key p table else table
  | None => table
  end.

(** Step 1 of a network: the wrapper of the native token. *)
Definition nativeStep (network : NetworkInfo) (table : Table) : M (W:=U) Table :=
  match nativeTokenWrapper network, nativeTokenSymbol network with
  | Some wrapper, Some symbol_ =>
      if Js.truthy_str (Some wrapper) && Js.truthy_str (Some symbol_) then
        nativeTokenId <- fetchNativeTokenId symbol_ ;;
        match nativeTokenId with
        | Some coinId =>
            if Js.truthy_str (Some coinId) then
              price <- fetchNativeCoinPrice coinId ;;
              ret (setPriceIfAny (name network) wrapper price table)
            else ret table
        | None => ret table
        end
      else ret table
  | _, _ => ret table
  end.

(** Steps 2 and 3 of a network: the tokens of a category, priced by the
    address that [key] gives. *)
Definition categoryStep (network : NetworkInfo) (platform : string)
    (tokens : list TokenInfo) (key : TokenInfo -> string) (table : Table)
    : M (W:=U) Table :=
  if (0 <? length tokens)%nat then
    prices <- fetchCoingeckoPlatformTokenPrices platform (map key tokens) ;;
    ret (fold_left
           (fun table token =>
              setPriceIfAny (name network) (id token)
                (mjoin (prices !! Js.toLowerCase (key token))) table)
           tokens table)
  else ret table.

Definition pureSuperTokens (tokens : list TokenInfo) : list TokenInfo :=
  List.filter (fun token => String.eqb (underlyingAddress token) zeroAddress) tokens.

Definition wrapperSuperTokens (network : NetworkInfo) (tokens : list TokenInfo)
    : list TokenInfo :=
  List.filter
    (fun token =>
       negb (String.eqb (underlyingAddress token) zeroAddress)
       && match nativeTokenWrapper network with
          | Some wrapper =>
              negb (String.eqb (Js.toLowerCase (id token)) (Js.toLowerCase wrapper))
          | None => true
          end)
    tokens.

(** The callback of the reduction over the networks. *)
Definition processNetwork (table : Table) (network : NetworkInfo) : M (W:=U) Table :=
  match coinGeckoId network with
  | Some platform =>
      if Js.truthy_str (Some platform) then
        tokens <- fetchListedSuperTokens network ;;
        let table := <[name network := ∅]> table in
        table <- nativeStep network table ;;
        table <- categoryStep network platform (pureSuperTokens tokens) id table ;;
        categoryStep network platform (wrapperSuperTokens network tokens)
          underlyingAddress table
      else ret table
  | None => ret table
  end.

(** [run]: the table that is written, or nothing after an error. *)
Definition run : M (W:=U) (option Table) :=
  try_catch_val
    (networks <- ask (networks_json cg) ;;
     let filtered_networks := List.filter (fun network => negb (isTestnet network)) networks in
     _ <- ask (coins_list cg) ;;
     table <- reduce filtered_networks processNetwork ∅ ;;
     ret (Some table))
    (fun _ => ret None).

End Script.

(** A network that the script prices. *)
Definition eligible (network : NetworkInfo) : bool :=
  negb (isTestnet network) && Js.truthy_str (coinGeckoId network).

(** No price of the table is zero. *)
Definition all_prices_truthy (table : Table) : Prop :=
  forall networkName prices key p,
    table !! networkName = Some prices -> prices !! key = Some p ->
    Js.truthy p = true.

(** Every network of the table is one of [networks]. *)
Definition only_networks (networks : list NetworkInfo) (table : Table) : Prop :=
  forall networkName,
    is_Some (table !! networkName) ->
    exists network, In network networks /\ name network = networkName.

(** A world of two networks, a main net with one token of each category
    and a test net; the price index knows the native coin and the pure
    token, and answers zero for the wrapped one. *)
Module Sample.

Local Open Scope string_scope.

Definition main : NetworkInfo :=
  {| name := "base-mainnet"; isTestnet := false; coinGeckoId := Some "base";
     nativeTokenWrapper := Some "0xEEee"; nativeTokenSymbol := Some "ETH" |}.

Definition test : NetworkInfo :=
  {| name := "base-sepolia"; isTestnet := true; coinGeckoId := Some "base";
     nativeTokenWrapper := Some "0xEEee"; nativeTokenSymbol := Some "ETH" |}.

Definition tokens : list TokenInfo :=
  [ {| id := "0xeeee"; underlyingAddress := "0x0"; symbol := "ETHx" |};
    {| id := "0xaa"; underlyingAddress := zeroAddress; symbol := "AA" |};
    {| id := "0xbb"; underlyingAddress := "0xB0"; symbol := "BBx" |} ].

Definition services : Services unit :=
  {| networks_json := fun u => (Returns [main; test], u);
     coins_list := fun u => (Returns tt, u);
     subgraph_tokens := fun _ u => (Returns tokens, u);
     search := fun _ u =>
       (Returns [ {| coin_id := "ethereum"; coin_symbol := "eth";
                     market_cap_rank := Some 2%Q |} ], u);
     simple_price := fun _ u => (Returns (Some 3000%Q), u);
     simple_token_price := fun _ _ u =>
       (Returns {[ "0xaa" := Some 2%Q; "0xb0" := Some 0%Q ]}, u) |}.

(** The table that the script writes in this world. *)
Definition written : Table :=
  {[ "base-mainnet" := {[ "0xEEee" := 3000%Q; "0xaa" := 2%Q ]} ]}.

(** The same services with a subgraph that is down. *)
Definition subgraphDown : Services unit :=
  {| networks_json := networks_json services;
     coins_list := coins_list services;
     subgraph_tokens := fun _ u => (Throws "timeout", u);
     search := search services;
     simple_price := simple_price services;
     simple_token_price := simple_token_price services |}.

End Sample.

End TokenPrices.

(** ** The ceiling in binary64

    [_calculateMaxGasPrice] once more, on the numbers of the program
    itself: IEEE 754 binary64, every operation rounded to nearest, ties to
    even, with [NaN], infinities and signed zeros.  [flowrate] remains a
    [bigint]. *)

Module Binary64.

Import Floats.PrimFloat Floats.SpecFloat Floats.FloatOps.
Local Open Scope float_scope.

Record Flow := {
  token : string;
  flowrate : Z;
  consumedDepositPercentage : float
}.

Record Graphinator := {
  referenceGasPriceLimit : float;
  fallbackGasPriceLimit : float;
  minGasPriceLimit : float;
  tokenPrices : gmap string float
}.

(** A number in a condition: [NaN], [0] and [-0] are falsy. *)
Definition truthy (x : float) : bool := negb (is_nan x || (x =? 0)).

(** [Number(b)] of a [bigint]: the nearest binary64 number. *)
Definition Number (b : Z) : float := SF2Prim (binary_normalize prec emax b 0 false).

(** [Math.min] and [Math.max] of two numbers: [NaN] when one of them is,
    and [-0] below [0]. *)
Definition Math_min (a b : float) : float :=
  if is_nan a || is_nan b then nan
  else if a <? b then a
  else if b <? a then b
  else if is_zero a && get_sign a then a else b.

Definition Math_max (a b : float) : float :=
  if is_nan a || is_nan b then nan
  else if a <? b then b
  else if b <? a then a
  else if is_zero a && get_sign a then b else a.

(** [Math.round]: the nearest integer, ties going up; [-0] for a number
    from [-0.5] to [-0].  A number with no fractional part, an infinity and
    [NaN] are returned as they are. *)
Definition Math_round (x : float) : float :=
  match Prim2SF x with
  | S754_finite s m e =>
      if (0 <=? e)%Z then x
      else
        let v := if s then Z.neg m else Z.pos m in
        let z := ((v + 2 ^ (- e - 1)) / 2 ^ (- e))%Z in
        if (z =? 0)%Z then (if s then neg_zero else zero)
        else Number z
  | _ => x
  end.

Definition refDailyNFR : float := 1e18.

Definition dailyNFR (tokenPrice : option float) (flowrate : float) : option float :=
  match tokenPrice with
  | Some p => if truthy p then Some (Math_round (flowrate * 86400 * p)) else None
  | None => None
  end.

Definition baseMaxGasPrice (this : Graphinator) (flow : Flow) : float :=
  let tokenPrice := tokenPrices this !! token flow in
  let flowrate := Number (flowrate flow) in
  match dailyNFR tokenPrice flowrate with
  | Some d =>
      if truthy d then
        Math_max (minGasPriceLimit this)
          (Math_round (d * referenceGasPriceLimit this / refDailyNFR))
      else fallbackGasPriceLimit this
  | None => fallbackGasPriceLimit this
  end.

(** [let timeMultiplier = 1; if (c && c > 100) { ... }] *)
Definition timeMultiplier (consumedDepositPercentage : float) : float :=
  if truthy consumedDepositPercentage && (100 <? consumedDepositPercentage) then
    let hoursSinceInsolvent := (consumedDepositPercentage - 100) * 4 / 100 in
    let daysSinceInsolvent := hoursSinceInsolvent / 24 in
    1 + Math_min daysSinceInsolvent 10
  else 1.

Definition _calculateMaxGasPrice (this : Graphinator) (flow : Flow) : float :=
  Math_round (baseMaxGasPrice this flow * timeMultiplier (consumedDepositPercentage flow)).

(** The multiplier as the specification words it, with one division by
    [100 * 24]. *)
Definition documentedMultiplier (consumedDepositPercentage : float) : float :=
  if 100 <? consumedDepositPercentage then
    1 + Math_min ((consumedDepositPercentage - 100) * 4 / (100 * 24)) 10
  else 1.

(** An instance without prices, and a flow of a given consumed deposit. *)
Definition unpriced (fallback : float) : Graphinator :=
  {| referenceGasPriceLimit := 1e9;
     fallbackGasPriceLimit := fallback;
     minGasPriceLimit := 1e8;
     tokenPrices := ∅ |}.

Definition flowAt (c : float) : Flow :=
  {| token := "0xuu"; flowrate := 1000; consumedDepositPercentage := c |}.

(** The value of a mantissa and an exponent. *)
Definition val (m e : Z) : Q := (inject_Z m * 2 ^ e)%Q.

(** A specified number that is positive infinity, or finite and not below
    the representable [my * 2 ^ ey]. *)
Definition at_least (r : spec_float) (my : positive) (ey : Z) : Prop :=
  match r with
  | S754_infinity false => True
  | S754_finite false m e => (val (Z.pos my) ey <= val (Z.pos m) e)%Q
  | _ => False
  end.

(** A number that is the positive integer [n]. *)
Definition is_int (k : float) (n : Z) : Prop :=
  exists (m : positive) (e : Z),
    Prim2SF k = S754_finite false m e /\ (val (Z.pos m) e == inject_Z n)%Q.

(** A number that is positive infinity, or finite and not below the
    integer [n]. *)
Definition above (x : float) (n : Z) : Prop :=
  match Prim2SF x with
  | S754_infinity false => True
  | S754_finite false m e => (inject_Z n <= val (Z.pos m) e)%Q
  | _ => False
  end.

End Binary64.

(** * Properties *)

(** ** Comparisons and truthiness of numbers *)

Lemma truthy_false_iff (q : Q) : Js.truthy q = false <-> (q == 0)%Q.
Proof.
  unfold Js.truthy. rewrite negb_false_iff. apply Qeq_bool_iff.
Qed.

Lemma truthy_true_iff (q : Q) : Js.truthy q = true <-> ~ (q == 0)%Q.
Proof.
  unfold Js.truthy. rewrite negb_true_iff, <- not_true_iff_false.
  now rewrite Qeq_bool_iff.
Qed.

Lemma gt_true_iff (x y : Q) : Js.gt x y = true <-> (y < x)%Q.
Proof.
  unfold Js.gt. rewrite negb_true_iff, <- not_true_iff_false, Qle_bool_iff.
  split; [apply Qnot_le_lt | apply Qlt_not_le].
Qed.

Lemma gt_false_iff (x y : Q) : Js.gt x y = false <-> (x <= y)%Q.
Proof.
  unfold Js.gt. rewrite negb_false_iff. apply Qle_bool_iff.
Qed.

Lemma Math_round_comp (x y : Q) : (x == y)%Q -> Js.Math_round x = Js.Math_round y.
Proof. intros E. unfold Js.Math_round. now rewrite E. Qed.

Lemma Math_round_mono (x y : Q) : (x <= y)%Q -> Js.Math_round x <= Js.Math_round y.
Proof.
  intros H. unfold Js.Math_round. apply Qfloor_resp_le. lra.
Qed.

(** ** The time-based multiplier *)

Lemma timeMultiplier_low flow :
  (consumedDepositPercentage flow <= 100)%Q -> timeMultiplier flow = 1%Q.
Proof.
  intros H. unfold timeMultiplier.
  apply gt_false_iff in H. rewrite H. now rewrite andb_false_r.
Qed.

Lemma timeMultiplier_high flow :
  (100 < consumedDepositPercentage flow)%Q ->
  timeMultiplier flow =
    (1 + Js.Math_min ((consumedDepositPercentage flow - 100) * 4 / 100 / 24) 10)%Q.
Proof.
  intros H. unfold timeMultiplier.
  assert (Ht : Js.truthy (consumedDepositPercentage flow) = true).
  { apply truthy_true_iff. intros E. rewrite E in H. discriminate H. }
  apply gt_true_iff in H. now rewrite Ht, H.
Qed.

Lemma days_since_insolvent (c : Q) :
  ((c - 100) * 4 / 100 / 24 == (c - 100) * (1 # 600))%Q.
Proof. field. Qed.

Lemma timeMultiplier_ge_1 flow : (1 <= timeMultiplier flow)%Q.
Proof.
  destruct (Qlt_le_dec 100 (consumedDepositPercentage flow)) as [H | H].
  - rewrite (timeMultiplier_high _ H). unfold Js.Math_min.
    destruct (Q.min_spec ((consumedDepositPercentage flow - 100) * 4 / 100 / 24) 10)
      as [[_ E] | [_ E]]; rewrite E; [rewrite days_since_insolvent|]; lra.
  - rewrite (timeMultiplier_low _ H). lra.
Qed.

(** In the exact arithmetic of the rational model the two divisions of the
    code are one division by 100 * 24.  (Not so in binary64, where each
    division rounds: see the multiplier in binary64 below.) *)
Lemma timeMultiplier_exact_arithmetic (flow : Flow) :
  let c := consumedDepositPercentage flow in
  ((c <= 100)%Q -> (timeMultiplier flow == 1)%Q) /\
  ((100 < c)%Q ->
     (timeMultiplier flow == 1 + Qmin ((c - 100) * 4 / (100 * 24)) 10)%Q) /\
  ((c == 200)%Q -> (timeMultiplier flow == 1 + 4 / 24)%Q) /\
  ((6100 <= c)%Q -> (timeMultiplier flow == 11)%Q).
Proof.
  cbv zeta. repeat split.
  - intros H. now rewrite (timeMultiplier_low _ H).
  - intros H. rewrite (timeMultiplier_high _ H). unfold Js.Math_min.
    assert (E : ((consumedDepositPercentage flow - 100) * 4 / 100 / 24
                 == (consumedDepositPercentage flow - 100) * 4 / (100 * 24))%Q)
      by field.
    now rewrite E.
  - intros H.
    assert (H' : (100 < consumedDepositPercentage flow)%Q) by (rewrite H; reflexivity).
    rewrite (timeMultiplier_high _ H'). unfold Js.Math_min. rewrite H.
    reflexivity.
  - intros H.
    assert (H' : (100 < consumedDepositPercentage flow)%Q) by lra.
    rewrite (timeMultiplier_high _ H'). unfold Js.Math_min.
    rewrite Q.min_r; [reflexivity|].
    rewrite days_since_insolvent. lra.
Qed.

(** ** The multiplier in binary64 *)

Section Binary64Facts.

Import Qpower.
Import Floats.PrimFloat Floats.SpecFloat Floats.FloatOps Floats.FloatAxioms.
Import Binary64.
Local Open Scope Q_scope.

(** Powers of two, digits and values *)

Lemma digits2_pos_bounds (m : positive) :
  (2 ^ (Z.pos (digits2_pos m) - 1) <= Z.pos m < 2 ^ Z.pos (digits2_pos m))%Z.
Proof.
  induction m as [p IH | p IH |]; simpl digits2_pos.
  - rewrite Pos2Z.inj_succ.
    replace (Z.succ (Z.pos (digits2_pos p)) - 1)%Z with (Z.succ (Z.pos (digits2_pos p) - 1))%Z by lia.
    rewrite !Z.pow_succ_r by lia. lia.
  - rewrite Pos2Z.inj_succ.
    replace (Z.succ (Z.pos (digits2_pos p)) - 1)%Z with (Z.succ (Z.pos (digits2_pos p) - 1))%Z by lia.
    rewrite !Z.pow_succ_r by lia. lia.
  - simpl. lia.
Qed.

Lemma Qpow2_pos (e : Z) : 0 < 2 ^ e.
Proof. apply Qpower_0_lt. reflexivity. Qed.

Lemma val_grid (m e g : Z) :
  (g <= e)%Z -> val m e == inject_Z (m * 2 ^ (e - g)) * 2 ^ g.
Proof.
  intros H. unfold val.
  replace e with ((e - g) + g)%Z at 1 by lia.
  rewrite Qpower_plus by discriminate.
  rewrite inject_Z_mult, Zpower_Qpower by lia.
  change (inject_Z 2) with 2. ring.
Qed.

Lemma val_le_grid (m1 e1 m2 e2 g : Z) :
  (g <= e1)%Z -> (g <= e2)%Z ->
  (val m1 e1 <= val m2 e2 <-> (m1 * 2 ^ (e1 - g) <= m2 * 2 ^ (e2 - g))%Z).
Proof.
  intros H1 H2. rewrite (val_grid m1 e1 g H1), (val_grid m2 e2 g H2).
  pose proof (Qpow2_pos g) as Hp. rewrite Zle_Qle. split; intros H.
  - apply Qmult_le_r in H; assumption.
  - apply Qmult_le_r; assumption.
Qed.

Lemma val_lt_grid (m1 e1 m2 e2 g : Z) :
  (g <= e1)%Z -> (g <= e2)%Z ->
  (val m1 e1 < val m2 e2 <-> (m1 * 2 ^ (e1 - g) < m2 * 2 ^ (e2 - g))%Z).
Proof.
  intros H1 H2. rewrite (val_grid m1 e1 g H1), (val_grid m2 e2 g H2).
  pose proof (Qpow2_pos g) as Hp. rewrite Zlt_Qlt. split; intros H.
  - apply Qmult_lt_r in H; assumption.
  - apply Qmult_lt_r; assumption.
Qed.


(** Shifting right *)

Lemma shr_1_m (r : shr_record) :
  (0 <= shr_m r)%Z -> shr_m (shr_1 r) = (shr_m r / 2)%Z.
Proof.
  intros H. rewrite <- Z.div2_div.
  destruct r as [m r s]. simpl in H.
  destruct m as [|[p|p|]|p]; try reflexivity. lia.
Qed.

Lemma iter_shr_1_m (p : positive) :
  forall r : shr_record,
    (0 <= shr_m r)%Z ->
    shr_m (iter_pos shr_1 p r) = (shr_m r / 2 ^ Z.pos p)%Z.
Proof.
  assert (Hnn : forall a b, (0 <= a -> 0 < b -> 0 <= a / b)%Z)
    by (intros; apply Z.div_pos; lia).
  induction p as [p IH | p IH |]; intros r Hr; simpl iter_pos.
  - rewrite IH, IH, shr_1_m by (rewrite ?IH, ?shr_1_m by (rewrite ?shr_1_m; auto with zarith); auto with zarith).
    rewrite !Z.div_div by (try apply Z.pow_pos_nonneg; lia).
    f_equal. rewrite <- Z.pow_add_r, <- Z.pow_succ_r by lia.
    f_equal. lia.
  - rewrite IH, IH by (rewrite ?IH by auto; auto with zarith).
    rewrite !Z.div_div by (try apply Z.pow_pos_nonneg; lia).
    f_equal. rewrite <- !Z.pow_add_r by lia. f_equal. lia.
  - now rewrite shr_1_m.
Qed.

Lemma shr_record_of_loc_m (m : Z) (l : location) : shr_m (shr_record_of_loc m l) = m.
Proof. destruct l as [|[]]; reflexivity. Qed.

Lemma canonical_bounds (m : positive) (e : Z) :
  bounded prec emax m e = true ->
  (-1074 <= e <= 971)%Z
  /\ (Z.pos m < 2 ^ 53)%Z
  /\ ((-1074 < e)%Z -> (2 ^ 52 <= Z.pos m)%Z).
Proof.
  unfold bounded, canonical_mantissa, fexp, SpecFloat.emin, prec, emax.
  intros H. apply andb_true_iff in H as [H1 H2].
  apply Z.eqb_eq in H1. apply Z.leb_le in H2.
  pose proof (digits2_pos_bounds m) as [Hl Hu].
  set (d := Z.pos (digits2_pos m)) in *.
  assert (Hd : (0 < d)%Z) by (unfold d; lia).
  split; [lia|]. split.
  - apply Z.lt_le_trans with (1 := Hu). apply Z.pow_le_mono_r; lia.
  - intros He. assert (d = 53)%Z by lia. subst d. rewrite H in Hl. exact Hl.
Qed.

Lemma shr_fexp_ge (my : positive) (ey : Z) (m : positive) (e : Z) (l : location) :
  bounded prec emax my ey = true ->
  val (Z.pos my) ey <= val (Z.pos m) e ->
  val (Z.pos my) ey
  <= val (shr_m (fst (shr_fexp prec emax (Z.pos m) e l)))
         (snd (shr_fexp prec emax (Z.pos m) e l)).
Proof.
  intros Hy H. destruct (canonical_bounds my ey Hy) as (Hey & Hmy & _).
  unfold shr_fexp, shr.
  pose proof (digits2_pos_bounds m) as [Hl Hu].
  unfold fexp, SpecFloat.emin, prec, emax. simpl Zdigits2.
  set (d := Z.pos (digits2_pos m)) in *.
  assert (Hd : (0 < d)%Z) by (unfold d; lia).
  destruct (Z.max (d + e - 53) (3 - 1024 - 53) - e)%Z as [|p|p] eqn:En;
    cbn [fst snd]; rewrite ?shr_record_of_loc_m; try exact H.
  rewrite iter_shr_1_m, shr_record_of_loc_m by (rewrite shr_record_of_loc_m; lia).
  assert (Hp : (0 < 2 ^ Z.pos p)%Z) by (apply Z.pow_pos_nonneg; lia).
  destruct (Z.le_gt_cases (e + Z.pos p) ey) as [Hg | Hg].
  - apply (val_le_grid _ _ _ _ e) in H; [|lia|lia].
    rewrite Z.sub_diag, Z.mul_1_r in H.
    apply (val_le_grid _ _ _ _ (e + Z.pos p)); [lia|lia|].
    rewrite Z.sub_diag, Z.mul_1_r.
    apply Z.div_le_lower_bound; [exact Hp|].
    replace (ey - e)%Z with (Z.pos p + (ey - (e + Z.pos p)))%Z in H by lia.
    rewrite Z.pow_add_r in H by lia. lia.
  - apply (val_le_grid _ _ _ _ ey); [lia|lia|].
    rewrite Z.sub_diag, Z.mul_1_r.
    assert (Hpd : Z.pos p = (d - 53)%Z) by lia.
    assert (H52 : (2 ^ 52 <= Z.pos m / 2 ^ Z.pos p)%Z).
    { apply Z.div_le_lower_bound; [exact Hp|].
      rewrite <- Z.pow_add_r by lia.
      replace (Z.pos p + 52)%Z with (d - 1)%Z by lia. exact Hl. }
    assert (H2 : (2 ^ 1 <= 2 ^ (e + Z.pos p - ey))%Z)
      by (apply Z.pow_le_mono_r; lia).
    change (2 ^ 1)%Z with 2%Z in H2.
    change (2 ^ 53)%Z with (2 ^ 52 * 2)%Z in Hmy.
    nia.
Qed.


(** Rounding never goes below a representable number that the exact
    result is not below *)

Lemma val_pos (m : positive) (e : Z) : 0 < val (Z.pos m) e.
Proof.
  unfold val. apply Qmult_lt_0_compat; [|apply Qpow2_pos].
  change 0 with (inject_Z 0). rewrite <- Zlt_Qlt. lia.
Qed.

Lemma val_pos_inv (m e : Z) : 0 < val m e -> (0 < m)%Z.
Proof.
  unfold val. intros H. pose proof (Qpow2_pos e) as Hp.
  destruct (Z.lt_ge_cases 0 m) as [|Hm]; [assumption|].
  assert (inject_Z m <= 0) by (change 0 with (inject_Z 0); rewrite <- Zle_Qle; lia).
  nra.
Qed.

Lemma val_mono (m m' e : Z) : (m <= m')%Z -> val m e <= val m' e.
Proof.
  intros H. unfold val. apply Qmult_le_compat_r; [now rewrite <- Zle_Qle|].
  apply Qlt_le_weak, Qpow2_pos.
Qed.

Lemma round_nearest_even_ge (m : Z) (l : location) : (m <= round_nearest_even m l)%Z.
Proof. destruct l as [|[]]; simpl; try destruct (Z.even m); lia. Qed.

Lemma binary_round_aux_ge (my : positive) (ey : Z) (m : positive) (e : Z) (l : location) :
  bounded prec emax my ey = true ->
  val (Z.pos my) ey <= val (Z.pos m) e ->
  at_least (binary_round_aux prec emax false (Z.pos m) e l) my ey.
Proof.
  intros Hy H. unfold binary_round_aux.
  pose proof (shr_fexp_ge my ey m e l Hy H) as H1.
  destruct (shr_fexp prec emax (Z.pos m) e l) as [mrs' e']. cbn [fst snd] in H1.
  pose proof (val_pos my ey) as Hpos.
  pose proof (round_nearest_even_ge (shr_m mrs') (loc_of_shr_record mrs')) as Hr.
  assert (H2 : val (Z.pos my) ey
               <= val (round_nearest_even (shr_m mrs') (loc_of_shr_record mrs')) e').
  { eapply Qle_trans; [exact H1|]. now apply val_mono. }
  destruct (round_nearest_even (shr_m mrs') (loc_of_shr_record mrs')) as [|p2|p2] eqn:E2.
  - exfalso. assert (0 < 0)%Z; [|lia].
    apply (val_pos_inv _ e'). eapply Qlt_le_trans; [exact Hpos | exact H2].
  - pose proof (shr_fexp_ge my ey p2 e' loc_Exact Hy H2) as H3.
    destruct (shr_fexp prec emax (Z.pos p2) e' loc_Exact) as [mrs'' e''].
    cbn [fst snd] in H3.
    assert (Hm : (0 < shr_m mrs'')%Z).
    { apply (val_pos_inv _ e''). eapply Qlt_le_trans; [exact Hpos | exact H3]. }
    destruct (shr_m mrs'') as [|pf|pf]; try lia.
    destruct (e'' <=? emax - prec)%Z; simpl; [exact H3 | exact I].
  - exfalso. assert (0 < Z.neg p2)%Z; [|lia].
    apply (val_pos_inv _ e'). eapply Qlt_le_trans; [exact Hpos | exact H2].
Qed.

(** Shifting left *)

Lemma iter_xO (d m : positive) : Z.pos (Pos.iter xO m d) = (Z.pos m * 2 ^ Z.pos d)%Z.
Proof.
  induction d as [|d IH] using Pos.peano_ind.
  - simpl. lia.
  - rewrite Pos.iter_succ, Pos2Z.inj_xO, IH, Pos2Z.inj_succ, Z.pow_succ_r by lia. ring.
Qed.

Lemma shl_align_val (m : positive) (e e' : Z) :
  val (Z.pos (fst (shl_align m e e'))) (snd (shl_align m e e')) == val (Z.pos m) e.
Proof.
  unfold shl_align. destruct (e' - e)%Z as [|d|d] eqn:Ed; cbn [fst snd]; try reflexivity.
  rewrite iter_xO. rewrite (val_grid (Z.pos m) e e') by lia.
  replace (e - e')%Z with (Z.pos d) by lia.
  unfold val. reflexivity.
Qed.

Lemma shl_align_exp (m : positive) (e e' : Z) :
  (e' <= e)%Z -> snd (shl_align m e e') = e'.
Proof.
  intros H. unfold shl_align. destruct (e' - e)%Z as [|d|d] eqn:Ed; cbn [snd]; lia.
Qed.

Lemma binary_round_ge (my : positive) (ey : Z) (m : positive) (e : Z) :
  bounded prec emax my ey = true ->
  val (Z.pos my) ey <= val (Z.pos m) e ->
  at_least (binary_round prec emax false m e) my ey.
Proof.
  intros Hy H. unfold binary_round.
  pose proof (shl_align_val m e (fexp prec emax (Z.pos (digits2_pos m) + e))) as Hv.
  destruct (shl_align m e (fexp prec emax (Z.pos (digits2_pos m) + e))) as [mz ez].
  cbn [fst snd] in Hv. apply binary_round_aux_ge; [exact Hy|]. now rewrite Hv.
Qed.


(** The operations on two positive finite numbers *)

Lemma val_sub (a b e : Z) : val (a - b) e == val a e - val b e.
Proof. unfold val, Z.sub. rewrite inject_Z_plus, inject_Z_opp. ring. Qed.

Lemma val_mul (a b e f : Z) : val (a * b) (e + f) == val a e * val b f.
Proof. unfold val. rewrite inject_Z_mult, Qpower_plus by discriminate. ring. Qed.

Lemma SFsub_ge (mx : positive) (ex : Z) (my : positive) (ey : Z)
    (mz : positive) (ez : Z) :
  bounded prec emax mz ez = true ->
  val (Z.pos mz) ez + val (Z.pos my) ey <= val (Z.pos mx) ex ->
  at_least (SF64sub (S754_finite false mx ex) (S754_finite false my ey)) mz ez.
Proof.
  intros Hz H. unfold SF64sub, SFsub, cond_Zopp. cbv zeta.
  set (e0 := Z.min ex ey).
  pose proof (shl_align_val mx ex e0) as Hx.
  pose proof (shl_align_val my ey e0) as Hy.
  rewrite shl_align_exp in Hx, Hy by (unfold e0; lia).
  set (a := fst (shl_align mx ex e0)) in *.
  set (b := fst (shl_align my ey e0)) in *.
  assert (Hv : val (Z.pos mz) ez <= val (Z.pos a - Z.pos b) e0).
  { rewrite val_sub, Hx, Hy. lra. }
  pose proof (val_pos mz ez) as Hpos.
  assert (Hm : (0 < Z.pos a - Z.pos b)%Z).
  { apply (val_pos_inv _ e0). eapply Qlt_le_trans; [exact Hpos | exact Hv]. }
  destruct (Z.pos a - Z.pos b)%Z as [|pm|pm] eqn:Em; try lia.
  unfold binary_normalize. now apply binary_round_ge.
Qed.

Lemma SFmul_ge (mx : positive) (ex : Z) (my : positive) (ey : Z)
    (mz : positive) (ez : Z) :
  bounded prec emax mz ez = true ->
  val (Z.pos mz) ez <= val (Z.pos mx) ex * val (Z.pos my) ey ->
  at_least (SF64mul (S754_finite false mx ex) (S754_finite false my ey)) mz ez.
Proof.
  intros Hz H. unfold SF64mul, SFmul. cbn [xorb].
  apply binary_round_aux_ge; [exact Hz|].
  rewrite Pos2Z.inj_mul, val_mul. exact H.
Qed.

Lemma SFdiv_core_ge (mx : positive) (ex : Z) (my : positive) (ey : Z)
    (mz : positive) (ez : Z) :
  bounded prec emax mz ez = true ->
  val (Z.pos mz) ez * val (Z.pos my) ey <= val (Z.pos mx) ex ->
  let '(q, e', _) := SFdiv_core_binary prec emax (Z.pos mx) ex (Z.pos my) ey in
  val (Z.pos mz) ez <= val q e'.
Proof.
  intros Hz H. destruct (canonical_bounds mz ez Hz) as (Hez & Hmz & _).
  unfold SFdiv_core_binary. cbv zeta. simpl Zdigits2.
  pose proof (digits2_pos_bounds mx) as [Hxl Hxu].
  pose proof (digits2_pos_bounds my) as [Hyl Hyu].
  set (d1 := Z.pos (digits2_pos mx)) in *.
  set (d2 := Z.pos (digits2_pos my)) in *.
  assert (Hd1 : (0 < d1)%Z) by (unfold d1; lia).
  assert (Hd2 : (0 < d2)%Z) by (unfold d2; lia).
  unfold fexp, SpecFloat.emin, prec, emax.
  set (e' := Z.min (Z.max (d1 + ex - (d2 + ey) - 53) (3 - 1024 - 53)) (ex - ey)).
  set (s := (ex - ey - e')%Z).
  assert (Hs : (0 <= s)%Z) by (unfold s, e'; lia).
  assert (Hm' : match s with
                | Z.pos _ => Z.shiftl (Z.pos mx) s
                | 0%Z => Z.pos mx
                | Z.neg _ => 0%Z
                end = (Z.pos mx * 2 ^ s)%Z).
  { destruct s as [|p|p] eqn:Es; [simpl; lia | | lia].
    now rewrite Z.shiftl_mul_pow2 by lia. }
  rewrite Hm'. clear Hm'.
  pose proof (Z_div_mod (Z.pos mx * 2 ^ s) (Z.pos my) ltac:(lia)) as Hdiv.
  destruct (Z.div_eucl (Z.pos mx * 2 ^ s) (Z.pos my)) as [q r].
  destruct Hdiv as [Hq Hr].
  assert (Hps : (0 < 2 ^ s)%Z) by (apply Z.pow_pos_nonneg; lia).
  rewrite <- val_mul in H.
  destruct (Z.le_gt_cases e' ez) as [Hg | Hg].
  - apply (val_le_grid _ _ _ _ (e' + ey)) in H; [| lia | unfold e'; lia].
    replace (ez + ey - (e' + ey))%Z with (ez - e')%Z in H by lia.
    replace (ex - (e' + ey))%Z with s in H by (unfold s; lia).
    apply (val_le_grid _ _ _ _ e'); [lia | lia |].
    rewrite Z.sub_diag, Z.mul_1_r.
    assert (0 < 2 ^ (ez - e'))%Z by (apply Z.pow_pos_nonneg; lia).
    nia.
  - apply (val_le_grid _ _ _ _ ez); [lia | lia |].
    rewrite Z.sub_diag, Z.mul_1_r.
    assert (Hk : (52 + d2 <= d1 - 1 + s)%Z) by (unfold s, e' in *; lia).
    assert (H52 : (2 ^ 52 <= q)%Z).
    { assert (Hp1 : (2 ^ (52 + d2) <= 2 ^ (d1 - 1 + s))%Z)
        by (apply Z.pow_le_mono_r; lia).
      rewrite !Z.pow_add_r in Hp1 by lia.
      assert (0 < 2 ^ (d1 - 1))%Z by (apply Z.pow_pos_nonneg; lia).
      assert (0 < 2 ^ d2)%Z by (apply Z.pow_pos_nonneg; lia).
      change (2 ^ 52)%Z with 4503599627370496%Z in *.
      nia. }
    assert (H2 : (2 ^ 1 <= 2 ^ (e' - ez))%Z) by (apply Z.pow_le_mono_r; lia).
    change (2 ^ 1)%Z with 2%Z in H2.
    change (2 ^ 53)%Z with (2 ^ 52 * 2)%Z in Hmz.
    nia.
Qed.

Lemma SFdiv_ge (mx : positive) (ex : Z) (my : positive) (ey : Z)
    (mz : positive) (ez : Z) :
  bounded prec emax mz ez = true ->
  val (Z.pos mz) ez * val (Z.pos my) ey <= val (Z.pos mx) ex ->
  at_least (SF64div (S754_finite false mx ex) (S754_finite false my ey)) mz ez.
Proof.
  intros Hz H. unfold SF64div, SFdiv. cbn [xorb].
  pose proof (SFdiv_core_ge mx ex my ey mz ez Hz H) as Hc.
  destruct (SFdiv_core_binary prec emax (Z.pos mx) ex (Z.pos my) ey) as [[q e'] l].
  assert (Hq : (0 < q)%Z).
  { apply (val_pos_inv _ e'). eapply Qlt_le_trans; [apply (val_pos mz ez) | exact Hc]. }
  destruct q as [|q|q]; try lia.
  now apply binary_round_aux_ge.
Qed.


(** Comparisons of valid numbers *)

Lemma lt_exp_val (m1 : positive) (e1 : Z) (m2 : positive) (e2 : Z) :
  bounded prec emax m1 e1 = true ->
  bounded prec emax m2 e2 = true ->
  (e1 < e2)%Z ->
  val (Z.pos m1) e1 < val (Z.pos m2) e2.
Proof.
  intros H1 H2 He.
  destruct (canonical_bounds m1 e1 H1) as (He1 & Hm1 & _).
  destruct (canonical_bounds m2 e2 H2) as (He2 & _ & Hm2).
  specialize (Hm2 ltac:(lia)).
  apply (val_lt_grid _ _ _ _ e1); [lia | lia |].
  rewrite Z.sub_diag, Z.mul_1_r.
  assert (H2' : (2 ^ 1 <= 2 ^ (e2 - e1))%Z) by (apply Z.pow_le_mono_r; lia).
  change (2 ^ 1)%Z with 2%Z in H2'.
  change (2 ^ 53)%Z with (2 ^ 52 * 2)%Z in Hm1.
  nia.
Qed.

Lemma SFcompare_val (m1 : positive) (e1 : Z) (m2 : positive) (e2 : Z) :
  bounded prec emax m1 e1 = true ->
  bounded prec emax m2 e2 = true ->
  match SFcompare (S754_finite false m1 e1) (S754_finite false m2 e2) with
  | Some Lt => val (Z.pos m1) e1 < val (Z.pos m2) e2
  | Some Eq => val (Z.pos m1) e1 == val (Z.pos m2) e2
  | Some Gt => val (Z.pos m2) e2 < val (Z.pos m1) e1
  | None => False
  end.
Proof.
  intros H1 H2. cbn [SFcompare].
  destruct (Z.compare_spec e1 e2) as [E | E | E].
  - subst e2. change (Pos.compare_cont Eq m1 m2) with (Pos.compare m1 m2).
    destruct (Pos.compare_spec m1 m2) as [Em | Em | Em].
    + subst m2. reflexivity.
    + apply (val_lt_grid _ _ _ _ e1); [lia | lia |]. rewrite Z.sub_diag. lia.
    + apply (val_lt_grid _ _ _ _ e1); [lia | lia |]. rewrite Z.sub_diag. lia.
  - now apply lt_exp_val.
  - now apply lt_exp_val.
Qed.

(** Numbers that are integers, and numbers that are at least an integer *)

Lemma is_int_valid (k : float) (m : positive) (e : Z) :
  Prim2SF k = S754_finite false m e -> bounded prec emax m e = true.
Proof. intros E. pose proof (Prim2SF_valid k) as V. now rewrite E in V. Qed.

Lemma leb_above (k x : float) (n : Z) :
  is_int k n -> PrimFloat.leb k x = true -> above x n.
Proof.
  intros (mk & ek & Ek & Vk) H. rewrite leb_spec, Ek in H.
  pose proof (is_int_valid k mk ek Ek) as Bk.
  pose proof (Prim2SF_valid x) as Vx. unfold above.
  destruct (Prim2SF x) as [sx | sx | | sx mx ex]; unfold SFleb in H.
  - simpl in H. discriminate H.
  - destruct sx; [simpl in H; discriminate H | exact I].
  - simpl in H. discriminate H.
  - destruct sx; [simpl in H; discriminate H|].
    pose proof (SFcompare_val mk ek mx ex Bk Vx) as Hc.
    destruct (SFcompare (S754_finite false mk ek) (S754_finite false mx ex)) as [[]|];
      try discriminate H; lra.
Qed.

Lemma ltb_leb (k x : float) : PrimFloat.ltb k x = true -> PrimFloat.leb k x = true.
Proof.
  rewrite ltb_spec, leb_spec. unfold SFltb, SFleb.
  destruct (SFcompare (Prim2SF k) (Prim2SF x)) as [[]|]; congruence.
Qed.

Lemma SFcompare_antisym (x y : spec_float) :
  SFcompare y x = option_map CompOpp (SFcompare x y).
Proof.
  destruct x as [sx | sx | | sx mx ex], y as [sy | sy | | sy my ey];
    try destruct sx; try destruct sy; try reflexivity; cbn [SFcompare option_map];
    rewrite (Z.compare_antisym ey ex);
    destruct (ey ?= ex)%Z; cbn [CompOpp]; try reflexivity;
    change (Pos.compare_cont Eq my mx) with (Pos.compare my mx);
    change (Pos.compare_cont Eq mx my) with (Pos.compare mx my);
    rewrite (Pos.compare_antisym my mx);
    destruct (my ?= mx)%positive; reflexivity.
Qed.

Lemma leb_not_ltb (x k : float) : PrimFloat.leb x k = true -> PrimFloat.ltb k x = false.
Proof.
  rewrite ltb_spec, leb_spec. unfold SFltb, SFleb.
  rewrite (SFcompare_antisym (Prim2SF x) (Prim2SF k)).
  destruct (SFcompare (Prim2SF x) (Prim2SF k)) as [[]|]; simpl; congruence.
Qed.

Lemma above_not_nan (x : float) (n : Z) : above x n -> is_nan x = false.
Proof.
  unfold above. intros H. unfold is_nan. rewrite eqb_spec.
  destruct (Prim2SF x) as [sx | sx | | sx mx ex]; try contradiction;
    destruct sx; try contradiction.
  - reflexivity.
  - unfold SFeqb. cbn [SFcompare]. rewrite Z.compare_refl.
    change (Pos.compare_cont Eq mx mx) with (Pos.compare mx mx).
    now rewrite Pos.compare_refl.
Qed.

Lemma above_not_zero (x : float) (n : Z) : above x n -> PrimFloat.eqb x 0%float = false.
Proof.
  unfold above. intros H. rewrite eqb_spec.
  change (Prim2SF 0%float) with (S754_zero false).
  destruct (Prim2SF x) as [sx | sx | | sx mx ex]; try contradiction;
    destruct sx; try contradiction; reflexivity.
Qed.

Lemma above_not_below (x k : float) (n nk : Z) :
  is_int k nk -> above x n -> (nk <= n)%Z -> PrimFloat.ltb x k = false.
Proof.
  intros (mk & ek & Ek & Vk) H Hle. rewrite ltb_spec, Ek.
  pose proof (is_int_valid k mk ek Ek) as Bk.
  pose proof (Prim2SF_valid x) as Vx. unfold above in H.
  rewrite Zle_Qle in Hle.
  destruct (Prim2SF x) as [sx | sx | | sx mx ex]; try contradiction;
    destruct sx; try contradiction.
  - reflexivity.
  - unfold SFltb.
    pose proof (SFcompare_val mx ex mk ek Vx Bk) as Hc.
    destruct (SFcompare (S754_finite false mx ex) (S754_finite false mk ek)) as [[]|];
      try reflexivity. lra.
Qed.

Lemma above_over (x k : float) (n nk : Z) :
  is_int k nk -> above x n -> (nk < n)%Z -> PrimFloat.ltb k x = true.
Proof.
  intros (mk & ek & Ek & Vk) H Hlt. rewrite ltb_spec, Ek.
  pose proof (is_int_valid k mk ek Ek) as Bk.
  pose proof (Prim2SF_valid x) as Vx. unfold above in H.
  rewrite Zlt_Qlt in Hlt.
  destruct (Prim2SF x) as [sx | sx | | sx mx ex]; try contradiction;
    destruct sx; try contradiction.
  - reflexivity.
  - unfold SFltb.
    pose proof (SFcompare_val mk ek mx ex Bk Vx) as Hc.
    destruct (SFcompare (S754_finite false mk ek) (S754_finite false mx ex)) as [[]|];
      try reflexivity; try contradiction; lra.
Qed.

(** The primitive operations, from their specification: a difference, a
    product and a quotient are not below a representable integer that the
    exact result is not below *)

Lemma sub_above (x k kz : float) (n nk nz : Z) :
  is_int k nk -> is_int kz nz -> above x n -> (nz + nk <= n)%Z ->
  above (PrimFloat.sub x k) nz.
Proof.
  intros (mk & ek & Ek & Vk) (mz & ez & Ez & Vz) H Hle.
  pose proof (is_int_valid kz mz ez Ez) as Bz.
  unfold above in *. rewrite sub_spec, Ek.
  rewrite Zle_Qle, inject_Z_plus in Hle.
  destruct (Prim2SF x) as [sx | sx | | sx mx ex]; try contradiction;
    destruct sx; try contradiction.
  - exact I.
  - assert (Ha : at_least (SF64sub (S754_finite false mx ex) (S754_finite false mk ek))
                   mz ez) by (apply SFsub_ge; [exact Bz | lra]).
    unfold at_least in Ha.
    destruct (SF64sub _ _) as [s | s | | s m e]; try contradiction;
      destruct s; try contradiction; [exact I | lra].
Qed.

Lemma mul_above (x k kz : float) (n nk nz : Z) :
  is_int k nk -> is_int kz nz -> above x n -> (0 <= n)%Z -> (nz <= n * nk)%Z ->
  above (PrimFloat.mul x k) nz.
Proof.
  intros (mk & ek & Ek & Vk) (mz & ez & Ez & Vz) H Hn Hle.
  pose proof (is_int_valid kz mz ez Ez) as Bz.
  unfold above in *. rewrite mul_spec, Ek.
  rewrite Zle_Qle, inject_Z_mult in Hle. rewrite Zle_Qle in Hn.
  change (inject_Z 0) with 0 in Hn.
  destruct (Prim2SF x) as [sx | sx | | sx mx ex]; try contradiction;
    destruct sx; try contradiction.
  - exact I.
  - assert (Ha : at_least (SF64mul (S754_finite false mx ex) (S754_finite false mk ek))
                   mz ez).
    { apply SFmul_ge; [exact Bz|].
      pose proof (val_pos mk ek). rewrite Vz.
      assert (inject_Z n * val (Z.pos mk) ek <= val (Z.pos mx) ex * val (Z.pos mk) ek)
        by (apply Qmult_le_compat_r; lra).
      rewrite Vk in *. lra. }
    unfold at_least in Ha.
    destruct (SF64mul _ _) as [s | s | | s m e]; try contradiction;
      destruct s; try contradiction; [exact I | lra].
Qed.

Lemma div_above (x k kz : float) (n nk nz : Z) :
  is_int k nk -> is_int kz nz -> above x n -> (nz * nk <= n)%Z ->
  above (PrimFloat.div x k) nz.
Proof.
  intros (mk & ek & Ek & Vk) (mz & ez & Ez & Vz) H Hle.
  pose proof (is_int_valid kz mz ez Ez) as Bz.
  unfold above in *. rewrite div_spec, Ek.
  rewrite Zle_Qle, inject_Z_mult in Hle.
  destruct (Prim2SF x) as [sx | sx | | sx mx ex]; try contradiction;
    destruct sx; try contradiction.
  - exact I.
  - assert (Ha : at_least (SF64div (S754_finite false mx ex) (S754_finite false mk ek))
                   mz ez).
    { apply SFdiv_ge; [exact Bz|]. rewrite Vz, Vk. lra. }
    unfold at_least in Ha.
    destruct (SF64div _ _) as [s | s | | s m e]; try contradiction;
      destruct s; try contradiction; [exact I | lra].
Qed.

Local Open Scope float_scope.

Ltac int_const := eexists; eexists; split; vm_compute; reflexivity.

Lemma is_int_4 : is_int 4 4. Proof. int_const. Qed.
Lemma is_int_10 : is_int 10 10. Proof. int_const. Qed.
Lemma is_int_24 : is_int 24 24. Proof. int_const. Qed.
Lemma is_int_100 : is_int 100 100. Proof. int_const. Qed.
Lemma is_int_240 : is_int 240 240. Proof. int_const. Qed.
Lemma is_int_6000 : is_int 6000 6000. Proof. int_const. Qed.
Lemma is_int_6100 : is_int 6100 6100. Proof. int_const. Qed.
Lemma is_int_24000 : is_int 24000 24000. Proof. int_const. Qed.

Lemma Math_min_above (x : float) :
  above x 10 -> Binary64.Math_min x 10 = 10.
Proof.
  intros H. unfold Binary64.Math_min.
  rewrite (above_not_nan x 10 H).
  change (is_nan 10) with false. cbn [orb].
  rewrite (above_not_below x 10 10 10 is_int_10 H) by lia.
  destruct (10 <? x); [reflexivity|].
  unfold is_zero. change zero with 0.
  now rewrite (above_not_zero x 10 H).
Qed.

Lemma truthy_above (x : float) (n : Z) : above x n -> Binary64.truthy x = true.
Proof.
  intros H. unfold Binary64.truthy.
  now rewrite (above_not_nan x n H), (above_not_zero x n H).
Qed.

Lemma timeMultiplier_capped (c : float) :
  (6100 <=? c) = true -> Binary64.timeMultiplier c = 11.
Proof.
  intros H. apply (leb_above _ _ _ is_int_6100) in H.
  unfold Binary64.timeMultiplier.
  rewrite (truthy_above c _ H), (above_over c 100 6100 100 is_int_100 H) by lia.
  cbn [andb]. cbv zeta.
  rewrite Math_min_above; [reflexivity|].
  apply (div_above _ 24 10 240 24 10 is_int_24 is_int_10); [|lia].
  apply (div_above _ 100 240 24000 100 240 is_int_100 is_int_240); [|lia].
  apply (mul_above _ 4 24000 6000 4 24000 is_int_4 is_int_24000); [|lia|lia].
  apply (sub_above _ 100 6000 6100 100 6000 is_int_100 is_int_6000); [exact H|lia].
Qed.

Lemma timeMultiplier_solvent (c : float) :
  (c <=? 100) = true -> Binary64.timeMultiplier c = 1.
Proof.
  intros H. unfold Binary64.timeMultiplier.
  rewrite (leb_not_ltb c 100 H). now rewrite andb_false_r.
Qed.

Lemma timeMultiplier_insolvent (c : float) :
  (100 <? c) = true ->
  Binary64.timeMultiplier c
  = 1 + Binary64.Math_min ((c - 100) * 4 / 100 / 24) 10.
Proof.
  intros H. unfold Binary64.timeMultiplier. rewrite H.
  apply ltb_leb, (leb_above _ _ _ is_int_100) in H.
  now rewrite (truthy_above c _ H).
Qed.

(** C4 (as amended): in binary64 the multiplier that [_calculateMaxGasPrice]
    applies to the base ceiling is 1 for every consumed deposit percentage
    of at most 100; above 100 it is 1 + min(((c - 100) * 4 / 100) / 24, 10),
    with the two divisions of the code, each of them rounded; it is
    1 + 4/24 at 200 and 11 from 6100 on, positive infinity included. *)
Theorem timeMultiplier_binary64 (this : Binary64.Graphinator) (flow : Binary64.Flow) :
  let c := Binary64.consumedDepositPercentage flow in
  Binary64._calculateMaxGasPrice this flow
  = Binary64.Math_round (Binary64.baseMaxGasPrice this flow * Binary64.timeMultiplier c)
  /\ ((c <=? 100) = true -> Binary64.timeMultiplier c = 1)
  /\ ((100 <? c) = true ->
      Binary64.timeMultiplier c
      = 1 + Binary64.Math_min ((c - 100) * 4 / 100 / 24) 10)
  /\ (c = 200 -> Binary64.timeMultiplier c = 1 + 4 / 24)
  /\ ((6100 <=? c) = true -> Binary64.timeMultiplier c = 11).
Proof.
  cbv zeta. split; [reflexivity|]. split; [|split; [|split]].
  - apply timeMultiplier_solvent.
  - apply timeMultiplier_insolvent.
  - intros ->. reflexivity.
  - apply timeMultiplier_capped.
Qed.

Lemma timeMultiplier_binary64_witness :
  Binary64.timeMultiplier 100 = 1
  /\ Binary64.timeMultiplier 760
     = 1 + Binary64.Math_min ((760 - 100) * 4 / 100 / 24) 10
  /\ Binary64.timeMultiplier 200 = 1 + 4 / 24
  /\ Binary64.timeMultiplier 7000 = 11.
Proof.
  split; [|split; [|split]].
  - destruct (timeMultiplier_binary64 (Binary64.unpriced 1e10) (Binary64.flowAt 100))
      as (_ & H & _).
    apply H. reflexivity.
  - destruct (timeMultiplier_binary64 (Binary64.unpriced 1e10) (Binary64.flowAt 760))
      as (_ & _ & H & _).
    apply H. reflexivity.
  - destruct (timeMultiplier_binary64 (Binary64.unpriced 1e10) (Binary64.flowAt 200))
      as (_ & _ & _ & H & _).
    apply H. reflexivity.
  - destruct (timeMultiplier_binary64 (Binary64.unpriced 1e10) (Binary64.flowAt 7000))
      as (_ & _ & _ & _ & H).
    apply H. reflexivity.
Defined.

(** At a consumed deposit percentage of 760 the multiplier of the code is
    2.0999999999999996 ([0x1.0ccccccccccccp+1]), one unit in the last place
    below the 2.1 ([0x1.0cccccccccccdp+1]) of the formula with one
    division by 100 * 24; with a base ceiling of 150025405 the ceilings
    are 315053350 and 315053351. *)
Lemma multiplier_is_not_the_documented_formula :
  (100 <? 760) = true
  /\ Binary64.timeMultiplier 760 = 0x1.0ccccccccccccp+1
  /\ Binary64.documentedMultiplier 760 = 0x1.0cccccccccccdp+1
  /\ (Binary64.timeMultiplier 760 =? Binary64.documentedMultiplier 760) = false
  /\ Binary64.baseMaxGasPrice (Binary64.unpriced 150025405) (Binary64.flowAt 760)
     = 150025405
  /\ Binary64._calculateMaxGasPrice (Binary64.unpriced 150025405) (Binary64.flowAt 760)
     = 315053350
  /\ Binary64.Math_round
       (Binary64.baseMaxGasPrice (Binary64.unpriced 150025405) (Binary64.flowAt 760)
        * Binary64.documentedMultiplier 760)
     = 315053351.
Proof. vm_compute. repeat split; reflexivity. Qed.

End Binary64Facts.

(** ** The base ceiling *)

Lemma dailyNFR_unknown (flowrate_ : Q) : dailyNFR None flowrate_ = None.
Proof. reflexivity. Qed.

Lemma dailyNFR_zero_price (p flowrate_ : Q) :
  (p == 0)%Q -> dailyNFR (Some p) flowrate_ = None.
Proof.
  intros E. unfold dailyNFR. apply truthy_false_iff in E. now rewrite E.
Qed.

(** The proportional branch: the price is known and not zero, and the daily
    value does not round to zero. *)
Lemma baseMaxGasPrice_known this flow (p : Q) :
  tokenPrices this !! token flow = Some p ->
  ~ (p == 0)%Q ->
  Js.Math_round (inject_Z (flowrate flow) * 86400 * p)%Q <> 0 ->
  baseMaxGasPrice this flow =
    Js.Math_max (minGasPriceLimit this)
      (inject_Z (Js.Math_round
         (inject_Z (Js.Math_round (inject_Z (flowrate flow) * 86400 * p)%Q)
          * referenceGasPriceLimit this / refDailyNFR)%Q)).
Proof.
  intros Hp Hnz Hd. unfold baseMaxGasPrice, dailyNFR. rewrite Hp.
  apply truthy_true_iff in Hnz. rewrite Hnz.
  assert (Ht : Js.truthy
                 (inject_Z (Js.Math_round (inject_Z (flowrate flow) * 86400 * p)%Q))
               = true).
  { apply truthy_true_iff. intros E. apply Hd.
    unfold Qeq in E. simpl in E. lia. }
  now rewrite Ht.
Qed.

(** The daily value rounds to zero: the fallback limit, although the price
    is known. *)
Lemma baseMaxGasPrice_dust this flow (p : Q) :
  tokenPrices this !! token flow = Some p ->
  Js.Math_round (inject_Z (flowrate flow) * 86400 * p)%Q = 0 ->
  baseMaxGasPrice this flow = fallbackGasPriceLimit this.
Proof.
  intros Hp Hd. unfold baseMaxGasPrice, dailyNFR. rewrite Hp.
  destruct (Js.truthy p); [|reflexivity].
  now rewrite Hd.
Qed.

Lemma baseMaxGasPrice_with_consumed this flow (c : Q) :
  baseMaxGasPrice this (with_consumed flow c) = baseMaxGasPrice this flow.
Proof. reflexivity. Qed.

Lemma limits_accepted_le this :
  limits_accepted this = true ->
  (minGasPriceLimit this <= fallbackGasPriceLimit this)%Q
  /\ (minGasPriceLimit this <= referenceGasPriceLimit this)%Q.
Proof.
  unfold limits_accepted. rewrite negb_true_iff, orb_false_iff.
  now rewrite !gt_false_iff.
Qed.

Lemma baseMaxGasPrice_nonneg this flow :
  limits_accepted this = true ->
  (0 <= minGasPriceLimit this)%Q ->
  (0 <= baseMaxGasPrice this flow)%Q.
Proof.
  intros Hok H0. apply limits_accepted_le in Hok as [Hf _].
  unfold baseMaxGasPrice.
  assert (0 <= fallbackGasPriceLimit this)%Q by lra.
  destruct (dailyNFR _ _) as [d|]; [|assumption].
  destruct (Js.truthy _); [|assumption].
  unfold Js.Math_max.
  apply Qle_trans with (minGasPriceLimit this); [assumption | apply Q.le_max_l].
Qed.

(** ** The ceiling grows with the consumed deposit *)

Lemma timeMultiplier_mono (f1 f2 : Flow) :
  (consumedDepositPercentage f1 <= consumedDepositPercentage f2)%Q ->
  (timeMultiplier f1 <= timeMultiplier f2)%Q.
Proof.
  intros H.
  destruct (Qlt_le_dec 100 (consumedDepositPercentage f1)) as [H1 | H1].
  - assert (H2 : (100 < consumedDepositPercentage f2)%Q) by lra.
    rewrite (timeMultiplier_high _ H1), (timeMultiplier_high _ H2).
    unfold Js.Math_min.
    assert ((consumedDepositPercentage f1 - 100) * 4 / 100 / 24
            <= (consumedDepositPercentage f2 - 100) * 4 / 100 / 24)%Q
      by (rewrite !days_since_insolvent; lra).
    assert (Qmin ((consumedDepositPercentage f1 - 100) * 4 / 100 / 24) 10
            <= Qmin ((consumedDepositPercentage f2 - 100) * 4 / 100 / 24) 10)%Q
      by (apply Q.min_le_compat_r; assumption).
    lra.
  - rewrite (timeMultiplier_low _ H1). apply timeMultiplier_ge_1.
Qed.

(** X4: for limits that the constructor accepts and a minimum that is not
    negative, the ceiling of a flow does not fall when its consumed deposit
    percentage rises, all else equal. *)
Lemma calculateMaxGasPrice_mono_consumed this flow (c1 c2 : Q) :
  limits_accepted this = true ->
  (0 <= minGasPriceLimit this)%Q ->
  (c1 <= c2)%Q ->
  _calculateMaxGasPrice this (with_consumed flow c1)
  <= _calculateMaxGasPrice this (with_consumed flow c2).
Proof.
  intros Hok H0 Hc. unfold _calculateMaxGasPrice.
  rewrite !baseMaxGasPrice_with_consumed.
  apply Math_round_mono.
  apply Qmult_le_compat_nonneg.
  - split; [apply baseMaxGasPrice_nonneg; assumption | apply Qle_refl].
  - split.
    + apply Qle_trans with 1%Q; [discriminate | apply timeMultiplier_ge_1].
    + apply timeMultiplier_mono. exact Hc.
Qed.

(** ** The ceiling grows with the price, dust apart *)

(** X5: between two prices at which the daily value of the flow does not
    round to zero, the higher price gives the higher ceiling, for a flow
    rate, a minimum and a reference limit that are not negative. *)
Lemma calculateMaxGasPrice_mono_price this flow (p1 p2 : Q) :
  (0 <= minGasPriceLimit this)%Q ->
  (0 <= referenceGasPriceLimit this)%Q ->
  0 <= flowrate flow ->
  (0 < p1)%Q -> (p1 <= p2)%Q ->
  Js.Math_round (inject_Z (flowrate flow) * 86400 * p1)%Q <> 0 ->
  _calculateMaxGasPrice
    (with_prices this (<[token flow := p1]> (tokenPrices this))) flow
  <= _calculateMaxGasPrice
       (with_prices this (<[token flow := p2]> (tokenPrices this))) flow.
Proof.
  intros H0 Href Hfr Hp1 Hp Hd1.
  assert (Hfq : (0 <= inject_Z (flowrate flow))%Q).
  { change 0%Q with (inject_Z 0). now rewrite <- Zle_Qle. }
  assert (Hmono : Js.Math_round (inject_Z (flowrate flow) * 86400 * p1)%Q
                  <= Js.Math_round (inject_Z (flowrate flow) * 86400 * p2)%Q).
  { apply Math_round_mono. apply Qmult_le_compat_nonneg.
    - split; [|apply Qle_refl].
      apply Qmult_le_0_compat; [exact Hfq | discriminate].
    - split; [lra | exact Hp]. }
  assert (Hd1' : 0 <= Js.Math_round (inject_Z (flowrate flow) * 86400 * p1)%Q).
  { change 0 with (Js.Math_round 0%Q). apply Math_round_mono.
    apply Qmult_le_0_compat; [|lra].
    apply Qmult_le_0_compat; [exact Hfq | discriminate]. }
  unfold _calculateMaxGasPrice.
  rewrite (baseMaxGasPrice_known _ flow p1); simpl;
    [| apply lookup_insert_eq | lra | exact Hd1].
  rewrite (baseMaxGasPrice_known _ flow p2); simpl;
    [| apply lookup_insert_eq | lra | lia].
  apply Math_round_mono. apply Qmult_le_compat_nonneg.
  - split.
    + unfold Js.Math_max.
      apply Qle_trans with (minGasPriceLimit this); [exact H0 | apply Q.le_max_l].
    + unfold Js.Math_max. apply Q.max_le_compat_l.
      rewrite <- Zle_Qle. apply Math_round_mono.
      apply Qmult_le_compat_nonneg.
      * split.
        -- apply Qmult_le_0_compat; [|exact Href].
           change 0%Q with (inject_Z 0). now rewrite <- Zle_Qle.
        -- apply Qmult_le_compat_nonneg.
           ++ split; [|now rewrite <- Zle_Qle].
              change 0%Q with (inject_Z 0). now rewrite <- Zle_Qle.
           ++ split; [exact Href | apply Qle_refl].
      * split; [|apply Qle_refl]. apply Qinv_le_0_compat. discriminate.
  - split; [|apply Qle_refl].
    apply Qle_trans with 1%Q; [discriminate | apply timeMultiplier_ge_1].
Qed.

(** ** Flows of unknown price *)

(** C5: without an entry in the price table the ceiling is
    round(fallbackGasPriceLimit * multiplier), whatever the flow rate. *)
Theorem unknown_price_fallback this flow :
  tokenPrices this !! token flow = None ->
  _calculateMaxGasPrice this flow
    = Js.Math_round (fallbackGasPriceLimit this * timeMultiplier flow)%Q
  /\ forall fr : Z,
       _calculateMaxGasPrice this (with_flowrate flow fr)
       = _calculateMaxGasPrice this flow.
Proof.
  intros Hp.
  assert (Hb : forall fr, baseMaxGasPrice this (with_flowrate flow fr)
                          = fallbackGasPriceLimit this).
  { intros fr. unfold baseMaxGasPrice. simpl. now rewrite Hp. }
  assert (Hb0 : baseMaxGasPrice this flow = fallbackGasPriceLimit this).
  { unfold baseMaxGasPrice. now rewrite Hp. }
  split.
  - unfold _calculateMaxGasPrice. now rewrite Hb0.
  - intros fr. unfold _calculateMaxGasPrice. now rewrite Hb, Hb0.
Qed.

Lemma unknown_price_fallback_witness :
  _calculateMaxGasPrice Example.ghr Example.flowU = 12500000000
  /\ _calculateMaxGasPrice Example.ghr (with_flowrate Example.flowU (10 ^ 18))
     = _calculateMaxGasPrice Example.ghr Example.flowU.
Proof.
  destruct (unknown_price_fallback Example.ghr Example.flowU) as [H1 H2].
  - reflexivity.
  - split; [rewrite H1; reflexivity | apply H2].
Defined.

(** C10: a token listed with the price zero is treated as a token without
    a price: the ceiling is round(fallbackGasPriceLimit * multiplier), the
    same as without the entry, where the formula for known prices gives
    round(minGasPriceLimit * multiplier). *)
Theorem zero_price_is_unknown this flow (p : Q) :
  tokenPrices this !! token flow = Some p ->
  (p == 0)%Q ->
  _calculateMaxGasPrice this flow
    = Js.Math_round (fallbackGasPriceLimit this * timeMultiplier flow)%Q
  /\ _calculateMaxGasPrice this flow
     = _calculateMaxGasPrice
         (with_prices this (delete (token flow) (tokenPrices this))) flow
  /\ ((0 <= minGasPriceLimit this)%Q ->
      Js.Math_round (documentedBaseCeiling this flow p * timeMultiplier flow)%Q
      = Js.Math_round (minGasPriceLimit this * timeMultiplier flow)%Q).
Proof.
  intros Hp E.
  assert (Hb : baseMaxGasPrice this flow = fallbackGasPriceLimit this).
  { unfold baseMaxGasPrice. rewrite Hp. now rewrite (dailyNFR_zero_price _ _ E). }
  split; [|split].
  - unfold _calculateMaxGasPrice. now rewrite Hb.
  - unfold _calculateMaxGasPrice. rewrite Hb.
    unfold baseMaxGasPrice. simpl. now rewrite lookup_delete_eq.
  - intros H0. apply Math_round_comp.
    unfold documentedBaseCeiling, Js.Math_max.
    assert (Ez : Js.Math_round
                   (inject_Z (flowrate flow) * 86400 * p
                    * referenceGasPriceLimit this / inject_Z (10 ^ 18))%Q = 0).
    { rewrite (Math_round_comp _ 0%Q); [reflexivity|]. rewrite E. field.
      discriminate. }
    rewrite Ez. rewrite Q.max_l by exact H0. reflexivity.
Qed.

Lemma zero_price_is_unknown_witness :
  _calculateMaxGasPrice Example.ghr Example.flowZ = 12500000000
  /\ _calculateMaxGasPrice Example.ghr Example.flowZ
     = _calculateMaxGasPrice Example.ghr Example.flowU
  /\ Js.Math_round
       (documentedBaseCeiling Example.ghr Example.flowZ 0 * timeMultiplier Example.flowZ)%Q
     = 125000000.
Proof.
  destruct (zero_price_is_unknown Example.ghr Example.flowZ 0%Q) as (H1 & H2 & H3).
  - reflexivity.
  - reflexivity.
  - split; [rewrite H1; reflexivity|].
    split; [rewrite H2; reflexivity|].
    rewrite H3; [reflexivity | discriminate].
Defined.

(** ** Dust flows of known price *)

(** C2: the dust flow of the example, one base unit per second of a token
    listed at a millionth of a dollar, has a daily value that rounds to
    zero; its base ceiling is the fallback limit (10 gwei) and not the
    stated max(minGasPriceLimit, round(...)), which is the minimum
    (0.1 gwei). *)
Theorem known_price_dust_gets_fallback :
  tokenPrices Example.ghr !! token Example.dust = Some (1 # 1000000)%Q
  /\ dailyNFR (Some (1 # 1000000)%Q) (inject_Z (flowrate Example.dust)) = Some 0
  /\ baseMaxGasPrice Example.ghr Example.dust = fallbackGasPriceLimit Example.ghr
  /\ (documentedBaseCeiling Example.ghr Example.dust (1 # 1000000)
      == minGasPriceLimit Example.ghr)%Q
  /\ ~ (baseMaxGasPrice Example.ghr Example.dust
        == documentedBaseCeiling Example.ghr Example.dust (1 # 1000000))%Q
  /\ _calculateMaxGasPrice Example.ghr Example.dust = 10833333333.
Proof.
  repeat split; try reflexivity.
  intros E. vm_compute in E. discriminate E.
Qed.

(** C3: the ceiling of the dust flow falls from 10833333333 to 108333333
    when the price of its token rises from a millionth to a hundred
    thousandth of a dollar, all else equal. *)
Theorem calculateMaxGasPrice_falls_as_price_rises :
  let cheap := with_prices Example.ghr (<["0xbb"%string := (1 # 1000000)%Q]> Example.prices) in
  let dear := with_prices Example.ghr (<["0xbb"%string := (1 # 100000)%Q]> Example.prices) in
  (1 # 1000000 < 1 # 100000)%Q
  /\ _calculateMaxGasPrice cheap Example.dust = 10833333333
  /\ _calculateMaxGasPrice dear Example.dust = 108333333
  /\ _calculateMaxGasPrice dear Example.dust < _calculateMaxGasPrice cheap Example.dust.
Proof.
  cbv zeta. repeat split.
Qed.

(** ** Chunks *)

Lemma lt_true_iff (x y : Q) : Js.lt x y = true <-> (x < y)%Q.
Proof.
  unfold Js.lt. rewrite negb_true_iff, <- not_true_iff_false, Qle_bool_iff.
  split; [apply Qnot_le_lt | apply Qlt_not_le].
Qed.

Lemma lt_false_iff (x y : Q) : Js.lt x y = false <-> (y <= x)%Q.
Proof.
  unfold Js.lt. rewrite negb_false_iff. apply Qle_bool_iff.
Qed.

Lemma ToIntegerOrInfinity_Z (x : Q) (k : Z) :
  (x == inject_Z k)%Q -> Js.ToIntegerOrInfinity x = k.
Proof.
  intros E. unfold Js.ToIntegerOrInfinity.
  destruct (Qle_bool 0 x).
  - rewrite E. apply Qfloor_Z.
  - unfold Qceiling. rewrite E.
    change (- inject_Z k)%Q with (inject_Z (- k)). rewrite Qfloor_Z. lia.
Qed.

Lemma slice_window {T} (a : list T) (i size : Q) (k n : Z) :
  (i == inject_Z k)%Q ->
  (size == inject_Z n)%Q ->
  0 <= k < Z.of_nat (length a) ->
  1 <= n ->
  Js.slice a i (i + size)%Q = take (Z.to_nat n) (drop (Z.to_nat k) a).
Proof.
  intros Ei Es Hk Hn. unfold Js.slice.
  rewrite (ToIntegerOrInfinity_Z i k Ei).
  rewrite (ToIntegerOrInfinity_Z (i + size)%Q (k + n)).
  2:{ rewrite Ei, Es, inject_Z_plus. reflexivity. }
  unfold Js.rel_index.
  destruct (Z.ltb_spec k 0) as [?|_]; [lia|].
  destruct (Z.ltb_spec (k + n) 0) as [?|_]; [lia|].
  rewrite (Z.min_l k) by lia.
  destruct (Z.le_ge_cases (k + n) (Z.of_nat (length a))) as [Hle | Hge].
  - rewrite Z.min_l by lia. f_equal. lia.
  - rewrite Z.min_r by lia.
    rewrite !take_ge; [reflexivity | | ]; rewrite length_drop; lia.
Qed.

(** With a size that is an integer of at least one the index stays an
    integer and the loop ends within [length - i + 1] iterations; the
    chunks it adds are the rest of the array, cut in pieces that are not
    empty and not longer than [size]. *)
Lemma chunk_loop_terminates {T} (size : Q) (n : Z) (a : list T) :
  (size == inject_Z n)%Q ->
  1 <= n ->
  forall (fuel : nat) (i : Q) (k : Z) (chunks : list (list T)),
    (i == inject_Z k)%Q ->
    0 <= k ->
    (Z.to_nat (Z.of_nat (length a) - k) < fuel)%nat ->
    exists rest,
      chunk_loop fuel a size i chunks = Some (chunks ++ rest)
      /\ concat rest = drop (Z.to_nat k) a
      /\ Forall (fun c => 1 <= Z.of_nat (length c) <= n) rest.
Proof.
  intros Es Hn fuel.
  induction fuel as [|fuel IH]; intros i k chunks Ei Hk Hfuel; [lia|].
  simpl. destruct (Js.lt i (inject_Z (Z.of_nat (length a)))) eqn:Hlt.
  - apply lt_true_iff in Hlt. rewrite Ei, <- Zlt_Qlt in Hlt.
    destruct (IH (i + size)%Q (k + n) (chunks ++ [Js.slice a i (i + size)%Q]))
      as (rest & E & Hc & Hl); [| lia | lia |].
    { rewrite Ei, Es, inject_Z_plus. reflexivity. }
    exists (Js.slice a i (i + size)%Q :: rest). split; [|split].
    + rewrite E. now rewrite <- app_assoc.
    + simpl. rewrite Hc, (slice_window a i size k n) by (assumption || lia).
      replace (Z.to_nat (k + n)) with (Z.to_nat k + Z.to_nat n)%nat by lia.
      rewrite <- drop_drop. apply take_drop.
    + constructor; [|exact Hl].
      rewrite (slice_window a i size k n) by (assumption || lia).
      rewrite length_take, length_drop. lia.
  - apply lt_false_iff in Hlt. rewrite Ei, <- Zle_Qle in Hlt.
    exists []. split; [|split].
    + now rewrite app_nil_r.
    + simpl. symmetry. apply drop_ge. lia.
    + constructor.
Qed.

(** With a size of zero or less the index never passes the length of an
    array that is not empty: no amount of fuel is enough. *)
Lemma chunk_loop_diverges {T} (size : Q) (a : list T) :
  (size <= 0)%Q ->
  a <> [] ->
  forall (fuel : nat) (i : Q) (chunks : list (list T)),
    (i <= 0)%Q -> chunk_loop fuel a size i chunks = None.
Proof.
  intros Hs Ha fuel. induction fuel as [|fuel IH]; intros i chunks Hi; [reflexivity|].
  simpl. destruct (Js.lt i (inject_Z (Z.of_nat (length a)))) eqn:Hlt.
  - apply IH. lra.
  - apply lt_false_iff in Hlt.
    assert (0 < inject_Z (Z.of_nat (length a)))%Q.
    { change 0%Q with (inject_Z 0). rewrite <- Zlt_Qlt.
      destruct a; [congruence | simpl; lia]. }
    lra.
Qed.

(** More fuel does not change the result of a loop that ends. *)
Lemma chunk_loop_fuel_mono {T} (a : list T) (size : Q) :
  forall (fuel fuel' : nat) (i : Q) (chunks r : list (list T)),
    chunk_loop fuel a size i chunks = Some r ->
    (fuel <= fuel')%nat ->
    chunk_loop fuel' a size i chunks = Some r.
Proof.
  intros fuel. induction fuel as [|fuel IH]; intros fuel' i chunks r E Hle.
  - discriminate E.
  - destruct fuel' as [|fuel']; [lia|].
    simpl in *. destruct (Js.lt i (inject_Z (Z.of_nat (length a)))).
    + apply IH; [exact E | lia].
    + exact E.
Qed.

Lemma chunk_loop_agree {T} (a : list T) (size : Q) (f1 f2 : nat) (i : Q)
    (chunks r1 r2 : list (list T)) :
  chunk_loop f1 a size i chunks = Some r1 ->
  chunk_loop f2 a size i chunks = Some r2 ->
  r1 = r2.
Proof.
  intros E1 E2.
  apply chunk_loop_fuel_mono with (fuel' := Nat.max f1 f2) in E1; [|lia].
  apply chunk_loop_fuel_mono with (fuel' := Nat.max f1 f2) in E2; [|lia].
  congruence.
Qed.

(** With a positive size, integer or not, the loop ends as soon as [fuel]
    additions of [size] take the index to the length. *)
Lemma chunk_loop_ends {T} (a : list T) (size : Q) :
  (0 < size)%Q ->
  forall (fuel : nat) (i : Q) (chunks : list (list T)),
    (inject_Z (Z.of_nat (length a)) <= i + inject_Z (Z.of_nat fuel) * size)%Q ->
    exists r, chunk_loop (S fuel) a size i chunks = Some r.
Proof.
  intros Hs fuel. induction fuel as [|fuel IH]; intros i chunks H.
  - simpl. destruct (Js.lt i (inject_Z (Z.of_nat (length a)))) eqn:Hlt.
    + apply lt_true_iff in Hlt.
      change (inject_Z (Z.of_nat 0)) with 0%Q in H. lra.
    + eexists. reflexivity.
  - change (chunk_loop (S (S fuel)) a size i chunks)
      with (if Js.lt i (inject_Z (Z.of_nat (length a))) then
              chunk_loop (S fuel) a size (i + size)%Q
                (chunks ++ [Js.slice a i (i + size)%Q])
            else Some chunks).
    destruct (Js.lt i (inject_Z (Z.of_nat (length a)))).
    + apply IH. rewrite Nat2Z.inj_succ in H. unfold Z.succ in H.
      rewrite inject_Z_plus in H. change (inject_Z 1) with 1%Q in H.
      generalize dependent (inject_Z (Z.of_nat fuel)). intros q _ H.
      generalize dependent (inject_Z (Z.of_nat (length a))). intros l H.
      assert (E : (i + size + q * size == i + (q + 1) * size)%Q) by ring.
      rewrite E. exact H.
    + eexists. reflexivity.
Qed.

Lemma chunk_fuel_enough {T} (a : list T) (size : Q) :
  (0 < size)%Q ->
  exists r, _chunkArray a size = Some r.
Proof.
  intros Hs. unfold _chunkArray, chunk_fuel.
  destruct (Js.gt size 0) eqn:Hgt.
  2:{ apply gt_false_iff in Hgt. lra. }
  apply chunk_loop_ends; [exact Hs|].
  set (len := inject_Z (Z.of_nat (length a))).
  assert (Hlen : (0 <= len)%Q).
  { unfold len. change 0%Q with (inject_Z 0). rewrite <- Zle_Qle. lia. }
  assert (Hq : (0 <= len / size)%Q).
  { apply Qle_shift_div_l; [exact Hs | lra]. }
  pose proof (Qle_ceiling (len / size)) as Hc.
  assert (Hz : 0 <= Qceiling (len / size)).
  { rewrite Zle_Qle. change (inject_Z 0) with 0%Q. lra. }
  rewrite Z2Nat.id by exact Hz.
  assert (Hm : (len / size * size <= inject_Z (Qceiling (len / size)) * size)%Q).
  { apply Qmult_le_compat_r; lra. }
  assert (Hd : (len / size * size == len)%Q) by (field; lra).
  lra.
Qed.

(** [_chunkArray] is the loop: it returns what the loop returns at any fuel
    that lets it end, and it returns nothing only for a loop that no fuel
    lets end. *)
Lemma chunkArray_loop {T} (a : list T) (size : Q) (r : list (list T)) :
  _chunkArray a size = Some r
  <-> exists fuel, chunk_loop fuel a size 0%Q [] = Some r.
Proof.
  split.
  - intros E. exists (chunk_fuel (length a) size). exact E.
  - intros (fuel & E).
    destruct (Qlt_le_dec 0 size) as [Hs | Hs].
    + destruct (chunk_fuel_enough a size Hs) as (r' & E').
      rewrite E'. f_equal. unfold _chunkArray in E'.
      exact (chunk_loop_agree _ _ _ _ _ _ _ _ E' E).
    + destruct a as [|x a].
      * destruct fuel as [|fuel]; [discriminate E|].
        simpl in E. injection E as <-.
        unfold _chunkArray, chunk_fuel. destruct (Js.gt size 0); reflexivity.
      * rewrite chunk_loop_diverges in E;
          [discriminate E | exact Hs | discriminate | apply Qle_refl].
Qed.

Lemma chunkArray_nil {T} (size : Q) : _chunkArray (@nil T) size = Some [].
Proof. unfold _chunkArray, chunk_fuel. destruct (Js.gt size 0); reflexivity. Qed.

Lemma chunkArray_never_ends {T} (a : list T) (size : Q) :
  _chunkArray a size = None
  <-> forall fuel, chunk_loop fuel a size 0%Q [] = None.
Proof.
  split.
  - intros E fuel. destruct (chunk_loop fuel a size 0%Q []) as [r|] eqn:E'; [|reflexivity].
    assert (E2 : _chunkArray a size = Some r) by (apply chunkArray_loop; eauto).
    congruence.
  - intros H. apply H.
Qed.

Lemma chunkArray_spec {T} (a : list T) (size : Q) (n : Z) :
  (size == inject_Z n)%Q ->
  1 <= n ->
  exists chunks,
    _chunkArray a size = Some chunks
    /\ concat chunks = a
    /\ Forall (fun c => 1 <= Z.of_nat (length c) <= n) chunks.
Proof.
  intros Es Hn.
  destruct (chunk_loop_terminates size n a Es Hn (S (length a)) 0%Q 0 [])
    as (rest & E & Hc & Hl); [reflexivity | lia | lia |].
  exists rest. split; [|split; assumption].
  apply chunkArray_loop. exists (S (length a)). exact E.
Qed.

(** A size between zero and one: the loop ends, with empty chunks between
    the elements. *)
Example chunkArray_half :
  _chunkArray [1; 2] (1 # 2) = Some [[]; [1]; []; [2]].
Proof. vm_compute. reflexivity. Qed.

(** ** Selection *)

Lemma StronglySorted_weaken {T} (R1 R2 : T -> T -> Prop) (l : list T) :
  (forall a b, R1 a b -> R2 a b) ->
  StronglySorted R1 l -> StronglySorted R2 l.
Proof.
  intros HR Hs. induction Hs as [|a l Hs IH Hall]; constructor.
  - exact IH.
  - eapply List.Forall_impl; [|exact Hall]. intros b. apply HR.
Qed.

Section Selection.

Variable this : Graphinator.

Lemma insert_perm (x : Flow) (l : list Flow) :
  Js.insert (byMaxGasPriceDesc this) x l ≡ₚ x :: l.
Proof.
  induction l as [|y r IH]; simpl; [reflexivity|].
  destruct (byMaxGasPriceDesc this x y <=? 0); [reflexivity|].
  rewrite IH. apply Permutation_swap.
Qed.

Lemma insert_sorted (x : Flow) (l : list Flow) :
  StronglySorted
    (fun a b => _calculateMaxGasPrice this b <= _calculateMaxGasPrice this a) l ->
  StronglySorted
    (fun a b => _calculateMaxGasPrice this b <= _calculateMaxGasPrice this a)
    (Js.insert (byMaxGasPriceDesc this) x l).
Proof.
  induction 1 as [|y r Hs IH Hall]; simpl.
  - repeat constructor.
  - destruct (Z.leb_spec (byMaxGasPriceDesc this x y) 0) as [Hle | Hgt];
      unfold byMaxGasPriceDesc in *.
    + constructor; [now constructor|].
      constructor; [lia|].
      eapply List.Forall_impl; [|exact Hall]. intros b Hb. simpl in Hb. lia.
    + constructor; [exact IH|].
      rewrite insert_perm. constructor; [lia | exact Hall].
Qed.

Lemma sort_sorted (l : list Flow) :
  StronglySorted
    (fun a b => _calculateMaxGasPrice this b <= _calculateMaxGasPrice this a)
    (Js.sort (byMaxGasPriceDesc this) l).
Proof.
  unfold Js.sort. induction l as [|x l IH]; simpl; [constructor|].
  now apply insert_sorted.
Qed.

Lemma sort_perm (l : list Flow) : Js.sort (byMaxGasPriceDesc this) l ≡ₚ l.
Proof.
  unfold Js.sort. induction l as [|x l IH]; simpl; [reflexivity|].
  rewrite insert_perm. now rewrite IH.
Qed.

(** The sort is stable: the flows of one and the same ceiling come out in
    the order in which they went in. *)
Lemma insert_stable (v : Z) (x : Flow) (l : list Flow) :
  List.filter (fun flow => _calculateMaxGasPrice this flow =? v)
    (Js.insert (byMaxGasPriceDesc this) x l)
  = List.filter (fun flow => _calculateMaxGasPrice this flow =? v) (x :: l).
Proof.
  induction l as [|y r IH]; [reflexivity|].
  cbn [Js.insert].
  destruct (Z.leb_spec (byMaxGasPriceDesc this x y) 0) as [Hle | Hgt];
    [reflexivity|].
  unfold byMaxGasPriceDesc in Hgt.
  cbn [List.filter] in *. rewrite IH.
  destruct (Z.eqb_spec (_calculateMaxGasPrice this x) v) as [Hx|Hx];
    destruct (Z.eqb_spec (_calculateMaxGasPrice this y) v) as [Hy|Hy];
    try reflexivity.
  lia.
Qed.

Lemma sort_stable (v : Z) (l : list Flow) :
  List.filter (fun flow => _calculateMaxGasPrice this flow =? v)
    (Js.sort (byMaxGasPriceDesc this) l)
  = List.filter (fun flow => _calculateMaxGasPrice this flow =? v) l.
Proof.
  unfold Js.sort. induction l as [|x l IH]; [reflexivity|].
  cbn [List.fold_right]. rewrite insert_stable.
  cbn [List.filter]. now rewrite IH.
Qed.

Lemma worth_in_range (flows : list Flow) (cur : Q) :
  Forall (fun flow => (cur <= inject_Z (_calculateMaxGasPrice this flow))%Q)
    (flowsWorthLiquidating this flows cur).
Proof.
  unfold flowsWorthLiquidating. apply List.Forall_forall. intros flow Hin.
  apply filter_In in Hin as [_ H]. unfold Js.ge in H.
  now apply Qle_bool_iff in H.
Qed.

End Selection.

(** Two flows with the same ceiling stay in the order of the input. *)
Example sort_keeps_ties_in_order :
  _calculateMaxGasPrice Example.ghr Example.flowA1
  = _calculateMaxGasPrice Example.ghr Example.flowA2
  /\ Js.sort (byMaxGasPriceDesc Example.ghr)
       [Example.flowA1; Example.flowA3; Example.flowA2]
     = [Example.flowA3; Example.flowA1; Example.flowA2].
Proof. split; vm_compute; reflexivity. Qed.

(** C6 (amended): for every flow list, every current gas price and every
    batch size that is an integer of at least one, the selection ends and
    returns batches that hold exactly the flows in range, each with a
    ceiling not below the current gas price; flattened, they are in
    non-increasing order of ceiling; no batch is empty or longer than the
    batch size. *)
Theorem selectBatches_spec this (flows : list Flow) (currentGasPrice : Q) (n : Z) :
  (batchSize this == inject_Z n)%Q ->
  1 <= n ->
  exists batches,
    selectBatches this flows currentGasPrice = Some batches
    /\ concat batches ≡ₚ flowsWorthLiquidating this flows currentGasPrice
    /\ Forall
         (Forall (fun flow =>
            (currentGasPrice <= inject_Z (_calculateMaxGasPrice this flow))%Q))
         batches
    /\ StronglySorted
         (fun a b => _calculateMaxGasPrice this b <= _calculateMaxGasPrice this a)
         (concat batches)
    /\ Forall (fun batch => 1 <= Z.of_nat (length batch) <= n) batches.
Proof.
  intros Es Hn. unfold selectBatches.
  destruct (chunkArray_spec
              (Js.sort (byMaxGasPriceDesc this)
                 (flowsWorthLiquidating this flows currentGasPrice))
              (batchSize this) n Es Hn) as (batches & E & Hc & Hl).
  exists batches. split; [exact E|].
  assert (Hp : concat batches ≡ₚ flowsWorthLiquidating this flows currentGasPrice).
  { rewrite Hc. apply sort_perm. }
  split; [exact Hp|]. split; [|split; [|exact Hl]].
  - assert (Hall : Forall
                     (fun flow =>
                        (currentGasPrice <= inject_Z (_calculateMaxGasPrice this flow))%Q)
                     (concat batches)).
    { rewrite Hp. apply worth_in_range. }
    clear -Hall. induction batches as [|b bs IH]; constructor.
    + simpl in Hall. apply Forall_app in Hall. tauto.
    + apply IH. simpl in Hall. apply Forall_app in Hall. tauto.
  - rewrite Hc. apply sort_sorted.
Qed.

Lemma selectBatches_spec_witness :
  exists batches,
    selectBatches Example.ghr
      [Example.flowA1; Example.flowA2; Example.flowA3; Example.flowOld]
      (inject_Z 2000000000) = Some batches
    /\ concat batches ≡ₚ
         flowsWorthLiquidating Example.ghr
           [Example.flowA1; Example.flowA2; Example.flowA3; Example.flowOld]
           (inject_Z 2000000000)
    /\ Forall
         (Forall (fun flow =>
            (inject_Z 2000000000
             <= inject_Z (_calculateMaxGasPrice Example.ghr flow))%Q))
         batches
    /\ StronglySorted
         (fun a b => _calculateMaxGasPrice Example.ghr b
                     <= _calculateMaxGasPrice Example.ghr a)
         (concat batches)
    /\ Forall (fun batch => 1 <= Z.of_nat (length batch) <= 2) batches.
Proof.
  apply (selectBatches_spec Example.ghr
           [Example.flowA1; Example.flowA2; Example.flowA3; Example.flowOld]
           (inject_Z 2000000000) 2).
  - reflexivity.
  - lia.
Defined.

(** With a batch size of zero the selection of a flow in range produces no
    batches: the chunking loop does not end, whatever the fuel.  With a
    batch size of one and a half the second batch holds two flows. *)
Lemma selectBatches_batchSize_zero_or_fractional :
  (let this := with_batchSize Example.ghr 0 in
   let sorted :=
     Js.sort (byMaxGasPriceDesc this)
       (flowsWorthLiquidating this [Example.flowA1] (inject_Z 1000000001)) in
   sorted = [Example.flowA1]
   /\ selectBatches this [Example.flowA1] (inject_Z 1000000001) = None
   /\ ~ (exists fuel batches,
           chunk_loop fuel sorted (batchSize this) 0%Q [] = Some batches))
  /\ (let this := with_batchSize Example.ghr (3 # 2) in
      selectBatches this [Example.flowA1; Example.flowA2; Example.flowA3]
        (inject_Z 1000000001)
      = Some [[Example.flowA3]; [Example.flowA1; Example.flowA2]]
      /\ (batchSize this < inject_Z (Z.of_nat (length [Example.flowA1; Example.flowA2])))%Q).
Proof.
  cbv zeta. split.
  - assert (Hs : Js.sort (byMaxGasPriceDesc (with_batchSize Example.ghr 0))
                   (flowsWorthLiquidating (with_batchSize Example.ghr 0)
                      [Example.flowA1] (inject_Z 1000000001))
                 = [Example.flowA1]) by (vm_compute; reflexivity).
    split; [exact Hs|]. split; [vm_compute; reflexivity|].
    intros (fuel & batches & E). rewrite Hs in E. simpl batchSize in E.
    rewrite chunk_loop_diverges in E.
    + discriminate E.
    + apply Qle_refl.
    + discriminate.
    + apply Qle_refl.
  - split; vm_compute; reflexivity.
Qed.

(** ** Traces of computations *)

Section TraceLemmas.

Context {W : Type}.
Variable P : Event -> Prop.

Lemma adds_only_ret {A} (a : A) : adds_only (W:=W) P (ret a).
Proof. intros s. exists []. simpl. now rewrite app_nil_r. Qed.

Lemma adds_only_throw {A} (e : string) : adds_only (W:=W) (A:=A) P (throw e).
Proof. intros s. exists []. simpl. now rewrite app_nil_r. Qed.

Lemma adds_only_hang {A} : adds_only (W:=W) (A:=A) P hang.
Proof. intros s. exists []. simpl. now rewrite app_nil_r. Qed.

Lemma adds_only_emit (ev : Event) : P ev -> adds_only (W:=W) P (emit ev).
Proof. intros H s. exists [ev]. simpl. split; [reflexivity | now constructor]. Qed.

Lemma adds_only_call {A} (ev : Event) (f : W -> result A * W) :
  P ev -> adds_only P (call ev f).
Proof.
  intros H s. exists [ev]. unfold call.
  destruct (f (fst s)) as [[a|e] w']; simpl; (split; [reflexivity | now constructor]).
Qed.

Lemma adds_only_pure_call {A} (r : result A) : adds_only (W:=W) P (pure_call r).
Proof.
  intros s. exists []. unfold pure_call.
  destruct r; simpl; now rewrite app_nil_r.
Qed.

Lemma adds_only_bind {A B} (m : M (W:=W) A) (k : A -> M B) :
  adds_only P m -> (forall a, adds_only P (k a)) -> adds_only P (bind m k).
Proof.
  intros Hm Hk s. unfold bind. destruct (Hm s) as (n1 & E1 & H1).
  destruct (m s) as [[a|e|] s1]; simpl in E1.
  - destruct (Hk a s1) as (n2 & E2 & H2). exists (n1 ++ n2). split.
    + rewrite E2, E1. now rewrite app_assoc.
    + now apply Forall_app.
  - exists n1. now split.
  - exists n1. now split.
Qed.

Lemma adds_only_try_catch (body : M (W:=W) unit) (handler : string -> M unit) :
  adds_only P body -> (forall e, adds_only P (handler e)) ->
  adds_only P (try_catch body handler).
Proof.
  intros Hb Hh s. unfold try_catch. destruct (Hb s) as (n1 & E1 & H1).
  destruct (body s) as [[a|e|] s1]; simpl in E1.
  - exists n1. now split.
  - destruct (Hh e s1) as (n2 & E2 & H2). exists (n1 ++ n2). split.
    + rewrite E2, E1. now rewrite app_assoc.
    + now apply Forall_app.
  - exists n1. now split.
Qed.

Lemma adds_only_for_of {A} (l : list A) (body : A -> M (W:=W) unit) :
  (forall x, adds_only P (body x)) -> adds_only P (for_of l body).
Proof.
  intros Hb. induction l as [|x l IH]; simpl.
  - apply adds_only_ret.
  - apply adds_only_bind; [apply Hb | intros _; exact IH].
Qed.

End TraceLemmas.

Section EndsLemmas.

Context {W : Type}.

Lemma ends_ret {A} (a : A) : ends (W:=W) (ret a).
Proof. intros s. discriminate. Qed.

Lemma ends_throw {A} (e : string) : ends (W:=W) (A:=A) (throw e).
Proof. intros s. discriminate. Qed.

Lemma ends_emit (ev : Event) : ends (W:=W) (emit ev).
Proof. intros s. discriminate. Qed.

Lemma ends_call {A} (ev : Event) (f : W -> result A * W) : ends (call ev f).
Proof.
  intros s. unfold call. destruct (f (fst s)) as [[a|e] w']; discriminate.
Qed.

Lemma ends_pure_call {A} (r : result A) : ends (W:=W) (pure_call r).
Proof. intros s. unfold pure_call. destruct r; discriminate. Qed.

Lemma ends_bind {A B} (m : M (W:=W) A) (k : A -> M B) :
  ends m -> (forall a, ends (k a)) -> ends (bind m k).
Proof.
  intros Hm Hk s. unfold bind. specialize (Hm s).
  destruct (m s) as [[a|e|] s1]; simpl in *; [apply Hk | discriminate | congruence].
Qed.

End EndsLemmas.

Ltac trace_step :=
  first
    [ apply adds_only_ret | apply adds_only_throw | apply adds_only_hang
    | apply adds_only_pure_call
    | apply adds_only_emit | apply adds_only_call
    | apply adds_only_bind; [|intros ?]
    | apply adds_only_try_catch; [|intros ?]
    | apply adds_only_for_of; intros ? ].

Ltac ends_step :=
  first
    [ apply ends_ret | apply ends_throw | apply ends_emit | apply ends_call
    | apply ends_pure_call | apply ends_bind; [|intros ?] ].

Ltac trace_auto_with tac :=
  repeat (tac
          || trace_step
          || match goal with
             | |- adds_only _ (if ?b then _ else _) => destruct b
             | |- adds_only _ (match ?o with Some _ => _ | None => _ end) => destruct o
             end).

Ltac trace_auto := trace_auto_with fail.

(** ** One batch *)

Section BatchFacts.

Context {W : Type}.
Variable net : Network W.
Variable this : Graphinator.
Variable DRY_RUN : option string.

Lemma body_ends tok flows gp :
  ends (batchLiquidateFlows_body net this DRY_RUN tok flows gp).
Proof.
  unfold batchLiquidateFlows_body, _generateBatchLiquidationTxData,
    _estimateGasLimit, log.
  repeat (ends_step
          || match goal with
             | |- ends (if ?b then _ else _) => destruct b
             end).
Qed.

(** [batchLiquidateFlows] runs its body after recording the call; what the
    body throws goes to [console.error] and no further. *)
Lemma batchLiquidateFlows_unfold tok flows gp (s : W * list Event) :
  batchLiquidateFlows net this DRY_RUN tok flows gp s =
    match batchLiquidateFlows_body net this DRY_RUN tok flows gp
            (fst s, snd s ++ [EBatchLiquidateFlows tok flows gp]) with
    | (Raised e, s1) => (Done tt, (fst s1, snd s1 ++ [EConsoleError e]))
    | r => r
    end.
Proof. reflexivity. Qed.

Lemma batchLiquidateFlows_done tok flows gp (s : W * list Event) :
  fst (batchLiquidateFlows net this DRY_RUN tok flows gp s) = Done tt.
Proof.
  rewrite batchLiquidateFlows_unfold.
  pose proof (body_ends tok flows gp
                (fst s, snd s ++ [EBatchLiquidateFlows tok flows gp])) as He.
  destruct (batchLiquidateFlows_body _ _ _ _ _ _ _) as [[[]|e|] s1];
    simpl in *; congruence.
Qed.

Lemma body_attempts_nothing tok flows gp :
  adds_only (fun ev => attempt_of ev = None)
    (batchLiquidateFlows_body net this DRY_RUN tok flows gp).
Proof.
  unfold batchLiquidateFlows_body, _generateBatchLiquidationTxData,
    _estimateGasLimit, log.
  trace_auto; reflexivity.
Qed.

Lemma omap_none {A B} (f : A -> option B) (l : list A) :
  Forall (fun x => f x = None) l -> omap f l = [].
Proof.
  induction 1 as [|x l Hx _ IH]; [reflexivity|]. simpl. now rewrite Hx.
Qed.

Lemma batchLiquidateFlows_attempted tok flows gp (s : W * list Event) :
  attempted (snd (snd (batchLiquidateFlows net this DRY_RUN tok flows gp s)))
  = attempted (snd s) ++ [(tok, flows, gp)].
Proof.
  rewrite batchLiquidateFlows_unfold.
  destruct (body_attempts_nothing tok flows gp
              (fst s, snd s ++ [EBatchLiquidateFlows tok flows gp]))
    as (new & E & Hnew).
  simpl in E. apply omap_none in Hnew. unfold attempted.
  destruct (batchLiquidateFlows_body _ _ _ _ _ _ _) as [[[]|e|] s1];
    simpl in *; rewrite E; rewrite !omap_app; fold (attempted (snd s));
    rewrite Hnew; simpl; now rewrite ?app_nil_r.
Qed.

Lemma submitChunks_attempts tok chunks (cur : Q) (s : W * list Event) :
  fst (submitChunks net this DRY_RUN tok chunks cur s) = Done tt
  /\ attempted (snd (snd (submitChunks net this DRY_RUN tok chunks cur s)))
     = attempted (snd s)
       ++ map (fun chunk => (tok, chunk, Js.Math_floor (cur * (12 # 10))%Q)) chunks.
Proof.
  unfold submitChunks.
  generalize (Js.Math_floor (cur * (12 # 10))%Q). intros gp. revert s.
  induction chunks as [|chunk chunks IH]; intros s.
  - simpl. now rewrite app_nil_r.
  - cbn [for_of map]. unfold bind.
    pose proof (batchLiquidateFlows_done tok chunk gp s) as Hd.
    pose proof (batchLiquidateFlows_attempted tok chunk gp s) as Ha.
    destruct (batchLiquidateFlows _ _ _ _ _ _ _) as [[[]|e|] s1];
      simpl in Hd; try discriminate Hd.
    simpl in Ha. destruct (IH s1) as [IH1 IH2]. split; [exact IH1|].
    rewrite IH2, Ha. now rewrite <- app_assoc.
Qed.

(** C7: whatever the network client, the signer and the contract do,
    [batchLiquidateFlows] returns normally; an error thrown while the batch
    is processed is handed to [console.error] and goes no further; the loop
    over the chunks of a token therefore returns normally after attempting
    every chunk, in order, and the only error that the processing of the
    flows of a token can throw towards the loop over the tokens is the one
    of the missing gas price, before any batch. *)
Theorem batch_failures_are_isolated tok :
  (forall flows gp (s : W * list Event),
     fst (batchLiquidateFlows net this DRY_RUN tok flows gp s) = Done tt
     /\ snd (batchLiquidateFlows net this DRY_RUN tok flows gp s)
        = match batchLiquidateFlows_body net this DRY_RUN tok flows gp
                  (fst s, snd s ++ [EBatchLiquidateFlows tok flows gp]) with
          | (Raised e, s1) => (fst s1, snd s1 ++ [EConsoleError e])
          | (_, s1) => s1
          end)
  /\ (forall chunks currentGasPrice (s : W * list Event),
        fst (submitChunks net this DRY_RUN tok chunks currentGasPrice s) = Done tt
        /\ attempted
             (snd (snd (submitChunks net this DRY_RUN tok chunks currentGasPrice s)))
           = attempted (snd s)
             ++ map (fun chunk =>
                       (tok, chunk, Js.Math_floor (currentGasPrice * (12 # 10))%Q))
                  chunks)
  /\ (forall flows currentGasPrice (s : W * list Event),
        match processFlowsAtGasPrice net this DRY_RUN tok flows currentGasPrice s with
        | (Raised e, s1) =>
            Js.truthy currentGasPrice = false
            /\ e = "Current gas price not found"%string /\ s1 = s
        | _ => Js.truthy currentGasPrice = true
        end).
Proof.
  split; [|split].
  - intros flows gp s. split; [apply batchLiquidateFlows_done|].
    rewrite batchLiquidateFlows_unfold.
    destruct (batchLiquidateFlows_body _ _ _ _ _ _ _) as [[[]|e|] s1]; reflexivity.
  - intros chunks cur s. apply submitChunks_attempts.
  - intros flows cur s. unfold processFlowsAtGasPrice.
    destruct (Js.truthy cur); cbn [negb]; [|now cbn].
    unfold bind, log, emit. cbn [fst snd].
    destruct (_chunkArray _ _) as [chunks|]; [|reflexivity].
    match goal with
    | |- context [submitChunks net this DRY_RUN tok chunks cur ?s0] =>
        pose proof (submitChunks_attempts tok chunks cur s0) as [Hd _];
        destruct (submitChunks net this DRY_RUN tok chunks cur s0) as [[[]|e|] s1]
    end; simpl in Hd; try discriminate Hd. reflexivity.
Qed.

End BatchFacts.

(** ** Dry runs *)

Section DryRunFacts.

Context {W : Type}.
Variable net : Network W.
Variable this : Graphinator.
Variable DRY_RUN : option string.
Hypothesis dry : Js.truthy_str DRY_RUN = true.

Lemma batchLiquidateFlows_dry tok flows gp :
  adds_only (fun ev => is_submission ev = false)
    (batchLiquidateFlows net this DRY_RUN tok flows gp).
Proof.
  unfold batchLiquidateFlows, batchLiquidateFlows_body,
    _generateBatchLiquidationTxData, _estimateGasLimit, log.
  rewrite dry. trace_auto; reflexivity.
Qed.

Lemma processAll_dry tok :
  adds_only (fun ev => is_submission ev = false)
    (processAll net this DRY_RUN tok).
Proof.
  unfold processAll, processToken, processFlowsAtGasPrice, submitChunks,
    _getSuperTokens, log.
  trace_auto_with ltac:(apply batchLiquidateFlows_dry); reflexivity.
Qed.

Lemma batchLiquidateFlows_dry_last tok flows gp (s : W * list Event) :
  exists ev,
    last (snd (snd (batchLiquidateFlows net this DRY_RUN tok flows gp s))) = Some ev
    /\ ((exists tx, ev = ELog (LogDryRun tx) /\ gasPrice tx = gp)
        \/ (exists e, ev = EConsoleError e)).
Proof.
  rewrite batchLiquidateFlows_unfold.
  unfold batchLiquidateFlows_body, _generateBatchLiquidationTxData,
    _estimateGasLimit, log.
  rewrite dry.
  destruct (negb _).
  { simpl. eexists. rewrite last_snoc. eauto. }
  unfold bind, pure_call, call, ret, emit. simpl.
  destruct (encodeFunctionData _ _ _) as [d|e]; simpl.
  2:{ eexists. rewrite last_snoc. eauto. }
  destruct (getAddress _ _) as [[a|e] w1]; simpl.
  2:{ eexists. rewrite last_snoc. eauto. }
  destruct (estimateGas _ _ _ _) as [[g|e] w2]; simpl.
  2:{ eexists. rewrite last_snoc. eauto. }
  destruct (getNetwork _ _) as [[c|e] w3]; simpl.
  2:{ eexists. rewrite last_snoc. eauto. }
  destruct (getTransactionCount _ _ _) as [[n|e] w4]; simpl.
  2:{ eexists. rewrite last_snoc. eauto. }
  eexists. rewrite last_snoc. split; [reflexivity|]. left. eauto.
Qed.

End DryRunFacts.

(** C8: when [DRY_RUN] is set, [batchLiquidateFlows] calls neither
    [signTransaction] nor [broadcastTransaction], for any batch and
    whatever the network answers, and so does a whole run of [processAll];
    the last thing [batchLiquidateFlows] does is to log the assembled
    request, or the error that kept it from assembling one. *)
Theorem dry_run_never_submits {W : Type} (net : Network W) (this : Graphinator)
    (DRY_RUN : option string) :
  Js.truthy_str DRY_RUN = true ->
  (forall tok flows gp,
     adds_only (fun ev => is_submission ev = false)
       (batchLiquidateFlows net this DRY_RUN tok flows gp))
  /\ (forall tok,
        adds_only (fun ev => is_submission ev = false)
          (processAll net this DRY_RUN tok))
  /\ (forall tok flows gp (s : W * list Event),
        exists ev,
          last (snd (snd (batchLiquidateFlows net this DRY_RUN tok flows gp s)))
          = Some ev
          /\ ((exists tx, ev = ELog (LogDryRun tx) /\ gasPrice tx = gp)
              \/ (exists e, ev = EConsoleError e))).
Proof.
  intros dry. split; [|split].
  - intros tok flows gp. now apply batchLiquidateFlows_dry.
  - intros tok. now apply processAll_dry.
  - intros tok flows gp s. now apply batchLiquidateFlows_dry_last.
Qed.

Lemma dry_run_never_submits_witness :
  Js.truthy_str (Some "true"%string) = true
  /\ exists new,
       snd (snd (processAll (Example.network (Some 1000000001)) Example.ghr
                   (Some "true"%string) None Example.start))
       = snd Example.start ++ new
       /\ Forall (fun ev => is_submission ev = false) new.
Proof.
  split; [reflexivity|].
  destruct (dry_run_never_submits (Example.network (Some 1000000001)) Example.ghr
              (Some "true"%string) eq_refl) as (_ & H & _).
  exact (H None Example.start).
Defined.

(** ** One token *)

Section TokenFacts.

Context {W : Type}.
Variable net : Network W.
Variable this : Graphinator.
Variable DRY_RUN : option string.

(** [processToken] once the flows and the fee are there. *)
Lemma processToken_unfold tokenAddr (s : W * list Event) flows w1 fee w2 :
  getFlowsToLiquidate net tokenAddr (depositConsumedPctThreshold this)
    (_calculateMaxGasPrice this) (fst s) = (Returns flows, w1) ->
  flows <> [] ->
  getFeeData net w1 = (Returns fee, w2) ->
  processToken net this DRY_RUN tokenAddr s
  = processFlowsAtGasPrice net this DRY_RUN tokenAddr flows (Number_of_gasPrice fee)
      (w2, snd s ++ [EGetFlowsToLiquidate tokenAddr; ELog (LogFound (length flows));
                     EGetFeeData]).
Proof.
  intros Hflows Hne Hfee. unfold processToken.
  unfold bind at 1. unfold call at 1. rewrite Hflows.
  destruct flows as [|f flows]; [congruence|].
  change (0 <? length (f :: flows))%nat with true. cbv iota.
  unfold bind at 1. unfold log at 1, emit at 1.
  unfold bind at 1. unfold call at 1. cbn [fst snd]. rewrite Hfee.
  rewrite <- !app_assoc. reflexivity.
Qed.

Lemma batchLiquidateFlows_at_price tok flows gp :
  adds_only (at_price gp) (batchLiquidateFlows net this DRY_RUN tok flows gp).
Proof.
  unfold batchLiquidateFlows, batchLiquidateFlows_body,
    _generateBatchLiquidationTxData, _estimateGasLimit, log.
  trace_auto;
    (split; [reflexivity | split; intros x Hx; inversion Hx; reflexivity]).
Qed.

Lemma processFlowsAtGasPrice_at_price tokenAddr flows (cur : Q) :
  adds_only (at_price (Js.Math_floor (cur * (12 # 10))%Q))
    (processFlowsAtGasPrice net this DRY_RUN tokenAddr flows cur).
Proof.
  unfold processFlowsAtGasPrice, submitChunks, log.
  trace_auto_with ltac:(apply batchLiquidateFlows_at_price);
    (split; [reflexivity | split; intros x Hx; inversion Hx]).
Qed.

Lemma at_price_requests gp (new : list Event) :
  Forall (at_price gp) new ->
  List.filter is_fee_lookup new = []
  /\ Forall (fun tx => gasPrice tx = gp) (requests new)
  /\ Forall (fun a => snd a = gp) (attempted new).
Proof.
  induction 1 as [|ev new (Hf & Ht & Ha) _ (IH1 & IH2 & IH3)].
  - repeat split; constructor.
  - split; [|split].
    + simpl. now rewrite Hf.
    + unfold requests. simpl. destruct (tx_of ev) as [tx|] eqn:E; [|exact IH2].
      constructor; [now apply Ht | exact IH2].
    + unfold attempted. simpl. destruct (attempt_of ev) as [a|] eqn:E; [|exact IH3].
      constructor; [now apply Ha | exact IH3].
Qed.

End TokenFacts.

(** ** The gas price of the requests *)

(** C9 (amended): once the flows of a token and the fee are there, the fee
    is looked up once for the token and every transaction request of the
    token, signed or logged by a dry run, has the gas price
    floor(currentGasPrice * 1.2), which is also what every call of
    [batchLiquidateFlows] receives; no ceiling of a flow enters it. *)
Theorem requests_bid_floor_of_fee {W : Type} (net : Network W) (this : Graphinator)
    (DRY_RUN : option string) (tokenAddr : string) (s : W * list Event)
    (flows : list Flow) (w1 : W) (fee : option Z) (w2 : W) :
  getFlowsToLiquidate net tokenAddr (depositConsumedPctThreshold this)
    (_calculateMaxGasPrice this) (fst s) = (Returns flows, w1) ->
  flows <> [] ->
  getFeeData net w1 = (Returns fee, w2) ->
  exists new,
    snd (snd (processToken net this DRY_RUN tokenAddr s)) = snd s ++ new
    /\ length (List.filter is_fee_lookup new) = 1%nat
    /\ Forall
         (fun tx => gasPrice tx
                    = Js.Math_floor (Number_of_gasPrice fee * (12 # 10))%Q)
         (requests new)
    /\ Forall
         (fun a => snd a = Js.Math_floor (Number_of_gasPrice fee * (12 # 10))%Q)
         (attempted new).
Proof.
  intros Hflows Hne Hfee.
  rewrite (processToken_unfold net this DRY_RUN tokenAddr s flows w1 fee w2)
    by assumption.
  destruct (processFlowsAtGasPrice_at_price net this DRY_RUN tokenAddr flows
              (Number_of_gasPrice fee)
              (w2, snd s ++ [EGetFlowsToLiquidate tokenAddr;
                             ELog (LogFound (length flows)); EGetFeeData]))
    as (new & E & Hnew).
  apply at_price_requests in Hnew as (Hf & Hr & Ha).
  exists ([EGetFlowsToLiquidate tokenAddr; ELog (LogFound (length flows));
           EGetFeeData] ++ new).
  split; [|split; [|split]].
  - rewrite E. simpl. now rewrite <- app_assoc.
  - rewrite List.filter_app, Hf. reflexivity.
  - exact Hr.
  - exact Ha.
Qed.

Lemma requests_bid_floor_of_fee_witness :
  exists new,
    snd (snd (processToken (Example.network (Some 1000000001)) Example.ghr None
                "0xaa"%string Example.start))
    = snd Example.start ++ new
    /\ length (List.filter is_fee_lookup new) = 1%nat
    /\ Forall (fun tx => gasPrice tx = 1200000001) (requests new)
    /\ Forall (fun a => snd a = 1200000001) (attempted new).
Proof.
  apply (requests_bid_floor_of_fee (Example.network (Some 1000000001)) Example.ghr
           None "0xaa"%string Example.start (Example.flowsOf "0xaa"%string) 0
           (Some 1000000001) 0).
  - reflexivity.
  - discriminate.
  - reflexivity.
Defined.

(** With a fee of 1000000001 the two requests of the token carry the gas
    price 1200000001, which is not 1000000001 * 1.2 = 1200000001.2. *)
Lemma bid_is_not_the_exact_product :
  map gasPrice
    (requests
       (snd (snd (processToken (Example.network (Some 1000000001)) Example.ghr None
                    "0xaa"%string Example.start))))
  = [1200000001; 1200000001]
  /\ ~ (inject_Z 1200000001 == inject_Z 1000000001 * (12 # 10))%Q.
Proof.
  split; [reflexivity|]. intros E. vm_compute in E. discriminate E.
Qed.

(** ** No current gas price *)

(** C1 (amended): when a token has flows to liquidate and the fee data
    carry no gas price (null or zero), the loop of [processAll] over the
    tokens throws "Current gas price not found" right after the fee
    lookup: no batch is attempted for the token and the remaining tokens
    of the run are not processed. *)
Theorem missing_gas_price_aborts_run {W : Type} (net : Network W)
    (this : Graphinator) (DRY_RUN : option string) (tokenAddr : string)
    (remaining : list string) (s : W * list Event) (flows : list Flow) (w1 : W)
    (fee : option Z) (w2 : W) :
  getFlowsToLiquidate net tokenAddr (depositConsumedPctThreshold this)
    (_calculateMaxGasPrice this) (fst s) = (Returns flows, w1) ->
  flows <> [] ->
  getFeeData net w1 = (Returns fee, w2) ->
  Js.truthy (Number_of_gasPrice fee) = false ->
  for_of (tokenAddr :: remaining) (processToken net this DRY_RUN) s
  = (Raised "Current gas price not found",
     (w2, snd s ++ [EGetFlowsToLiquidate tokenAddr; ELog (LogFound (length flows));
                    EGetFeeData])).
Proof.
  intros Hflows Hne Hfee Hfalsy. cbn [for_of]. unfold bind.
  rewrite (processToken_unfold net this DRY_RUN tokenAddr s flows w1 fee w2)
    by assumption.
  unfold processFlowsAtGasPrice. rewrite Hfalsy. reflexivity.
Qed.

Lemma missing_gas_price_aborts_run_witness :
  for_of ["0xaa"%string; "0xbb"%string]
    (processToken (Example.network None) Example.ghr None) Example.start
  = (Raised "Current gas price not found",
     (0, [EGetFlowsToLiquidate "0xaa"; ELog (LogFound 3); EGetFeeData])).
Proof.
  apply (missing_gas_price_aborts_run (Example.network None) Example.ghr None
           "0xaa"%string ["0xbb"%string] Example.start
           (Example.flowsOf "0xaa"%string) 0 None 0).
  - reflexivity.
  - discriminate.
  - reflexivity.
  - reflexivity.
Defined.

(** A run over the tokens 0xaa and 0xbb, both with flows to liquidate,
    without a gas price: the run throws and the flows of 0xbb are never
    asked for. *)
Lemma missing_gas_price_stops_other_tokens :
  fst (processAll (Example.network None) Example.ghr None None Example.start)
  = Raised "Current gas price not found"
  /\ fetched
       (snd (snd (processAll (Example.network None) Example.ghr None None
                    Example.start)))
     = ["0xaa"%string]
  /\ Example.flowsOf "0xbb"%string <> [].
Proof.
  split; [reflexivity|]. split; [reflexivity | discriminate].
Qed.

(** ** Runs of the example *)

(** Every gas estimation fails: the run still attempts the three batches
    of the two tokens, reports three errors and returns. *)
Example flaky_run_attempts_every_batch :
  fst (processAll (Example.flaky (Some 1000000001)) Example.ghr None None
         Example.start) = Done tt
  /\ map (fun a => length (snd (fst a)))
       (attempted
          (snd (snd (processAll (Example.flaky (Some 1000000001)) Example.ghr
                       None None Example.start))))
     = [2%nat; 1%nat; 1%nat]
  /\ List.filter is_submission
       (snd (snd (processAll (Example.flaky (Some 1000000001)) Example.ghr
                    None None Example.start)))
     = [].
Proof. repeat split. Qed.

(** * Further properties of the gas price policy *)

Lemma baseMaxGasPrice_ge_min this flow :
  limits_accepted this = true ->
  (minGasPriceLimit this <= baseMaxGasPrice this flow)%Q.
Proof.
  intros Hok. apply limits_accepted_le in Hok as [Hf _].
  unfold baseMaxGasPrice.
  destruct (dailyNFR _ _) as [d|]; [|assumption].
  destruct (Js.truthy _); [|assumption].
  unfold Js.Math_max. apply Q.le_max_l.
Qed.

Lemma timeMultiplier_le_11 (flow : Flow) : (timeMultiplier flow <= 11)%Q.
Proof.
  destruct (Qlt_le_dec 100 (consumedDepositPercentage flow)) as [H | H].
  - rewrite (timeMultiplier_high _ H). unfold Js.Math_min.
    pose proof (Q.le_min_r
                  ((consumedDepositPercentage flow - 100) * 4 / 100 / 24) 10).
    lra.
  - rewrite (timeMultiplier_low _ H). discriminate.
Qed.

(** X1: the multiplier of every flow lies between 1 and 11. *)
Theorem timeMultiplier_bounds (flow : Flow) :
  (1 <= timeMultiplier flow <= 11)%Q.
Proof.
  split; [apply timeMultiplier_ge_1 | apply timeMultiplier_le_11].
Qed.

Lemma calculateMaxGasPrice_ge_min this flow :
  limits_accepted this = true ->
  (0 <= minGasPriceLimit this)%Q ->
  Js.Math_round (minGasPriceLimit this) <= _calculateMaxGasPrice this flow.
Proof.
  intros Hok H0. unfold _calculateMaxGasPrice. apply Math_round_mono.
  pose proof (baseMaxGasPrice_ge_min this flow Hok) as Hb.
  pose proof (timeMultiplier_ge_1 flow) as Ht.
  apply Qle_trans with (baseMaxGasPrice this flow * 1)%Q; [lra|].
  apply Qmult_le_compat_nonneg.
  - split; [lra | apply Qle_refl].
  - split; [discriminate | exact Ht].
Qed.

Lemma calculateMaxGasPrice_within_base this flow :
  limits_accepted this = true ->
  (0 <= minGasPriceLimit this)%Q ->
  Js.Math_round (baseMaxGasPrice this flow) <= _calculateMaxGasPrice this flow
  /\ _calculateMaxGasPrice this flow
     <= Js.Math_round (11 * baseMaxGasPrice this flow)%Q.
Proof.
  intros Hok H0.
  pose proof (baseMaxGasPrice_nonneg this flow Hok H0) as Hb.
  pose proof (timeMultiplier_ge_1 flow) as H1.
  pose proof (timeMultiplier_le_11 flow) as H11.
  unfold _calculateMaxGasPrice. split; apply Math_round_mono.
  - apply Qle_trans with (baseMaxGasPrice this flow * 1)%Q; [lra|].
    apply Qmult_le_compat_nonneg.
    + split; [exact Hb | apply Qle_refl].
    + split; [discriminate | exact H1].
  - rewrite (Qmult_comm 11). apply Qmult_le_compat_nonneg.
    + split; [exact Hb | apply Qle_refl].
    + split; [lra | exact H11].
Qed.

(** X2: for limits that the constructor accepts and a minimum that is not
    negative, the ceiling of every flow, whatever its token, rate and
    consumed deposit, is at least the rounded minimum limit. *)
Theorem ceiling_at_least_minimum this flow :
  limits_accepted this = true ->
  (0 <= minGasPriceLimit this)%Q ->
  Js.Math_round (minGasPriceLimit this) <= _calculateMaxGasPrice this flow.
Proof.
  intros Hok H0. unfold _calculateMaxGasPrice. apply Math_round_mono.
  apply limits_accepted_le in Hok as [Hf _].
  assert (Hb : (minGasPriceLimit this <= baseMaxGasPrice this flow)%Q).
  { unfold baseMaxGasPrice.
    destruct (dailyNFR _ _) as [d|]; [|exact Hf].
    destruct (Js.truthy _); [|exact Hf].
    unfold Js.Math_max. apply Q.le_max_l. }
  pose proof (timeMultiplier_ge_1 flow) as Ht.
  apply Qle_trans with (baseMaxGasPrice this flow * 1)%Q; [lra|].
  apply Qmult_le_compat_nonneg.
  - split; [lra | apply Qle_refl].
  - split; [discriminate | exact Ht].
Qed.

Lemma ceiling_at_least_minimum_witness :
  100000000 <= _calculateMaxGasPrice Example.ghr Example.dust
  /\ 100000000 <= _calculateMaxGasPrice Example.ghr Example.flowU.
Proof.
  split.
  - apply (ceiling_at_least_minimum Example.ghr Example.dust);
      [reflexivity | discriminate].
  - apply (ceiling_at_least_minimum Example.ghr Example.flowU);
      [reflexivity | discriminate].
Defined.

(** X3: for limits that the constructor accepts and a minimum that is not
    negative, the ceiling of a flow lies between its rounded base ceiling
    and eleven times the base ceiling, rounded. *)
Theorem ceiling_within_eleven_times_base this flow :
  limits_accepted this = true ->
  (0 <= minGasPriceLimit this)%Q ->
  Js.Math_round (baseMaxGasPrice this flow) <= _calculateMaxGasPrice this flow
  /\ _calculateMaxGasPrice this flow
     <= Js.Math_round (11 * baseMaxGasPrice this flow)%Q.
Proof.
  intros Hok H0.
  assert (Hb : (0 <= baseMaxGasPrice this flow)%Q)
    by (apply Qle_trans with (minGasPriceLimit this);
        [exact H0 | now apply baseMaxGasPrice_ge_min]).
  pose proof (timeMultiplier_ge_1 flow) as H1.
  pose proof (timeMultiplier_le_11 flow) as H11.
  unfold _calculateMaxGasPrice. split; apply Math_round_mono.
  - rewrite <- (Qmult_1_r (baseMaxGasPrice this flow)) at 1.
    apply Qmult_le_compat_nonneg.
    + split; [exact Hb | apply Qle_refl].
    + split; [discriminate | exact H1].
  - rewrite (Qmult_comm 11). apply Qmult_le_compat_nonneg.
    + split; [exact Hb | apply Qle_refl].
    + split; [lra | exact H11].
Qed.

Lemma ceiling_within_eleven_times_base_witness :
  Js.Math_round (baseMaxGasPrice Example.ghr Example.flowOld)
  <= _calculateMaxGasPrice Example.ghr Example.flowOld
  /\ _calculateMaxGasPrice Example.ghr Example.flowOld
     <= Js.Math_round (11 * baseMaxGasPrice Example.ghr Example.flowOld)%Q.
Proof.
  apply (ceiling_within_eleven_times_base Example.ghr Example.flowOld);
    [reflexivity | discriminate].
Defined.

Lemma calculateMaxGasPrice_mono_consumed_witness :
  _calculateMaxGasPrice Example.ghr (with_consumed Example.flowA1 150)
  <= _calculateMaxGasPrice Example.ghr (with_consumed Example.flowA1 400).
Proof.
  apply (calculateMaxGasPrice_mono_consumed Example.ghr Example.flowA1 150 400).
  - reflexivity.
  - discriminate.
  - discriminate.
Defined.

Lemma calculateMaxGasPrice_mono_price_witness :
  _calculateMaxGasPrice
    (with_prices Example.ghr (<[token Example.flowA1 := 2%Q]> Example.prices))
    Example.flowA1
  <= _calculateMaxGasPrice
       (with_prices Example.ghr (<[token Example.flowA1 := 3%Q]> Example.prices))
       Example.flowA1.
Proof.
  apply (calculateMaxGasPrice_mono_price Example.ghr Example.flowA1 2 3).
  - discriminate.
  - discriminate.
  - discriminate.
  - reflexivity.
  - discriminate.
  - vm_compute. discriminate.
Defined.

(** X6: for limits that the constructor accepts and a minimum that is not
    negative, the filter keeps every flow when the current gas price is at
    most the rounded minimum limit. *)
Theorem filter_keeps_all_at_minimum this (flows : list Flow) (currentGasPrice : Q) :
  limits_accepted this = true ->
  (0 <= minGasPriceLimit this)%Q ->
  (currentGasPrice <= inject_Z (Js.Math_round (minGasPriceLimit this)))%Q ->
  flowsWorthLiquidating this flows currentGasPrice = flows.
Proof.
  intros Hok H0 Hcur. unfold flowsWorthLiquidating.
  induction flows as [|flow flows IH]; [reflexivity|].
  simpl. rewrite IH.
  assert (Hge : Js.ge (inject_Z (_calculateMaxGasPrice this flow)) currentGasPrice
                = true).
  { unfold Js.ge. apply Qle_bool_iff.
    apply Qle_trans with (inject_Z (Js.Math_round (minGasPriceLimit this)));
      [exact Hcur|].
    rewrite <- Zle_Qle. now apply calculateMaxGasPrice_ge_min. }
  now rewrite Hge.
Qed.

Lemma filter_keeps_all_at_minimum_witness :
  flowsWorthLiquidating Example.ghr
    [Example.dust; Example.flowA1; Example.flowU] (inject_Z 100000000)
  = [Example.dust; Example.flowA1; Example.flowU].
Proof.
  apply (filter_keeps_all_at_minimum Example.ghr
           [Example.dust; Example.flowA1; Example.flowU] (inject_Z 100000000)).
  - reflexivity.
  - discriminate.
  - vm_compute. discriminate.
Defined.

(** * Further properties of the batch selector *)

(** With a size that is an integer of at least one, the chunks that the
    loop adds are the successive windows of [size] elements of the rest of
    the array. *)
Lemma chunk_loop_windows {T} (size : Q) (n : Z) (a : list T) :
  (size == inject_Z n)%Q ->
  1 <= n ->
  forall (fuel : nat) (i : Q) (k : Z) (chunks : list (list T)),
    (i == inject_Z k)%Q ->
    0 <= k ->
    (Z.to_nat (Z.of_nat (length a) - k) < fuel)%nat ->
    exists rest,
      chunk_loop fuel a size i chunks = Some (chunks ++ rest)
      /\ forall j : nat,
           rest !! j
           = if k + Z.of_nat j * n <? Z.of_nat (length a) then
               Some (take (Z.to_nat n) (drop (Z.to_nat (k + Z.of_nat j * n)) a))
             else None.
Proof.
  intros Es Hn fuel.
  induction fuel as [|fuel IH]; intros i k chunks Ei Hk Hfuel; [lia|].
  simpl. destruct (Js.lt i (inject_Z (Z.of_nat (length a)))) eqn:Hlt.
  - apply lt_true_iff in Hlt. rewrite Ei, <- Zlt_Qlt in Hlt.
    destruct (IH (i + size)%Q (k + n) (chunks ++ [Js.slice a i (i + size)%Q]))
      as (rest & E & Hw); [| lia | lia |].
    { rewrite Ei, Es, inject_Z_plus. reflexivity. }
    exists (Js.slice a i (i + size)%Q :: rest). split.
    + rewrite E. now rewrite <- app_assoc.
    + intros [|j].
      * simpl. rewrite Z.add_0_r.
        destruct (Z.ltb_spec k (Z.of_nat (length a))); [|lia].
        now rewrite (slice_window a i size k n) by (assumption || lia).
      * simpl. rewrite Hw.
        replace (k + n + Z.of_nat j * n) with (k + Z.pos (Pos.of_succ_nat j) * n)
          by lia.
        reflexivity.
  - apply lt_false_iff in Hlt. rewrite Ei, <- Zle_Qle in Hlt.
    exists []. split; [now rewrite app_nil_r|].
    intros j. rewrite lookup_nil.
    destruct (Z.ltb_spec (k + Z.of_nat j * n) (Z.of_nat (length a))); [nia|].
    reflexivity.
Qed.

(** X7: for a size that is an integer n of at least one, [_chunkArray] ends and
    cuts the array in ceil(length / n) chunks; chunk number j is the
    window of n elements that starts at index j * n, so only the last chunk
    can be shorter than n; put end to end, the chunks are the array. *)
Theorem chunkArray_windows {T} (a : list T) (size : Q) (n : Z) :
  (size == inject_Z n)%Q ->
  1 <= n ->
  exists chunks,
    _chunkArray a size = Some chunks
    /\ concat chunks = a
    /\ Z.of_nat (length chunks) = (Z.of_nat (length a) + n - 1) / n
    /\ forall j : nat,
         chunks !! j
         = if Z.of_nat j * n <? Z.of_nat (length a) then
             Some (take (Z.to_nat n) (drop (Z.to_nat (Z.of_nat j * n)) a))
           else None.
Proof.
  intros Es Hn.
  destruct (chunkArray_spec a size n Es Hn) as (chunks & E & Hc & _).
  exists chunks. split; [exact E|]. split; [exact Hc|].
  unfold _chunkArray in E.
  destruct (chunk_loop_windows size n a Es Hn (S (length a)) 0%Q 0 [])
    as (rest & E' & Hw); [reflexivity | lia | lia |].
  change ([] ++ rest) with rest in E'.
  assert (Er : rest = chunks) by exact (chunk_loop_agree _ _ _ _ _ _ _ _ E' E).
  subst rest. clear E'.
  assert (Hw' : forall j : nat,
            chunks !! j
            = if Z.of_nat j * n <? Z.of_nat (length a) then
                Some (take (Z.to_nat n) (drop (Z.to_nat (Z.of_nat j * n)) a))
              else None).
  { intros j. rewrite Hw. now rewrite Z.add_0_l. }
  clear Hw. rename Hw' into Hw.
  split; [|exact Hw].
  set (len := Z.of_nat (length a)) in *.
  set (m := length chunks) in *.
  assert (Hm : ~ (Z.of_nat m * n < len)).
  { intros Hlt. pose proof (Hw m) as Hm.
    rewrite (proj2 (lookup_ge_None chunks m)) in Hm by (subst m; lia).
    rewrite (proj2 (Z.ltb_lt _ _) Hlt) in Hm. discriminate Hm. }
  assert (Hp : forall j : nat, (j < m)%nat -> Z.of_nat j * n < len).
  { intros j Hj. pose proof (Hw j) as Hwj.
    destruct (lookup_lt_is_Some_2 chunks j Hj) as [c Hcj]. rewrite Hcj in Hwj.
    destruct (Z.ltb_spec (Z.of_nat j * n) len) as [Hlt | Hge];
      [assumption | discriminate Hwj]. }
  assert (Hlen : 0 <= len) by (subst len; lia).
  destruct m as [|m'].
  - assert (len = 0) by lia.
    replace (len + n - 1) with (n - 1) by lia.
    rewrite Z.div_small by lia. reflexivity.
  - specialize (Hp m' ltac:(lia)).
    apply Z.div_unique with (len + n - 1 - n * Z.of_nat (S m')); [left; nia | nia].
Qed.

Lemma chunkArray_windows_witness :
  exists chunks,
    _chunkArray [1; 2; 3; 4; 5] 2%Q = Some chunks
    /\ concat chunks = [1; 2; 3; 4; 5]
    /\ Z.of_nat (length chunks) = (Z.of_nat (length [1; 2; 3; 4; 5]) + 2 - 1) / 2
    /\ forall j : nat,
         chunks !! j
         = if Z.of_nat j * 2 <? Z.of_nat (length [1; 2; 3; 4; 5]) then
             Some (take (Z.to_nat 2) (drop (Z.to_nat (Z.of_nat j * 2)) [1; 2; 3; 4; 5]))
           else None.
Proof.
  apply (chunkArray_windows [1; 2; 3; 4; 5] 2%Q 2).
  - reflexivity.
  - lia.
Defined.

(** X8: with a size of zero or less, [_chunkArray] returns no chunk for the
    empty array and never returns for any other array. *)
Theorem chunkArray_nonpositive_size {T} (size : Q) :
  (size <= 0)%Q ->
  _chunkArray (@nil T) size = Some []
  /\ forall (x : T) (a : list T) (fuel : nat),
       chunk_loop fuel (x :: a) size 0%Q [] = None.
Proof.
  intros Hs. split; [apply chunkArray_nil|].
  intros x a fuel. apply chunk_loop_diverges; [exact Hs | discriminate | apply Qle_refl].
Qed.

Lemma chunkArray_nonpositive_size_witness :
  _chunkArray (@nil Z) (-1)%Q = Some []
  /\ forall (x : Z) (a : list Z) (fuel : nat),
       chunk_loop fuel (x :: a) (-1)%Q 0%Q [] = None.
Proof.
  apply (chunkArray_nonpositive_size (-1)%Q). discriminate.
Defined.

Lemma filter_nothing_in_range this (flows : list Flow) (cur : Q) :
  Forall (fun flow => (inject_Z (_calculateMaxGasPrice this flow) < cur)%Q) flows ->
  flowsWorthLiquidating this flows cur = [].
Proof.
  unfold flowsWorthLiquidating. induction 1 as [|flow flows Hlt _ IH]; [reflexivity|].
  simpl. rewrite IH.
  assert (Hge : Js.ge (inject_Z (_calculateMaxGasPrice this flow)) cur = false).
  { unfold Js.ge. apply not_true_iff_false. rewrite Qle_bool_iff.
    now apply Qlt_not_le. }
  now rewrite Hge.
Qed.

(** X9: when the ceiling of every flow of a token is below the current gas
    price, the selection returns no batch, whatever the batch size, and
    the processing of the token logs its three lines, calls nothing and
    returns. *)
Theorem nothing_in_range_no_batch {W : Type} (net : Network W) (this : Graphinator)
    (DRY_RUN : option string) (tokenAddr : string) (flows : list Flow)
    (currentGasPrice : Q) (s : W * list Event) :
  Forall
    (fun flow => (inject_Z (_calculateMaxGasPrice this flow) < currentGasPrice)%Q)
    flows ->
  Js.truthy currentGasPrice = true ->
  selectBatches this flows currentGasPrice = Some []
  /\ processFlowsAtGasPrice net this DRY_RUN tokenAddr flows currentGasPrice s
     = (Done tt,
        (fst s,
         snd s ++ [ELog (LogCurrentGasPrice (currentGasPrice / inject_Z (10 ^ 9))%Q);
                   ELog (LogInRange 0); ELog LogSorted])).
Proof.
  intros Hall Hcur. split.
  - unfold selectBatches. rewrite (filter_nothing_in_range this flows _ Hall).
    apply chunkArray_nil.
  - unfold processFlowsAtGasPrice.
    rewrite Hcur, (filter_nothing_in_range this flows _ Hall).
    change (Js.sort (byMaxGasPriceDesc this) []) with (@nil Flow).
    rewrite chunkArray_nil.
    cbn. now rewrite <- !app_assoc.
Qed.

Lemma nothing_in_range_no_batch_witness :
  selectBatches Example.ghr [Example.flowA1; Example.flowA2] (inject_Z 3000000000)
  = Some []
  /\ processFlowsAtGasPrice (Example.network (Some 3000000000)) Example.ghr None
       "0xaa"%string [Example.flowA1; Example.flowA2] (inject_Z 3000000000)
       Example.start
     = (Done tt,
        (fst Example.start,
         snd Example.start
         ++ [ELog (LogCurrentGasPrice (inject_Z 3000000000 / inject_Z (10 ^ 9))%Q);
             ELog (LogInRange 0); ELog LogSorted])).
Proof.
  apply (nothing_in_range_no_batch (Example.network (Some 3000000000)) Example.ghr
           None "0xaa"%string [Example.flowA1; Example.flowA2]
           (inject_Z 3000000000) Example.start).
  - repeat constructor.
  - reflexivity.
Defined.

(** * Further properties of the submission of a batch *)

Lemma forallb_token_false (tok : string) (flows : list Flow) :
  Exists (fun flow => token flow <> tok) flows ->
  forallb (fun flow => String.eqb (token flow) tok) flows = false.
Proof.
  induction 1 as [flow flows Hne | flow flows _ IH]; simpl.
  - apply String.eqb_neq in Hne. now rewrite Hne.
  - rewrite IH. apply andb_false_r.
Qed.

(** X10: a batch that holds a flow of another token than the one it is
    submitted for is given up before anything is asked of the network: the
    world is untouched, the only trace is the error "flow with wrong
    token" on [console.error], and [batchLiquidateFlows] returns. *)
Theorem wrong_token_batch_calls_nothing {W : Type} (net : Network W)
    (this : Graphinator) (DRY_RUN : option string) (tok : string)
    (flows : list Flow) (gp : Z) (s : W * list Event) :
  Exists (fun flow => token flow <> tok) flows ->
  batchLiquidateFlows net this DRY_RUN tok flows gp s
  = (Done tt,
     (fst s,
      snd s ++ [EBatchLiquidateFlows tok flows gp;
                EConsoleError "flow with wrong token"])).
Proof.
  intros Hex. rewrite batchLiquidateFlows_unfold.
  unfold batchLiquidateFlows_body, _generateBatchLiquidationTxData.
  rewrite (forallb_token_false tok flows Hex). cbn.
  now rewrite <- app_assoc.
Qed.

Lemma wrong_token_batch_calls_nothing_witness :
  batchLiquidateFlows (Example.network (Some 1000000001)) Example.ghr None
    "0xaa"%string [Example.flowA1; Example.dust] 1200000001 Example.start
  = (Done tt,
     (fst Example.start,
      snd Example.start
      ++ [EBatchLiquidateFlows "0xaa" [Example.flowA1; Example.dust] 1200000001;
          EConsoleError "flow with wrong token"])).
Proof.
  apply (wrong_token_batch_calls_nothing (Example.network (Some 1000000001))
           Example.ghr None "0xaa"%string [Example.flowA1; Example.dust]
           1200000001 Example.start).
  apply Exists_cons_tl. apply Exists_cons_hd. discriminate.
Defined.

(** X11: when the gas estimate is not negative and the gas multiplier is at
    least one, the gas limit is an integer between the estimate and the
    estimate times the multiplier. *)
Theorem estimateGasLimit_bounds {W : Type} (net : Network W) (this : Graphinator)
    (transaction : TransactionLike) (s : W * list Event) (gasEstimate : Z) (w' : W) :
  estimateGas net (to transaction) (data transaction) (fst s)
  = (Returns gasEstimate, w') ->
  0 <= gasEstimate ->
  (1 <= gasMultiplier this)%Q ->
  exists limit,
    _estimateGasLimit net this transaction s
    = (Done limit,
       (w', snd s ++ [EEstimateGas (to transaction) (data transaction)]))
    /\ gasEstimate <= limit
    /\ (inject_Z limit <= inject_Z gasEstimate * gasMultiplier this)%Q.
Proof.
  intros He Hg Hm.
  exists (Js.Math_floor (inject_Z gasEstimate * gasMultiplier this)%Q).
  split; [|split].
  - unfold _estimateGasLimit, bind, call, ret. now rewrite He.
  - unfold Js.Math_floor.
    rewrite <- (Qfloor_Z gasEstimate) at 1. apply Qfloor_resp_le.
    assert (0 <= inject_Z gasEstimate)%Q.
    { change 0%Q with (inject_Z 0). now rewrite <- Zle_Qle. }
    apply Qle_trans with (inject_Z gasEstimate * 1)%Q; [lra|].
    apply Qmult_le_compat_nonneg.
    + split; [assumption | apply Qle_refl].
    + split; [discriminate | exact Hm].
  - unfold Js.Math_floor. apply Qfloor_le.
Qed.

Lemma estimateGasLimit_bounds_witness :
  exists limit,
    _estimateGasLimit (Example.network None) Example.ghr
      {| to := "0xbatchliquidator"; data := "0xcalldata" |} Example.start
    = (Done limit,
       (0, snd Example.start ++ [EEstimateGas "0xbatchliquidator" "0xcalldata"]))
    /\ 100000 <= limit
    /\ (inject_Z limit <= inject_Z 100000 * gasMultiplier Example.ghr)%Q.
Proof.
  apply (estimateGasLimit_bounds (Example.network None) Example.ghr
           {| to := "0xbatchliquidator"; data := "0xcalldata" |} Example.start
           100000 0).
  - reflexivity.
  - lia.
  - discriminate.
Defined.

Ltac run_calls :=
  repeat (match goal with
          | |- context [match ?c with pair _ _ => _ end] =>
              destruct c as [[?|?] ?]
          | |- context [match ?r with Returns _ => _ | Throws _ => _ end] =>
              destruct r
          | |- context [if ?b then _ else _] => destruct b
          end; cbn [fst snd]).

Section OneTransaction.

Context {W : Type}.
Variable net : Network W.
Variable this : Graphinator.
Variable DRY_RUN : option string.

Lemma body_at_most_one_transaction tok flows gp (s : W * list Event) :
  exists new,
    snd (snd (batchLiquidateFlows_body net this DRY_RUN tok flows gp s))
    = snd s ++ new
    /\ (count_of is_wait new <= count_of is_broadcast new)%nat
    /\ (count_of is_broadcast new <= count_of is_sign new)%nat
    /\ (count_of is_sign new <= 1)%nat
    /\ attempted new = [].
Proof.
  unfold batchLiquidateFlows_body, _generateBatchLiquidationTxData,
    _estimateGasLimit, log, bind, pure_call, call, ret, emit, throw.
  cbn [fst snd].
  run_calls; rewrite <- ?app_assoc; cbn [app];
    (eexists; split; [try reflexivity; symmetry; apply app_nil_r|]);
    cbv; repeat split; lia.
Qed.

End OneTransaction.

Section AddsSuch.

Context {W : Type}.
Variable R : list Event -> Prop.
Hypothesis R_nil : R [].
Hypothesis R_app : forall a b, R a -> R b -> R (a ++ b).

Lemma adds_such_ret {A} (a : A) : adds_such (W:=W) R (ret a).
Proof. intros s. exists []. simpl. now rewrite app_nil_r. Qed.

Lemma adds_such_throw {A} (e : string) : adds_such (W:=W) (A:=A) R (throw e).
Proof. intros s. exists []. simpl. now rewrite app_nil_r. Qed.

Lemma adds_such_hang {A} : adds_such (W:=W) (A:=A) R hang.
Proof. intros s. exists []. simpl. now rewrite app_nil_r. Qed.

Lemma adds_such_emit (ev : Event) : R [ev] -> adds_such (W:=W) R (emit ev).
Proof. intros H s. exists [ev]. simpl. now split. Qed.

Lemma adds_such_call {A} (ev : Event) (f : W -> result A * W) :
  R [ev] -> adds_such R (call ev f).
Proof.
  intros H s. exists [ev]. unfold call.
  destruct (f (fst s)) as [[a|e] w']; simpl; now split.
Qed.

Lemma adds_such_bind {A B} (m : M (W:=W) A) (k : A -> M B) :
  adds_such R m -> (forall a, adds_such R (k a)) -> adds_such R (bind m k).
Proof.
  intros Hm Hk s. unfold bind. destruct (Hm s) as (n1 & E1 & H1).
  destruct (m s) as [[a|e|] s1]; simpl in E1.
  - destruct (Hk a s1) as (n2 & E2 & H2). exists (n1 ++ n2). split.
    + rewrite E2, E1. now rewrite app_assoc.
    + now apply R_app.
  - exists n1. now split.
  - exists n1. now split.
Qed.

Lemma adds_such_for_of {A} (l : list A) (body : A -> M (W:=W) unit) :
  (forall x, adds_such R (body x)) -> adds_such R (for_of l body).
Proof.
  intros Hb. induction l as [|x l IH]; simpl.
  - apply adds_such_ret.
  - apply adds_such_bind; [apply Hb | intros _; exact IH].
Qed.

End AddsSuch.

Lemma count_of_app (p : Event -> bool) (a b : list Event) :
  count_of p (a ++ b) = (count_of p a + count_of p b)%nat.
Proof. unfold count_of. now rewrite List.filter_app, length_app. Qed.

Lemma attempted_app (a b : list Event) :
  attempted (a ++ b) = attempted a ++ attempted b.
Proof. unfold attempted. apply omap_app. Qed.

Lemma submissions_bounded_nil : submissions_bounded [].
Proof. cbv. repeat split; lia. Qed.

Lemma submissions_bounded_app (a b : list Event) :
  submissions_bounded a -> submissions_bounded b -> submissions_bounded (a ++ b).
Proof.
  intros (A1 & A2 & A3) (B1 & B2 & B3). unfold submissions_bounded.
  rewrite !count_of_app, attempted_app, length_app. lia.
Qed.

Section OneTransactionPerBatch.

Context {W : Type}.
Variable net : Network W.
Variable this : Graphinator.
Variable DRY_RUN : option string.

Lemma batchLiquidateFlows_one_transaction tok flows gp (s : W * list Event) :
  exists new,
    snd (snd (batchLiquidateFlows net this DRY_RUN tok flows gp s)) = snd s ++ new
    /\ (count_of is_wait new <= count_of is_broadcast new)%nat
    /\ (count_of is_broadcast new <= count_of is_sign new)%nat
    /\ (count_of is_sign new <= 1)%nat
    /\ attempted new = [(tok, flows, gp)].
Proof.
  rewrite batchLiquidateFlows_unfold.
  destruct (body_at_most_one_transaction net this DRY_RUN tok flows gp
              (fst s, snd s ++ [EBatchLiquidateFlows tok flows gp]))
    as (new & E & H1 & H2 & H3 & H4).
  cbn [fst snd] in E.
  destruct (batchLiquidateFlows_body _ _ _ _ _ _ _) as [[[]|e|] s1];
    cbn [fst snd] in *; rewrite E, <- ?app_assoc;
    eexists; (split; [reflexivity|]);
    rewrite ?count_of_app, ?attempted_app, H4; cbn; repeat split; lia.
Qed.

Lemma batchLiquidateFlows_bounded tok flows gp :
  adds_such submissions_bounded (batchLiquidateFlows net this DRY_RUN tok flows gp).
Proof.
  intros s.
  destruct (batchLiquidateFlows_one_transaction tok flows gp s)
    as (new & E & H1 & H2 & H3 & H4).
  exists new. split; [exact E|]. unfold submissions_bounded. rewrite H4. cbn.
  repeat split; lia.
Qed.

Lemma processAll_bounded tok :
  adds_such submissions_bounded (processAll net this DRY_RUN tok).
Proof.
  unfold processAll, processToken, processFlowsAtGasPrice, submitChunks,
    _getSuperTokens, log.
  repeat (first
            [ apply batchLiquidateFlows_bounded
            | apply adds_such_ret; apply submissions_bounded_nil
            | apply adds_such_throw; apply submissions_bounded_nil
            | apply adds_such_hang; apply submissions_bounded_nil
            | apply adds_such_emit; cbv; repeat split; lia
            | apply adds_such_call; cbv; repeat split; lia
            | apply adds_such_bind;
                [apply submissions_bounded_app | | intros ?]
            | apply adds_such_for_of;
                [apply submissions_bounded_nil | apply submissions_bounded_app
                | intros ?]
            | match goal with
              | |- adds_such _ (if ?b then _ else _) => destruct b
              | |- adds_such _ (match ?o with Some _ => _ | None => _ end) =>
                  destruct o
              end ]).
Qed.

(** X12: whatever the network does, [batchLiquidateFlows] signs at most one
    transaction for a batch, broadcasts only what it signed and waits only
    for what it broadcast: a batch that fails is not tried again.  Over a
    whole run of [processAll] there are no more broadcasts than signatures
    and no more signatures than batches. *)
Theorem at_most_one_transaction_per_batch :
  (forall tok flows gp (s : W * list Event),
     exists new,
       snd (snd (batchLiquidateFlows net this DRY_RUN tok flows gp s))
       = snd s ++ new
       /\ (count_of is_wait new <= count_of is_broadcast new)%nat
       /\ (count_of is_broadcast new <= count_of is_sign new)%nat
       /\ (count_of is_sign new <= 1)%nat)
  /\ (forall tok (s : W * list Event),
        exists new,
          snd (snd (processAll net this DRY_RUN tok s)) = snd s ++ new
          /\ (count_of is_wait new <= count_of is_broadcast new)%nat
          /\ (count_of is_broadcast new <= count_of is_sign new)%nat
          /\ (count_of is_sign new <= length (attempted new))%nat).
Proof.
  split.
  - intros tok flows gp s.
    destruct (batchLiquidateFlows_one_transaction tok flows gp s)
      as (new & E & H1 & H2 & H3 & _).
    exists new. repeat split; assumption.
  - intros tok s. destruct (processAll_bounded tok s) as (new & E & H1 & H2 & H3).
    exists new. repeat split; assumption.
Qed.

End OneTransactionPerBatch.

Lemma forallb_token_true (tok : string) (flows : list Flow) :
  Forall (fun flow => token flow = tok) flows ->
  forallb (fun flow => String.eqb (token flow) tok) flows = true.
Proof.
  induction 1 as [|flow flows Heq _ IH]; simpl; [reflexivity|].
  rewrite IH. apply String.eqb_eq in Heq. now rewrite Heq.
Qed.

(** X13: a live batch on a network that answers: the calls are made in the
    order contract address, gas estimate, chain id, nonce, signature,
    broadcast, confirmation; the transaction that is signed goes to the
    contract with the encoded call, the gas limit floor(estimate *
    gasMultiplier), the given gas price and the chain id and nonce just
    read; what is broadcast is what the signer returned. *)
Theorem live_batch_on_answering_network {W : Type} (net : Network W)
    (this : Graphinator) (DRY_RUN : option string) (tok : string)
    (flows : list Flow) (gp : Z) (w0 w1 w2 w3 w4 w5 w6 w7 : W) (tr : list Event)
    (calldata address signedTx hash : string) (gasEstimate chain count : Z)
    (receipt : option string) :
  Js.truthy_str DRY_RUN = false ->
  Forall (fun flow => token flow = tok) flows ->
  encodeFunctionData net tok
    (map (fun flow => {| agreementOperation := agreementType flow;
                         p_sender := sender flow;
                         p_receiver := receiver flow |}) flows)
  = Returns calldata ->
  getAddress net w0 = (Returns address, w1) ->
  estimateGas net address calldata w1 = (Returns gasEstimate, w2) ->
  getNetwork net w2 = (Returns chain, w3) ->
  getTransactionCount net (walletAddress this) w3 = (Returns count, w4) ->
  let tx := {| tx_to := address;
               tx_data := calldata;
               gasLimit := Js.Math_floor (inject_Z gasEstimate * gasMultiplier this)%Q;
               gasPrice := gp;
               chainId := chain;
               nonce := count |} in
  signTransaction net tx w4 = (Returns signedTx, w5) ->
  broadcastTransaction net signedTx w5 = (Returns hash, w6) ->
  wait net hash w6 = (Returns receipt, w7) ->
  batchLiquidateFlows net this DRY_RUN tok flows gp (w0, tr)
  = (Done tt,
     (w7,
      tr ++ [EBatchLiquidateFlows tok flows gp; EGetAddress;
             EEstimateGas address calldata; EGetNetwork;
             EGetTransactionCount (walletAddress this); ESignTransaction tx;
             EBroadcastTransaction signedTx; EWait hash;
             ELog (LogSuccess receipt)])).
Proof.
  intros Hlive Htok Henc Haddr Hest Hnet Hcount tx Hsign Hcast Hwait.
  rewrite batchLiquidateFlows_unfold.
  unfold batchLiquidateFlows_body, _generateBatchLiquidationTxData,
    _estimateGasLimit, log, bind, pure_call, call, ret, emit.
  subst tx.
  rewrite (forallb_token_true tok flows Htok), Hlive, Henc.
  cbn [negb fst snd to data]. rewrite Haddr.
  cbn [fst snd to data]. rewrite Hest.
  cbn [fst snd to data]. rewrite Hnet.
  cbn [fst snd to data]. rewrite Hcount.
  cbn [fst snd to data]. rewrite Hsign.
  cbn [fst snd to data]. rewrite Hcast.
  cbn [fst snd to data]. rewrite Hwait.
  cbn [fst snd to data]. now rewrite <- !app_assoc.
Qed.

Lemma live_batch_on_answering_network_witness :
  batchLiquidateFlows (Example.network (Some 1000000001)) Example.ghr None
    "0xaa"%string [Example.flowA3; Example.flowA1] 1200000001 (4, [])
  = (Done tt,
     (5,
      [] ++ [EBatchLiquidateFlows "0xaa" [Example.flowA3; Example.flowA1] 1200000001;
             EGetAddress; EEstimateGas "0xbatchliquidator" "0xcalldata";
             EGetNetwork; EGetTransactionCount (walletAddress Example.ghr);
             ESignTransaction
               {| tx_to := "0xbatchliquidator";
                  tx_data := "0xcalldata";
                  gasLimit :=
                    Js.Math_floor (inject_Z 100000 * gasMultiplier Example.ghr)%Q;
                  gasPrice := 1200000001;
                  chainId := 8453;
                  nonce := 4 |};
             EBroadcastTransaction "0xsigned"; EWait "0xhash";
             ELog (LogSuccess (Some "0xhash"%string))])).
Proof.
  apply (live_batch_on_answering_network (Example.network (Some 1000000001))
           Example.ghr None "0xaa"%string [Example.flowA3; Example.flowA1]
           1200000001 4 4 4 4 4 4 5 5 [] "0xcalldata"%string
           "0xbatchliquidator"%string "0xsigned"%string "0xhash"%string
           100000 8453 4 (Some "0xhash"%string));
    try reflexivity.
  repeat constructor.
Defined.

(** * Further properties of a run *)

Lemma lower_ascii_idem (c : ascii) : Js.lower_ascii (Js.lower_ascii c) = Js.lower_ascii c.
Proof. destruct c as [[] [] [] [] [] [] [] []]; reflexivity. Qed.

Lemma toLowerCase_idem (s : string) : Js.toLowerCase (Js.toLowerCase s) = Js.toLowerCase s.
Proof.
  induction s as [|c s IH]; [reflexivity|].
  simpl. now rewrite lower_ascii_idem, IH.
Qed.

Section RunFacts.

Context {W : Type}.
Variable net : Network W.
Variable this : Graphinator.
Variable DRY_RUN : option string.

Lemma processToken_names_lower_case (tokenAddr : string) :
  Js.toLowerCase tokenAddr = tokenAddr ->
  adds_only names_lower_case (processToken net this DRY_RUN tokenAddr).
Proof.
  intros Hl.
  unfold processToken, processFlowsAtGasPrice, submitChunks, batchLiquidateFlows,
    batchLiquidateFlows_body, _generateBatchLiquidationTxData, _estimateGasLimit,
    log.
  trace_auto;
    (split; intros ? Hnamed; inversion Hnamed; subst; exact Hl).
Qed.

Lemma for_of_names_lower_case (tokenAddrs : list string) :
  Forall (fun t => Js.toLowerCase t = t) tokenAddrs ->
  adds_only names_lower_case (for_of tokenAddrs (processToken net this DRY_RUN)).
Proof.
  induction 1 as [|t l Ht _ IH]; simpl.
  - apply adds_only_ret.
  - apply adds_only_bind; [now apply processToken_names_lower_case | intros _; exact IH].
Qed.

Lemma adds_only_prefix {A} (P : Event -> Prop) (m : M (W:=W) A)
    (w : W) (tr pre : list Event) :
  Forall P pre -> adds_only P m ->
  exists new, snd (snd (m (w, tr ++ pre))) = tr ++ new /\ Forall P new.
Proof.
  intros Hpre Hm. destruct (Hm (w, tr ++ pre)) as (new & E & Hnew).
  exists (pre ++ new). split.
  - rewrite E. simpl. now rewrite <- app_assoc.
  - now apply Forall_app.
Qed.

(** X14: every token address that [processAll] hands to the flow source or to
    [batchLiquidateFlows] is in lower case, whether it comes from the
    argument or from the token listing. *)
Theorem processAll_names_tokens_in_lower_case (tok : option string) :
  adds_only names_lower_case (processAll net this DRY_RUN tok).
Proof.
  assert (Hev : forall ev, fetched_of ev = None -> attempt_of ev = None ->
                           names_lower_case ev).
  { intros ev H1 H2. split; intros x Hx; congruence. }
  assert (Hlist : adds_only names_lower_case
                    (bind (_getSuperTokens net (isListed this))
                       (fun tokenAddrs =>
                          bind (log (LogProcessing (length tokenAddrs) (isListed this)))
                            (fun _ => for_of tokenAddrs
                                        (processToken net this DRY_RUN))))).
  { intros s. unfold _getSuperTokens, bind at 1 2, call, ret.
    destruct (getSuperTokens net (isListed this) (fst s)) as [[tokens|e] w1].
    - apply adds_only_prefix; [repeat constructor; now apply Hev|].
      apply adds_only_bind; [apply adds_only_emit; now apply Hev|].
      intros _. apply for_of_names_lower_case.
      apply List.Forall_forall. intros t Hin. apply in_map_iff in Hin as (t0 & <- & _).
      apply toLowerCase_idem.
    - exists [EGetSuperTokens (isListed this)]. split; [reflexivity|].
      repeat constructor; now apply Hev. }
  unfold processAll. destruct tok as [t|]; [|exact Hlist].
  destruct (Js.truthy_str (Some t)); [|exact Hlist].
  intros s. unfold bind at 1 2, call, ret.
  destruct (resolveAddress net t (fst s)) as [[r|e] w1].
  - apply adds_only_prefix; [repeat constructor; now apply Hev|].
    apply adds_only_bind; [apply adds_only_emit; now apply Hev|].
    intros _. apply for_of_names_lower_case.
    repeat constructor. apply toLowerCase_idem.
  - exists [EResolveAddress t]. split; [reflexivity|].
    repeat constructor; now apply Hev.
Qed.

End RunFacts.

Section RunModes.

Context {W : Type}.
Variable net : Network W.
Variable this : Graphinator.
Variable DRY_RUN : option string.

Let quiet_event (ev : Event) : Prop :=
  fetched_of ev = None /\ is_token_listing ev = false.

Lemma processFlowsAtGasPrice_fetches_nothing tokenAddr flows (cur : Q) :
  adds_only quiet_event
    (processFlowsAtGasPrice net this DRY_RUN tokenAddr flows cur).
Proof.
  unfold processFlowsAtGasPrice, submitChunks, batchLiquidateFlows,
    batchLiquidateFlows_body, _generateBatchLiquidationTxData, _estimateGasLimit,
    log.
  trace_auto; split; reflexivity.
Qed.

Lemma processToken_fetches_once tokenAddr (s : W * list Event) :
  exists new,
    snd (snd (processToken net this DRY_RUN tokenAddr s))
    = snd s ++ EGetFlowsToLiquidate tokenAddr :: new
    /\ Forall quiet_event new.
Proof.
  unfold processToken. unfold bind at 1. unfold call at 1.
  destruct (getFlowsToLiquidate net tokenAddr _ _ (fst s)) as [[flows|e] w1].
  - match goal with
    | |- context [(if ?b then ?m1 else ?m2) ?s0] =>
        assert (Hk : adds_only quiet_event (if b then m1 else m2))
    end.
    { pose proof processFlowsAtGasPrice_fetches_nothing as Hp.
      unfold log.
      trace_auto_with ltac:(apply Hp); split; reflexivity. }
    destruct (Hk (w1, snd s ++ [EGetFlowsToLiquidate tokenAddr])) as (new & E & Hnew).
    exists new. split; [|exact Hnew].
    rewrite E. simpl. now rewrite <- app_assoc.
  - exists []. split; [reflexivity | constructor].
Qed.

(** X15: with a token given, [processAll] does not list the tokens and asks
    the flow source once, for the resolved address in lower case. *)
Theorem single_token_mode (t r : string) (s : W * list Event) (w1 : W) :
  Js.truthy_str (Some t) = true ->
  resolveAddress net t (fst s) = (Returns r, w1) ->
  exists new,
    snd (snd (processAll net this DRY_RUN (Some t) s))
    = snd s ++ EResolveAddress t :: ELog (LogProcessing 1 (isListed this))
              :: EGetFlowsToLiquidate (Js.toLowerCase r) :: new
    /\ Forall (fun ev => fetched_of ev = None /\ is_token_listing ev = false) new.
Proof.
  intros Ht Hr. unfold processAll. rewrite Ht.
  unfold bind at 1 2. unfold call at 1. rewrite Hr. unfold ret at 1.
  unfold bind at 1. unfold log at 1, emit at 1. cbn [fst snd length for_of].
  unfold bind at 1.
  destruct (processToken_fetches_once (Js.toLowerCase r)
              (w1, (snd s ++ [EResolveAddress t])
                   ++ [ELog (LogProcessing 1 (isListed this))]))
    as (new & E & Hnew).
  exists new. split; [|exact Hnew].
  destruct (processToken net this DRY_RUN (Js.toLowerCase r) _) as [[[]|e|] s2];
    cbn [fst snd ret] in *; rewrite E; now rewrite <- !app_assoc.
Qed.

Lemma processToken_no_flows tokenAddr (s : W * list Event) (w1 : W) :
  getFlowsToLiquidate net tokenAddr (depositConsumedPctThreshold this)
    (_calculateMaxGasPrice this) (fst s) = (Returns [], w1) ->
  processToken net this DRY_RUN tokenAddr s
  = (Done tt,
     (w1, snd s ++ [EGetFlowsToLiquidate tokenAddr; ELog (LogNoCritical tokenAddr)])).
Proof.
  intros Hflows. unfold processToken. unfold bind at 1. unfold call at 1.
  rewrite Hflows. change (0 <? length (@nil Flow))%nat with false. cbv iota.
  unfold log, emit. cbn [fst snd]. now rewrite <- app_assoc.
Qed.

(** X16: when no token has a flow to liquidate, the run over the tokens asks
    the flow source once for each token, in order, logs that there is
    nothing to do and returns: it looks up no fee and attempts no batch. *)
Theorem run_without_flows :
  (forall tokenAddr w,
     exists w',
       getFlowsToLiquidate net tokenAddr (depositConsumedPctThreshold this)
         (_calculateMaxGasPrice this) w = (Returns [], w')) ->
  forall (tokenAddrs : list string) (s : W * list Event),
    fst (for_of tokenAddrs (processToken net this DRY_RUN) s) = Done tt
    /\ snd (snd (for_of tokenAddrs (processToken net this DRY_RUN) s))
       = snd s
         ++ flat_map
              (fun tokenAddr =>
                 [EGetFlowsToLiquidate tokenAddr; ELog (LogNoCritical tokenAddr)])
              tokenAddrs.
Proof.
  intros Hq tokenAddrs.
  induction tokenAddrs as [|t l IH]; intros s.
  - simpl. now rewrite app_nil_r.
  - destruct (Hq t (fst s)) as (w' & E).
    assert (Hstep : for_of (t :: l) (processToken net this DRY_RUN) s
                    = for_of l (processToken net this DRY_RUN)
                        (w', snd s ++ [EGetFlowsToLiquidate t;
                                       ELog (LogNoCritical t)])).
    { cbn [for_of]. unfold bind at 1.
      now rewrite (processToken_no_flows t s w' E). }
    rewrite Hstep.
    destruct (IH (w', snd s ++ [EGetFlowsToLiquidate t; ELog (LogNoCritical t)]))
      as [IH1 IH2].
    split; [exact IH1|]. rewrite IH2. cbn [snd flat_map].
    now rewrite <- !app_assoc.
Qed.

(** X17: an error of the flow source is not caught: the loop over the tokens
    throws it at once, the fee is not looked up and the remaining tokens
    are not processed. *)
Theorem flow_source_error_aborts_run (tokenAddr : string)
    (remaining : list string) (s : W * list Event) (e : string) (w1 : W) :
  getFlowsToLiquidate net tokenAddr (depositConsumedPctThreshold this)
    (_calculateMaxGasPrice this) (fst s) = (Throws e, w1) ->
  for_of (tokenAddr :: remaining) (processToken net this DRY_RUN) s
  = (Raised e, (w1, snd s ++ [EGetFlowsToLiquidate tokenAddr])).
Proof.
  intros Hflows. cbn [for_of]. unfold bind at 1.
  unfold processToken. unfold bind at 1. unfold call at 1. now rewrite Hflows.
Qed.

(** X18: an error of the fee lookup is not caught either: the loop over the
    tokens throws it, no batch is attempted and the remaining tokens are
    not processed. *)
Theorem fee_lookup_error_aborts_run (tokenAddr : string)
    (remaining : list string) (s : W * list Event) (flows : list Flow)
    (e : string) (w1 w2 : W) :
  getFlowsToLiquidate net tokenAddr (depositConsumedPctThreshold this)
    (_calculateMaxGasPrice this) (fst s) = (Returns flows, w1) ->
  flows <> [] ->
  getFeeData net w1 = (Throws e, w2) ->
  for_of (tokenAddr :: remaining) (processToken net this DRY_RUN) s
  = (Raised e,
     (w2, snd s ++ [EGetFlowsToLiquidate tokenAddr; ELog (LogFound (length flows));
                    EGetFeeData])).
Proof.
  intros Hflows Hne Hfee. cbn [for_of]. unfold bind at 1.
  unfold processToken. unfold bind at 1. unfold call at 1. rewrite Hflows.
  destruct flows as [|f flows]; [congruence|].
  change (0 <? length (f :: flows))%nat with true. cbv iota.
  unfold bind at 1. unfold log at 1, emit at 1.
  unfold bind at 1. unfold call at 1. cbn [fst snd]. rewrite Hfee.
  now rewrite <- !app_assoc.
Qed.

End RunModes.

Lemma run_without_flows_witness :
  fst (for_of ["0xaa"%string; "0xbb"%string]
         (processToken Faults.quiet Example.ghr None) Example.start) = Done tt
  /\ snd (snd (for_of ["0xaa"%string; "0xbb"%string]
                 (processToken Faults.quiet Example.ghr None) Example.start))
     = snd Example.start
       ++ flat_map
            (fun tokenAddr =>
               [EGetFlowsToLiquidate tokenAddr; ELog (LogNoCritical tokenAddr)])
            ["0xaa"%string; "0xbb"%string].
Proof.
  apply (run_without_flows Faults.quiet Example.ghr None).
  intros tokenAddr w. exists w. reflexivity.
Defined.

Lemma single_token_mode_witness :
  exists new,
    snd (snd (processAll (Example.network (Some 1000000001)) Example.ghr None
                (Some "0xAA"%string) Example.start))
    = snd Example.start
      ++ EResolveAddress "0xAA" :: ELog (LogProcessing 1 (isListed Example.ghr))
         :: EGetFlowsToLiquidate (Js.toLowerCase "0xAA") :: new
    /\ Forall (fun ev => fetched_of ev = None /\ is_token_listing ev = false) new.
Proof.
  apply (single_token_mode (Example.network (Some 1000000001)) Example.ghr None
           "0xAA"%string "0xAA"%string Example.start 0); reflexivity.
Defined.

Lemma flow_source_error_aborts_run_witness :
  for_of ["0xaa"%string; "0xbb"%string]
    (processToken Faults.noFlowSource Example.ghr None) Example.start
  = (Raised "subgraph unavailable",
     (0, snd Example.start ++ [EGetFlowsToLiquidate "0xaa"])).
Proof.
  apply (flow_source_error_aborts_run Faults.noFlowSource Example.ghr None
           "0xaa"%string ["0xbb"%string] Example.start "subgraph unavailable"%string 0).
  reflexivity.
Defined.

Lemma fee_lookup_error_aborts_run_witness :
  for_of ["0xaa"%string; "0xbb"%string]
    (processToken Faults.noFeeData Example.ghr None) Example.start
  = (Raised "rpc unavailable",
     (0, snd Example.start
         ++ [EGetFlowsToLiquidate "0xaa";
             ELog (LogFound (length (Example.flowsOf "0xaa"%string)));
             EGetFeeData])).
Proof.
  apply (fee_lookup_error_aborts_run Faults.noFeeData Example.ghr None
           "0xaa"%string ["0xbb"%string] Example.start
           (Example.flowsOf "0xaa"%string) "rpc unavailable"%string 0 0).
  - reflexivity.
  - discriminate.
  - reflexivity.
Defined.

(** * Properties of the construction *)

Lemma constructor_returns_inv (env : Environment) (networkName : string)
    (bs gm ref fb mn : Q) (listed : bool) (this : Graphinator) :
  constructor env networkName bs gm ref fb mn listed = Returns this ->
  limits_accepted this = true
  /\ referenceGasPriceLimit this = ref
  /\ fallbackGasPriceLimit this = fb
  /\ minGasPriceLimit this = mn
  /\ batchSize this = bs
  /\ tokenPrices this = default ∅ (tokenPricesAllNetworks env !! networkName).
Proof.
  unfold constructor.
  destruct (Js.gt mn fb || Js.gt mn ref) eqn:Hlim; [discriminate|].
  destruct (getNetworkByName env networkName) as [contracts|]; [|discriminate].
  destruct (PRIVATE_KEY env) as [key|]; [|discriminate].
  destruct (negb (Js.truthy_str (Some key))); [discriminate|].
  destruct (newWallet env key) as [address|e]; [|discriminate].
  destruct (negb (Js.truthy_str (gdaV1Forwarder contracts))); [discriminate|].
  destruct (newContract env (gdaV1Forwarder contracts)) as [[]|e]; [|discriminate].
  destruct (newContract env (batchLiquidator contracts)) as [[]|e]; [|discriminate].
  intros E. injection E as <-. unfold limits_accepted. cbn.
  rewrite Hlim. repeat split.
Qed.

(** X19: an instance that the constructor returns with a minimum limit that is
    not negative has, for every flow, a ceiling of at least the rounded
    minimum limit and at most eleven times its base ceiling, rounded: the
    check of the constructor is what the bounds rest on. *)
Theorem constructed_instance_bids_within_bounds (env : Environment)
    (networkName : string) (bs gm ref fb mn : Q) (listed : bool)
    (this : Graphinator) (flow : Flow) :
  constructor env networkName bs gm ref fb mn listed = Returns this ->
  (0 <= mn)%Q ->
  Js.Math_round mn <= _calculateMaxGasPrice this flow
  /\ _calculateMaxGasPrice this flow
     <= Js.Math_round (11 * baseMaxGasPrice this flow)%Q.
Proof.
  intros Hc H0.
  apply constructor_returns_inv in Hc as (Hok & _ & _ & Hmn & _).
  rewrite <- Hmn in *. split.
  - now apply calculateMaxGasPrice_ge_min.
  - now apply calculateMaxGasPrice_within_base.
Qed.

Lemma constructed_instance_bids_within_bounds_witness :
  Js.Math_round (inject_Z (10 ^ 8))
  <= _calculateMaxGasPrice
       (with_batchSize (with_prices Example.ghr Example.prices) 1) Example.dust
  /\ _calculateMaxGasPrice
       (with_batchSize (with_prices Example.ghr Example.prices) 1) Example.dust
     <= Js.Math_round
          (11 * baseMaxGasPrice
                  (with_batchSize (with_prices Example.ghr Example.prices) 1)
                  Example.dust)%Q.
Proof.
  apply (constructed_instance_bids_within_bounds Setup.env "base-mainnet"%string
           1 (12 # 10) (inject_Z (10 ^ 9)) (inject_Z (10 ^ 10)) (inject_Z (10 ^ 8))
           true).
  - reflexivity.
  - discriminate.
Defined.

(** X20: the constructor never throws "Batch Liquidator contract address not
    found in metadata", also when the metadata have no such address: the
    check that would throw it tests the address of the forwarder, which
    the check before it has already found.  (The constructors of ethers
    are taken not to throw that message themselves.) *)
Theorem constructor_never_misses_batch_liquidator (env : Environment)
    (networkName : string) (bs gm ref fb mn : Q) (listed : bool) :
  (forall key,
     newWallet env key
     <> Throws "Batch Liquidator contract address not found in metadata") ->
  (forall address,
     newContract env address
     <> Throws "Batch Liquidator contract address not found in metadata") ->
  constructor env networkName bs gm ref fb mn listed
  <> Throws "Batch Liquidator contract address not found in metadata".
Proof.
  intros Hw Hc. unfold constructor.
  destruct (Js.gt mn fb || Js.gt mn ref); [discriminate|].
  destruct (getNetworkByName env networkName) as [contracts|].
  2:{ intros E. injection E as E. discriminate E. }
  destruct (PRIVATE_KEY env) as [key|]; [|discriminate].
  destruct (negb (Js.truthy_str (Some key))); [discriminate|].
  pose proof (Hw key) as Hwk.
  destruct (newWallet env key) as [address|e].
  2:{ intros E. apply Hwk. congruence. }
  destruct (negb (Js.truthy_str (gdaV1Forwarder contracts))) eqn:Hg; [discriminate|].
  pose proof (Hc (gdaV1Forwarder contracts)) as Hc1.
  destruct (newContract env (gdaV1Forwarder contracts)) as [[]|e].
  2:{ intros E. apply Hc1. congruence. }
  pose proof (Hc (batchLiquidator contracts)) as Hc2.
  destruct (newContract env (batchLiquidator contracts)) as [[]|e];
    [discriminate|].
  intros E. apply Hc2. congruence.
Qed.

Lemma constructor_never_misses_batch_liquidator_witness :
  getNetworkByName Setup.env "base-mainnet"
  = Some {| gdaV1Forwarder := Some "0xforwarder"%string; batchLiquidator := None |}
  /\ constructor Setup.env "base-mainnet" 1 (12 # 10) (inject_Z (10 ^ 9))
       (inject_Z (10 ^ 10)) (inject_Z (10 ^ 8)) true
     <> Throws "Batch Liquidator contract address not found in metadata".
Proof.
  split; [reflexivity|].
  apply (constructor_never_misses_batch_liquidator Setup.env "base-mainnet"%string
           1 (12 # 10) (inject_Z (10 ^ 9)) (inject_Z (10 ^ 10)) (inject_Z (10 ^ 8))
           true); intros; discriminate.
Defined.

(** X21: with the fallback and the minimum left to their defaults, ten times
    and a tenth of the reference limit, the check of the constructor on the
    limits fails exactly when the reference limit is negative: then the
    constructor throws the message of the check, whatever its
    environment. *)
Theorem default_limits_accepted_iff (referenceMwei : Q) :
  let '(ref, fb, mn) := limitsOfOptions referenceMwei None None in
  (Js.gt mn fb || Js.gt mn ref = true <-> (referenceMwei < 0)%Q)
  /\ ((referenceMwei < 0)%Q ->
      forall env networkName bs gm listed,
        constructor env networkName bs gm ref fb mn listed = Throws limitsMessage).
Proof.
  cbn [limitsOfOptions].
  set (ref := (referenceMwei * 1000000)%Q).
  assert (Hiff : Js.gt (ref * (1 # 10)) (ref * 10) || Js.gt (ref * (1 # 10)) ref = true
                 <-> (referenceMwei < 0)%Q).
  { rewrite orb_true_iff, !gt_true_iff. subst ref. split; [intros [H|H] | intros H; left]; lra. }
  split; [exact Hiff|].
  intros Hneg env networkName bs gm listed. unfold constructor.
  apply Hiff in Hneg. now rewrite Hneg.
Qed.

Lemma default_limits_accepted_iff_witness :
  (Js.gt (-1 * 1000000 * (1 # 10)) (-1 * 1000000 * 10)
   || Js.gt (-1 * 1000000 * (1 # 10)) (-1 * 1000000) = true <-> (-1 < 0)%Q)
  /\ constructor Setup.env "base-mainnet" 1 (12 # 10) (-1 * 1000000)
       (-1 * 1000000 * 10) (-1 * 1000000 * (1 # 10)) true
     = Throws limitsMessage.
Proof.
  destruct (default_limits_accepted_iff (-1)) as [H1 H2].
  split; [exact H1|]. apply H2. reflexivity.
Defined.

(** X22: with a positive reference limit and no negative option, the minimum
    limit that the command line hands to the constructor is positive: an
    option of zero counts as absent, so the floor cannot be switched off. *)
Theorem command_line_minimum_is_positive (referenceMwei : Q)
    (fallbackMwei minMwei : option Q) :
  (0 < referenceMwei)%Q ->
  (forall m, minMwei = Some m -> (0 <= m)%Q) ->
  let '(_, _, mn) := limitsOfOptions referenceMwei fallbackMwei minMwei in
  (0 < mn)%Q.
Proof.
  intros Hr Hm. cbn [limitsOfOptions].
  destruct minMwei as [m|]; [|lra].
  specialize (Hm m eq_refl).
  destruct (Js.truthy m) eqn:Ht; [|lra].
  apply truthy_true_iff in Ht.
  assert (0 < m)%Q.
  { destruct (Qlt_le_dec 0 m) as [H|H]; [exact H|].
    exfalso. apply Ht. apply Qle_antisym; assumption. }
  lra.
Qed.

Lemma command_line_minimum_is_positive_witness :
  let '(_, _, mn) := limitsOfOptions 1000 None (Some 0%Q) in (0 < mn)%Q.
Proof.
  apply (command_line_minimum_is_positive 1000 None (Some 0%Q)).
  - reflexivity.
  - intros m E. injection E as <-. discriminate.
Defined.

(** * Properties of the price table script *)

Module TokenPricesFacts.

Import TokenPrices.

Lemma all_prices_truthy_empty : all_prices_truthy ∅.
Proof. intros n prices key p H. now rewrite lookup_empty in H. Qed.

Lemma all_prices_truthy_reset (networkName : string) (table : Table) :
  all_prices_truthy table -> all_prices_truthy (<[networkName := ∅]> table).
Proof.
  intros Ht n prices key p Hn Hk.
  destruct (decide (networkName = n)) as [->|Hne].
  - rewrite lookup_insert_eq in Hn. injection Hn as <-.
    now rewrite lookup_empty in Hk.
  - rewrite lookup_insert_ne in Hn by exact Hne. eapply Ht; eassumption.
Qed.

Lemma all_prices_truthy_setPrice (networkName key : string) (p : Q) (table : Table) :
  Js.truthy p = true ->
  all_prices_truthy table -> all_prices_truthy (setPrice networkName key p table).
Proof.
  intros Hp Ht n prices k q Hn Hk. unfold setPrice in Hn.
  destruct (decide (networkName = n)) as [->|Hne].
  - rewrite lookup_insert_eq in Hn. injection Hn as <-.
    destruct (decide (key = k)) as [->|Hk'].
    + rewrite lookup_insert_eq in Hk. now injection Hk as <-.
    + rewrite lookup_insert_ne in Hk by exact Hk'.
      destruct (table !! n) as [inner|] eqn:E; simpl in Hk.
      * eapply Ht; eassumption.
      * now rewrite lookup_empty in Hk.
  - rewrite lookup_insert_ne in Hn by exact Hne. eapply Ht; eassumption.
Qed.

Lemma all_prices_truthy_setPriceIfAny (networkName key : string) (price : option Q)
    (table : Table) :
  all_prices_truthy table ->
  all_prices_truthy (setPriceIfAny networkName key price table).
Proof.
  intros Ht. unfold setPriceIfAny. destruct price as [p|]; [|exact Ht].
  destruct (Js.truthy p) eqn:Hp; [|exact Ht].
  now apply all_prices_truthy_setPrice.
Qed.

Lemma all_prices_truthy_fold (networkName : string) (prices : gmap string (option Q))
    (key : TokenInfo -> string) (tokens : list TokenInfo) (table : Table) :
  all_prices_truthy table ->
  all_prices_truthy
    (fold_left
       (fun table token =>
          setPriceIfAny networkName (id token)
            (mjoin (prices !! Js.toLowerCase (key token))) table)
       tokens table).
Proof.
  revert table. induction tokens as [|t l IH]; intros table Ht; [exact Ht|].
  simpl. apply IH. now apply all_prices_truthy_setPriceIfAny.
Qed.

Lemma dom_setPrice (networkName key : string) (p : Q) (table : Table) (n : string) :
  is_Some (setPrice networkName key p table !! n) ->
  n = networkName \/ is_Some (table !! n).
Proof.
  unfold setPrice. destruct (decide (networkName = n)) as [->|Hne]; [now left|].
  rewrite lookup_insert_ne by exact Hne. now right.
Qed.

Lemma dom_setPriceIfAny (networkName key : string) (price : option Q) (table : Table)
    (n : string) :
  is_Some (setPriceIfAny networkName key price table !! n) ->
  n = networkName \/ is_Some (table !! n).
Proof.
  unfold setPriceIfAny. destruct price as [p|]; [|now right].
  destruct (Js.truthy p); [apply dom_setPrice | now right].
Qed.

Lemma dom_fold (networkName : string) (prices : gmap string (option Q))
    (key : TokenInfo -> string) (tokens : list TokenInfo) (table : Table) (n : string) :
  is_Some
    (fold_left
       (fun table token =>
          setPriceIfAny networkName (id token)
            (mjoin (prices !! Js.toLowerCase (key token))) table)
       tokens table !! n) ->
  n = networkName \/ is_Some (table !! n).
Proof.
  revert table. induction tokens as [|t l IH]; intros table H; [now right|].
  simpl in H. apply IH in H as [H|H]; [now left|].
  now apply dom_setPriceIfAny in H.
Qed.

Section Invariants.

Context {U : Type}.
Variable cg : Services U.

Lemma nativeStep_cases (network : NetworkInfo) (table : Table) (s : U * list Event)
    (table' : Table) (s' : U * list Event) :
  nativeStep cg network table s = (Done table', s') ->
  table' = table
  \/ exists wrapper price,
       table' = setPriceIfAny (name network) wrapper price table.
Proof.
  unfold nativeStep.
  destruct (nativeTokenWrapper network) as [wrapper|]; [|intros E; left; unfold ret in E; congruence].
  destruct (nativeTokenSymbol network) as [sym|]; [|intros E; left; unfold ret in E; congruence].
  destruct (_ && _); [|intros E; left; unfold ret in E; congruence].
  unfold bind at 1.
  destruct (fetchNativeTokenId cg sym s) as [[[coinId|]|e|] s1];
    try discriminate; [|intros E; left; unfold ret in E; congruence].
  destruct (Js.truthy_str (Some coinId)); [|intros E; left; unfold ret in E; congruence].
  unfold bind.
  destruct (fetchNativeCoinPrice cg coinId s1) as [[price|e|] s2]; try discriminate.
  intros E. right. exists wrapper, price. unfold ret in E. congruence.
Qed.

Lemma categoryStep_cases (network : NetworkInfo) (platform : string)
    (tokens : list TokenInfo) (key : TokenInfo -> string) (table : Table)
    (s : U * list Event) (table' : Table) (s' : U * list Event) :
  categoryStep cg network platform tokens key table s = (Done table', s') ->
  table' = table
  \/ exists prices : gmap string (option Q),
       table'
       = fold_left
           (fun table token =>
              setPriceIfAny (name network) (id token)
                (mjoin (prices !! Js.toLowerCase (key token))) table)
           tokens table.
Proof.
  unfold categoryStep. destruct (0 <? length tokens)%nat; [|intros E; left; unfold ret in E; congruence].
  unfold bind.
  destruct (fetchCoingeckoPlatformTokenPrices cg platform (map key tokens) s)
    as [[prices|e|] s1]; try discriminate.
  intros E. right. exists prices. unfold ret in E. congruence.
Qed.

Lemma processNetwork_cases (table : Table) (network : NetworkInfo)
    (s : U * list Event) (table' : Table) (s' : U * list Event) :
  processNetwork cg table network s = (Done table', s') ->
  (all_prices_truthy table -> all_prices_truthy table')
  /\ (forall n, is_Some (table' !! n) ->
                (n = name network /\ Js.truthy_str (coinGeckoId network) = true)
                \/ is_Some (table !! n)).
Proof.
  unfold processNetwork.
  destruct (coinGeckoId network) as [platform|];
    [|intros E; unfold ret in E; injection E as <- _; split; [tauto | intros n H; now right]].
  destruct (Js.truthy_str (Some platform)) eqn:Hp;
    [|intros E; unfold ret in E; injection E as <- _; split; [tauto | intros n H; now right]].
  unfold bind at 1.
  destruct (fetchListedSuperTokens cg network s) as [[tokens|e|] s1]; try discriminate.
  unfold bind at 1.
  destruct (nativeStep cg network (<[name network:=∅]> table) s1)
    as [[t1|e|] s2] eqn:E1; try discriminate.
  unfold bind at 1.
  destruct (categoryStep cg network platform (pureSuperTokens tokens) id t1 s2)
    as [[t2|e|] s3] eqn:E2; try discriminate.
  intros E3.
  apply nativeStep_cases in E1. apply categoryStep_cases in E2.
  apply categoryStep_cases in E3.
  split.
  - intros Ht. apply (all_prices_truthy_reset (name network)) in Ht.
    assert (H1 : all_prices_truthy t1).
    { destruct E1 as [->|(w & p & ->)]; [exact Ht|].
      now apply all_prices_truthy_setPriceIfAny. }
    assert (H2 : all_prices_truthy t2).
    { destruct E2 as [->|(prices & ->)]; [exact H1|].
      now apply all_prices_truthy_fold. }
    destruct E3 as [->|(prices & ->)]; [exact H2|].
    now apply all_prices_truthy_fold.
  - intros n Hn.
    assert (H3 : n = name network \/ is_Some (t2 !! n)).
    { destruct E3 as [->|(prices & ->)]; [now right|]. now apply dom_fold in Hn. }
    destruct H3 as [->|H3]; [left; split; [reflexivity | first [exact Hp | reflexivity]]|].
    assert (H2 : n = name network \/ is_Some (t1 !! n)).
    { destruct E2 as [->|(prices & ->)]; [now right|]. now apply dom_fold in H3. }
    destruct H2 as [->|H2]; [left; split; [reflexivity | first [exact Hp | reflexivity]]|].
    assert (H1 : n = name network \/ is_Some ((<[name network:=∅]> table) !! n)).
    { destruct E1 as [->|(w & p & ->)]; [now right|].
      now apply dom_setPriceIfAny in H2. }
    destruct H1 as [->|H1]; [left; split; [reflexivity | first [exact Hp | reflexivity]]|].
    destruct (decide (name network = n)) as [<-|Hne];
      [left; split; [reflexivity | first [exact Hp | reflexivity]]|].
    rewrite lookup_insert_ne in H1 by exact Hne. now right.
Qed.

Lemma reduce_inv (networks : list NetworkInfo) :
  forall (table : Table) (s : U * list Event) (table' : Table) (s' : U * list Event),
    reduce networks (processNetwork cg) table s = (Done table', s') ->
    (all_prices_truthy table -> all_prices_truthy table')
    /\ (forall n, is_Some (table' !! n) ->
                  (exists network,
                     In network networks /\ name network = n
                     /\ Js.truthy_str (coinGeckoId network) = true)
                  \/ is_Some (table !! n)).
Proof.
  induction networks as [|network l IH]; intros table s table' s' E.
  - simpl in E. unfold ret in E. injection E as <- _. split; [tauto | intros n H; now right].
  - cbn [reduce] in E. unfold bind in E.
    destruct (processNetwork cg table network s) as [[t1|e|] s1] eqn:E1;
      try discriminate.
    apply processNetwork_cases in E1 as [P1 D1].
    apply IH in E as [P2 D2]. split; [tauto|].
    intros n Hn. apply D2 in Hn as [(nw & Hin & Hname & Hel)|Hn].
    + left. exists nw. split; [now right | now split].
    + apply D1 in Hn as [[-> Hel]|Hn]; [|now right].
      left. exists network. split; [now left | now split].
Qed.

Lemma run_writes (s : U * list Event) (table : Table) (s' : U * list Event) :
  run cg s = (Done (Some table), s') ->
  exists networks u1 s1 s2,
    networks_json cg (fst s) = (Returns networks, u1)
    /\ reduce (List.filter (fun network => negb (isTestnet network)) networks)
         (processNetwork cg) ∅ s1 = (Done table, s2).
Proof.
  unfold run, try_catch_val. unfold bind at 1. unfold ask at 1.
  destruct (networks_json cg (fst s)) as [[networks|e] u1]; [|discriminate].
  unfold bind at 1.
  destruct (ask (coins_list cg) (u1, snd s)) as [[[]|e|] s1]; try discriminate.
  unfold bind.
  destruct (reduce _ _ _ s1) as [[t|e|] s2] eqn:E; try discriminate.
  intros E'. exists networks, u1, s1, s2. split; [reflexivity|].
  unfold ret in E'. congruence.
Qed.

Lemma processNetwork_subgraph_down (table : Table) (network : NetworkInfo)
    (s : U * list Event) :
  Js.truthy_str (coinGeckoId network) = true ->
  (exists e u', subgraph_tokens cg network (fst s) = (Throws e, u')) ->
  exists e s', processNetwork cg table network s = (Raised e, s').
Proof.
  intros Hp (e & u' & He). unfold processNetwork.
  destruct (coinGeckoId network) as [platform|]; [|discriminate Hp].
  rewrite Hp. unfold bind, fetchListedSuperTokens, try_catch_val, ask, throw.
  rewrite He. eauto.
Qed.

Lemma processNetwork_skips (table : Table) (network : NetworkInfo)
    (s : U * list Event) :
  Js.truthy_str (coinGeckoId network) = false ->
  processNetwork cg table network s = (Done table, s).
Proof.
  intros Hp. unfold processNetwork.
  destruct (coinGeckoId network) as [platform|]; [|reflexivity].
  now rewrite Hp.
Qed.

Lemma reduce_subgraph_down (networks : list NetworkInfo) :
  (forall network u,
     eligible network = true ->
     exists e u', subgraph_tokens cg network u = (Throws e, u')) ->
  Forall (fun network => isTestnet network = false) networks ->
  Exists (fun network => eligible network = true) networks ->
  forall (table : Table) (s : U * list Event),
    exists e s', reduce networks (processNetwork cg) table s = (Raised e, s').
Proof.
  intros Hdown Hmain Hex.
  induction networks as [|network l IH]; intros table s.
  - inversion Hex.
  - apply Forall_cons in Hmain as [Hm Hmain].
    cbn [reduce]. unfold bind.
    destruct (Js.truthy_str (coinGeckoId network)) eqn:Hp.
    + assert (Hel : eligible network = true).
      { unfold eligible. now rewrite Hm, Hp. }
      destruct (processNetwork_subgraph_down table network s Hp
                  (Hdown network (fst s) Hel)) as (e & s' & E).
      rewrite E. eauto.
    + rewrite (processNetwork_skips table network s Hp).
      apply IH; [exact Hmain|].
      apply Exists_cons in Hex as [Hel|Hex]; [|exact Hex].
      unfold eligible in Hel. rewrite Hp, andb_false_r in Hel. discriminate Hel.
Qed.

End Invariants.

(** X23: a table that the script writes holds no price of zero: the gas price
    policy takes every price of the table for known. *)
Theorem written_table_has_no_zero_price {U : Type} (cg : Services U)
    (s : U * list Event) (table : Table) (s' : U * list Event) :
  run cg s = (Done (Some table), s') ->
  forall (networkName : string) (prices : gmap string Q) (key : string) (p : Q),
    table !! networkName = Some prices ->
    prices !! key = Some p ->
    Js.truthy p = true
    /\ forall flowrate_ : Q,
         dailyNFR (prices !! key) flowrate_
         = Some (Js.Math_round (flowrate_ * 86400 * p)%Q).
Proof.
  intros Hrun networkName prices key p Hn Hk.
  destruct (run_writes cg s table s' Hrun) as (networks & u1 & s1 & s2 & _ & Hred).
  apply reduce_inv in Hred as [Hinv _].
  specialize (Hinv all_prices_truthy_empty networkName prices key p Hn Hk).
  split; [exact Hinv|].
  intros fr. rewrite Hk. unfold dailyNFR. now rewrite Hinv.
Qed.

Lemma written_table_has_no_zero_price_witness :
  Js.truthy 2 = true
  /\ forall flowrate_ : Q,
       dailyNFR
         (({[ "0xEEee"%string := 3000%Q; "0xaa"%string := 2%Q ]} : gmap string Q)
            !! "0xaa"%string) flowrate_
       = Some (Js.Math_round (flowrate_ * 86400 * 2)%Q).
Proof.
  apply (written_table_has_no_zero_price Sample.services (tt, []) Sample.written
           (tt, []) ltac:(vm_compute; reflexivity) "base-mainnet"%string
           {[ "0xEEee"%string := 3000%Q; "0xaa"%string := 2%Q ]} "0xaa"%string 2%Q).
  - vm_compute. reflexivity.
  - vm_compute. reflexivity.
Defined.

(** X24: a table that the script writes has entries only for networks of
    [networks.json] that are not test nets and have an id at the price
    index. *)
Theorem written_table_has_only_priced_main_nets {U : Type} (cg : Services U)
    (s : U * list Event) (table : Table) (s' : U * list Event) :
  run cg s = (Done (Some table), s') ->
  exists networks u1,
    networks_json cg (fst s) = (Returns networks, u1)
    /\ forall networkName,
         is_Some (table !! networkName) ->
         exists network,
           In network networks /\ name network = networkName
           /\ eligible network = true.
Proof.
  intros Hrun.
  destruct (run_writes cg s table s' Hrun) as (networks & u1 & s1 & s2 & Hj & Hred).
  exists networks, u1. split; [exact Hj|].
  intros n Hn. apply reduce_inv in Hred as [_ Hdom].
  apply Hdom in Hn as [(nw & Hin & Hname & Hp)|Hn].
  - apply filter_In in Hin as [Hin Hm].
    exists nw. split; [exact Hin|]. split; [exact Hname|].
    unfold eligible. now rewrite Hm, Hp.
  - rewrite lookup_empty in Hn. now destruct Hn.
Qed.

Lemma written_table_has_only_priced_main_nets_witness :
  exists networks u1,
    networks_json Sample.services tt = (Returns networks, u1)
    /\ forall networkName,
         is_Some (Sample.written !! networkName) ->
         exists network,
           In network networks /\ name network = networkName
           /\ eligible network = true.
Proof.
  apply (written_table_has_only_priced_main_nets Sample.services (tt, [])
           Sample.written (tt, [])).
  vm_compute. reflexivity.
Defined.

(** X25: when the subgraph fails for every network that the script prices and
    there is such a network, the script writes no file at all, neither an
    empty table nor a part of one. *)
Theorem subgraph_down_writes_nothing {U : Type} (cg : Services U)
    (s : U * list Event) (networks : list NetworkInfo) (u1 u2 : U) :
  networks_json cg (fst s) = (Returns networks, u1) ->
  coins_list cg u1 = (Returns tt, u2) ->
  Exists (fun network => eligible network = true) networks ->
  (forall network u,
     eligible network = true ->
     exists e u', subgraph_tokens cg network u = (Throws e, u')) ->
  exists s', run cg s = (Done None, s').
Proof.
  intros Hj Hc Hex Hdown.
  unfold run, try_catch_val. unfold bind at 1. unfold ask at 1. rewrite Hj.
  unfold bind at 1. unfold ask at 1. cbn [fst snd]. rewrite Hc.
  unfold bind at 1.
  destruct (reduce_subgraph_down cg
              (List.filter (fun network => negb (isTestnet network)) networks)
              Hdown) with (table := (∅ : Table)) (s := (u2, snd s))
    as (e & s' & E).
  - apply List.Forall_forall. intros nw Hin. apply filter_In in Hin as [_ Hm].
    now apply negb_true_iff in Hm.
  - apply List.Exists_exists in Hex as (nw & Hin & Hel).
    apply List.Exists_exists. exists nw. split; [|exact Hel].
    apply filter_In. split; [exact Hin|].
    unfold eligible in Hel. now apply andb_true_iff in Hel as [Hm _].
  - rewrite E. unfold ret. eauto.
Qed.

Lemma subgraph_down_writes_nothing_witness :
  exists s', run Sample.subgraphDown (tt, []) = (Done None, s').
Proof.
  apply (subgraph_down_writes_nothing Sample.subgraphDown (tt, [])
           [Sample.main; Sample.test] tt tt).
  - reflexivity.
  - reflexivity.
  - apply Exists_cons_hd. reflexivity.
  - intros network u _. exists "timeout"%string, u. reflexivity.
Defined.

End TokenPricesFacts.
